(** * Verification of the animation decoder of io_scene_tsc

    Shallow embedding of [addons/io_scene_tsc/animation.py]: the three
    channel decoders, the per-bone channel resolution and the file
    reader, together with the properties of the decoder that its
    specification states.

    Python floats are IEEE binary64 numbers and are modelled by Rocq's
    primitive floats; Python integers are modelled by [Z]; exceptions
    by an error monad. *)

From Stdlib Require Import ZArith List Lia Bool Floats Uint63 Sorted.
From Stdlib Require Strings.Byte String Ascii.
Import ListNotations.
Open Scope Z_scope.

(** ** Exceptions *)

(** The exception classes that the module raises or catches, plus
    [TypeError], which [ctypes.c_int32] raises on a float. *)
Inductive exn : Type :=
| OSError
| IndexError
| ValueError
| ZeroDivisionError
| struct_error
| TypeError
| FileReadError.

Inductive res (A : Type) : Type :=
| Ok (a : A)
| Raise (e : exn).

Arguments Ok {A} a.
Arguments Raise {A} e.

Definition bind {A B : Type} (c : res A) (k : A -> res B) : res B :=
  match c with
  | Ok a => k a
  | Raise e => Raise e
  end.

Declare Scope res_scope.
Delimit Scope res_scope with res.
Notation "x <- c ;; k" := (bind c (fun x => k))
  (at level 100, c at next level, right associativity) : res_scope.
Notation "' p <- c ;; k" := (bind c (fun x => let p := x in k))
  (at level 100, p pattern, c at next level, right associativity) : res_scope.
Open Scope res_scope.

(** ** Floats *)

(** [float(n)] for a Python integer that fits 63 bits, which every
    bit field of the stream does. *)
Definition float_of_Z (z : Z) : float :=
  if z <? 0 then PrimFloat.opp (PrimFloat.of_uint63 (Uint63.of_Z (- z)))
  else PrimFloat.of_uint63 (Uint63.of_Z z).

(** The binary32 number with bit pattern [u], as the binary64 number
    Python holds after [struct.unpack('f', ...)]: the conversion is exact. *)
Definition float_of_bits32 (u : Z) : float :=
  let s := Z.testbit u 31 in
  let e := Z.land (Z.shiftr u 23) 255 in
  let m := Z.land u 8388607 in
  let mag :=
    if e =? 255 then (if m =? 0 then PrimFloat.infinity else PrimFloat.nan)
    else if e =? 0 then Z.ldexp (float_of_Z m) (-149)
    else Z.ldexp (float_of_Z (8388608 + m)) (e - 150) in
  if s then PrimFloat.opp mag else mag.

(** ** mathutils *)

(** [mathutils] is an external library.  Its values are modelled by the
    calls that build them: [mathutils.Quaternion(seq)],
    [q.normalized()] and [mathutils.Vector(seq)]. *)
Inductive Quaternion : Type :=
| mathutils_Quaternion (seq : list float)
| normalized (q : Quaternion).

Inductive Vector : Type :=
| mathutils_Vector (seq : list float).

(** ** utils.GameType *)

(** Modelled from the spec: [utils.GameType] (utils.py is not part of
    the sources) is the closed set of seven game-version tags; the
    constructors are the members that animation.py names. *)
Inductive GameType : Type :=
| THESIMS
| THESIMSBUSTINOUT
| THEURBZ
| THESIMS2
| THESIMS2PETS
| THESIMS2CASTAWAY
| THESIMS3.

(** [game_type in (THESIMS2PETS, THESIMS2CASTAWAY, THESIMS3)] *)
Definition in_pets_castaway_sims3 (game_type : GameType) : bool :=
  match game_type with
  | THESIMS2PETS | THESIMS2CASTAWAY | THESIMS3 => true
  | _ => false
  end.

(** ** bit_array.BitArray *)

Module BitArray.

(** Modelled from the spec: [bit_array.BitArray] (bit_array.py is not
    part of the sources) owns a fixed sequence of unsigned 32-bit
    words; bit addresses are absolute across the sequence, a field is
    packed most significant bit first and may span words, and a read
    outside [word_count * 32] bits fails loudly.  The contract of the
    readers gives the width of a field as 1 to 32 and says nothing of a
    width of 0, which the decoders pass on when a header holds one:
    whether the readers take such an empty field, and read it as 0, or
    refuse it as they refuse a field outside the stream, is left open,
    as the parameter [empty_fields] of the object. *)
Record t : Type := make { data : list Z; empty_fields : bool }.

Definition bit_count (s : t) : Z := 32 * Z.of_nat (length (data s)).

(** Bit [i] of the arena: bit 0 is the most significant bit of word 0. *)
Definition bit_at (s : t) (i : Z) : bool :=
  Z.testbit (nth (Z.to_nat (i / 32)) (data s) 0) (31 - i mod 32).

(** The [w] bits from [i] on, most significant first, appended to [acc]. *)
Fixpoint field_value (s : t) (i : Z) (w : nat) (acc : Z) : Z :=
  match w with
  | O => acc
  | S w' => field_value s (i + 1) w' (2 * acc + Z.b2z (bit_at s i))
  end.

(** A field within the stream whose width the contract covers, or an
    empty field within the stream where the object takes empty
    fields. *)
Definition in_range (s : t) (i w : Z) : bool :=
  (0 <=? i) && (i + w <=? bit_count s)
  && (((1 <=? w) && (w <=? 32)) || ((w =? 0) && empty_fields s)).

(** Modelled from the spec: [get_bit(bit_index) -> bool]. *)
Definition get_bit (s : t) (i : Z) : res bool :=
  if in_range s i 1 then Ok (bit_at s i) else Raise IndexError.

(** Modelled from the spec: [get_bits_unsigned(bit_index, width)], the
    field read as an unsigned integer. *)
Definition get_bits_unsigned (s : t) (i w : Z) : res Z :=
  if in_range s i w then Ok (field_value s i (Z.to_nat w) 0)
  else Raise IndexError.

(** Modelled from the spec: [get_bits_signed(bit_index, width)], the
    two's-complement reading of the same field; an empty field, where
    the object takes one, has no sign bit and reads as 0. *)
Definition get_bits_signed (s : t) (i w : Z) : res Z :=
  u <- get_bits_unsigned s i w ;;
  Ok (if (0 <? w) && (2 ^ (w - 1) <=? u) then u - 2 ^ w else u).

(** Modelled from the spec: [get_float(bit_index)] reinterprets the 32
    raw bits from [bit_index] on, aligned or not. *)
Definition get_float (s : t) (i : Z) : res float :=
  u <- get_bits_unsigned s i 32 ;;
  Ok (float_of_bits32 u).

(** [1.0 / d], which raises [ZeroDivisionError] when [d] is zero. *)
Definition one_over (d : float) : res float :=
  if (d =? 0)%float then Raise ZeroDivisionError else Ok (1 / d)%float.

(** Modelled from the spec: [signed_bits_to_float_scaler(width)] is
    [1.0 / (2^(width-1) - 1)]. *)
Definition signed_bits_to_float_scaler (w : Z) : res float :=
  one_over (Z.ldexp 1 (w - 1) - 1)%float.

(** Modelled from the spec: [unsigned_bits_to_float_scaler(width)] is
    [1.0 / (2^width - 1)]. *)
Definition unsigned_bits_to_float_scaler (w : Z) : res float :=
  one_over (Z.ldexp 1 w - 1)%float.

End BitArray.

(** Packing of a list of [(value, width)] fields, most significant bit
    first, into 32-bit words (zero padded): used to write streams down.
    The streams written this way take empty fields. *)
Fixpoint field_bits (v : Z) (w : nat) : list bool :=
  match w with
  | O => []
  | S w' => Z.testbit v (Z.of_nat w') :: field_bits v w'
  end.

Fixpoint word_of_bits (bits : list bool) (n : nat) (acc : Z) : Z :=
  match n with
  | O => acc
  | S n' =>
      match bits with
      | [] => word_of_bits [] n' (2 * acc)
      | b :: bits' => word_of_bits bits' n' (2 * acc + Z.b2z b)
      end
  end.

Fixpoint words_of_bits (fuel : nat) (bits : list bool) : list Z :=
  match fuel with
  | O => []
  | S fuel' =>
      match bits with
      | [] => []
      | _ => word_of_bits bits 32 0 :: words_of_bits fuel' (skipn 32 bits)
      end
  end.

Definition pack (fields : list (Z * Z)) : BitArray.t :=
  let bits :=
    flat_map (fun f => field_bits (fst f) (Z.to_nat (snd f))) fields in
  BitArray.make (words_of_bits (length bits) bits) true.


(** ** Keyframes *)

Module QuaternionKeyframe.
Record t : Type := make { frame : Z; bias : float; rotation : Quaternion }.
End QuaternionKeyframe.

Module VectorKeyframe.
Record t : Type := make { frame : Z; bias : float; vector : Vector }.
End VectorKeyframe.

(** [l[i]] and [l[i] = v] on the fixed-length work lists of the
    decoders; every index the decoders use lies within the list. *)
Definition item (l : list float) (i : nat) : float := nth i l 0%float.

Fixpoint set_item (l : list float) (i : nat) (v : float) : list float :=
  match l, i with
  | [], _ => []
  | _ :: l', O => v :: l'
  | x :: l', S i' => x :: set_item l' i' v
  end.

(** [1 if fps == 60.0 else 2] *)
Definition frame_count_multiplier (fps : float) : Z :=
  if (fps =? 60)%float then 1 else 2.

(** ** decompress_quaternion_keyframes *)

(** [for i in range: quat[i] = quaternion_scale * get_bits_signed(index,
    quaternion_bit_count); index += quaternion_bit_count] *)
Fixpoint read_quat_components (stream_data : BitArray.t)
    (quaternion_scale : float) (quaternion_bit_count : Z)
    (range : list nat) (quat : list float) (index : Z)
  : res (list float * Z) :=
  match range with
  | [] => Ok (quat, index)
  | i :: range' =>
      v <- BitArray.get_bits_signed stream_data index quaternion_bit_count ;;
      read_quat_components stream_data quaternion_scale quaternion_bit_count
        range' (set_item quat i (quaternion_scale * float_of_Z v)%float)
        (index + quaternion_bit_count)
  end.

(** [1.0 - ((quat[1] * quat[1]) + (quat[2] * quat[2]) + (quat[3] * quat[3]))] *)
Definition one_minus_squares (quat : list float) : float :=
  (1 - ((item quat 1 * item quat 1) + (item quat 2 * item quat 2)
        + (item quat 3 * item quat 3)))%float.

(** [if quat[k] > 0.0: quat[k] = sqrt(quat[k]); if negate_x: quat[k] =
    -quat[k]; else: quat[k] = 0.0] *)
Definition root_or_zero (quat : list float) (k : nat) (negate_x : bool)
  : list float :=
  if (0 <? item quat k)%float then
    let quat := set_item quat k (PrimFloat.sqrt (item quat k)) in
    if negate_x then set_item quat k (- item quat k)%float else quat
  else set_item quat k 0%float.

(** [bias_scale * float(get_bits_signed(index, bias_bit_count))
     if bias_bit_count > 0 else 0.0] *)
Definition read_bias_signed_guarded (stream_data : BitArray.t)
    (bias_scale : float) (bias_bit_count index : Z) : res float :=
  if 0 <? bias_bit_count then
    v <- BitArray.get_bits_signed stream_data index bias_bit_count ;;
    Ok (bias_scale * float_of_Z v)%float
  else Ok 0%float.

(** The body of the keyframe loop up to the construction of [quat]:
    the delta time, the bias, the list handed to [mathutils.Quaternion]
    and the cursor after the keyframe. *)
Definition quaternion_keyframe (stream_data : BitArray.t)
    (game_type : GameType)
    (delta_time_bit_count bias_bit_count : Z) (bias_scale : float)
    (quaternion_bit_count : Z) (quaternion_scale : float) (index : Z)
  : res (Z * float * list float * Z) :=
  delta_time <- BitArray.get_bits_unsigned stream_data index delta_time_bit_count ;;
  let index := index + delta_time_bit_count in
  bias <- read_bias_signed_guarded stream_data bias_scale bias_bit_count index ;;
  let index := index + bias_bit_count in
  if in_pets_castaway_sims3 game_type then
    (* skip unknown bit *)
    let index := index + 1 in
    let quat := [0; 0; 0; 0]%float in
    '(quat, index) <- read_quat_components stream_data quaternion_scale
                        quaternion_bit_count [0; 1; 2]%nat quat index ;;
    let quat := set_item quat 3 (one_minus_squares quat) in
    negate_x <- BitArray.get_bit stream_data index ;;
    let index := index + 1 in
    let quat := root_or_zero quat 3 negate_x in
    let quat := [item quat 3; item quat 0; item quat 1; item quat 2] in
    Ok (delta_time, bias, quat, index)
  else
    let quat := [0; 0; 0; 0]%float in
    '(quat, index) <- read_quat_components stream_data quaternion_scale
                        quaternion_bit_count [1; 2; 3]%nat quat index ;;
    let quat := set_item quat 0 (one_minus_squares quat) in
    negate_x <- BitArray.get_bit stream_data index ;;
    let index := index + 1 in
    let quat := root_or_zero quat 0 negate_x in
    let quat := [item quat 3; item quat 0; item quat 1; item quat 2] in
    Ok (delta_time, bias, quat, index).

(** [for _ in range(keyframe_count): ...; frame_count += delta_time + 1;
    keyframes.append(QuaternionKeyframe(...))] *)
Fixpoint quaternion_keyframes (stream_data : BitArray.t)
    (game_type : GameType)
    (delta_time_bit_count bias_bit_count : Z) (bias_scale : float)
    (quaternion_bit_count : Z) (quaternion_scale : float)
    (multiplier : Z) (count : nat) (index frame_count : Z)
  : res (list QuaternionKeyframe.t) :=
  match count with
  | O => Ok []
  | S count' =>
      '(delta_time, bias, quat, index) <-
        quaternion_keyframe stream_data game_type delta_time_bit_count
          bias_bit_count bias_scale quaternion_bit_count quaternion_scale
          index ;;
      let frame_count := frame_count + (delta_time + 1) in
      let keyframe :=
        QuaternionKeyframe.make (frame_count * multiplier - 1) bias
          (normalized (mathutils_Quaternion quat)) in
      keyframes <- quaternion_keyframes stream_data game_type
                     delta_time_bit_count bias_bit_count bias_scale
                     quaternion_bit_count quaternion_scale multiplier
                     count' index frame_count ;;
      Ok (keyframe :: keyframes)
  end.

(** [0.0 if bias_bit_count == 0 else signed_bits_to_float_scaler(bias_bit_count)] *)
Definition bias_scale_of (bias_bit_count : Z) : res float :=
  if bias_bit_count =? 0 then Ok 0%float
  else BitArray.signed_bits_to_float_scaler bias_bit_count.

Definition decompress_quaternion_keyframes (stream_data : BitArray.t)
    (index : Z) (fps : float) (game_type : GameType)
  : res (list QuaternionKeyframe.t) :=
  let index := - index in
  keyframe_count <- BitArray.get_bits_unsigned stream_data index 20 ;;
  let index := index + 20 in
  delta_time_bit_count <- BitArray.get_bits_unsigned stream_data index 5 ;;
  let index := index + 5 in
  bias_bit_count <- BitArray.get_bits_unsigned stream_data index 5 ;;
  let index := index + 5 in
  bias_scale <- bias_scale_of bias_bit_count ;;
  quaternion_bit_count <- BitArray.get_bits_unsigned stream_data index 5 ;;
  let index := index + 5 in
  quaternion_scale <- BitArray.signed_bits_to_float_scaler quaternion_bit_count ;;
  quaternion_keyframes stream_data game_type delta_time_bit_count
    bias_bit_count bias_scale quaternion_bit_count quaternion_scale
    (frame_count_multiplier fps) (Z.to_nat keyframe_count) index 0.

(** ** External functions *)

(** What the decoder takes from outside this module: the values of
    [math.sin] and [math.cos] on their domain,
    [utils.read_null_terminated_string] (utils.py is not part of the
    sources), which reads from the file contents at a position and
    returns the string with the position after it, and whether the
    [bit_array.BitArray] that [read_animation] builds takes empty
    fields. *)
Class Externals : Type := {
  sin : float -> float;
  cos : float -> float;
  read_null_terminated_string : list Byte.byte -> Z -> res (String.string * Z);
  bit_array_empty_fields : bool
}.

Section Decoder.

Context {ext : Externals}.

(** [math.sin(x)] raises [ValueError] on an infinite argument. *)
Definition math_sin (x : float) : res float :=
  if PrimFloat.is_infinity x then Raise ValueError else Ok (sin x).

Definition math_cos (x : float) : res float :=
  if PrimFloat.is_infinity x then Raise ValueError else Ok (cos x).

(** ** decompress_quaternion_1_dof_keyframes *)

(** The body of the keyframe loop up to the construction of the
    quaternion's components. *)
Definition quaternion_1_dof_keyframe (stream_data : BitArray.t)
    (x y z : float)
    (delta_time_bit_count bias_bit_count : Z) (bias_scale : float)
    (element_bit_count : Z) (element_scale element_offset : float)
    (index : Z)
  : res (Z * float * list float * Z) :=
  delta_time <- BitArray.get_bits_unsigned stream_data index delta_time_bit_count ;;
  let index := index + delta_time_bit_count in
  v <- BitArray.get_bits_signed stream_data index bias_bit_count ;;
  let bias := (bias_scale * float_of_Z v)%float in
  let index := index + bias_bit_count in
  '(element, index) <-
    (if element_bit_count =? 32 then
       element <- BitArray.get_float stream_data index ;;
       Ok (element, index + 32)
     else
       u <- BitArray.get_bits_unsigned stream_data index element_bit_count ;;
       Ok ((element_offset + (element_scale * float_of_Z u))%float,
           index + element_bit_count)) ;;
  sin <- math_sin (0.5 * element)%float ;;
  w <- math_cos (0.5 * element)%float ;;
  Ok (delta_time, bias, [w; x * sin; y * sin; z * sin]%float, index).

Fixpoint quaternion_1_dof_keyframes (stream_data : BitArray.t)
    (x y z : float)
    (delta_time_bit_count bias_bit_count : Z) (bias_scale : float)
    (element_bit_count : Z) (element_scale element_offset : float)
    (multiplier : Z) (count : nat) (index frame_count : Z)
  : res (list QuaternionKeyframe.t) :=
  match count with
  | O => Ok []
  | S count' =>
      '(delta_time, bias, quat, index) <-
        quaternion_1_dof_keyframe stream_data x y z delta_time_bit_count
          bias_bit_count bias_scale element_bit_count element_scale
          element_offset index ;;
      let frame_count := frame_count + (delta_time + 1) in
      let keyframe :=
        QuaternionKeyframe.make (frame_count * multiplier - 1) bias
          (normalized (mathutils_Quaternion quat)) in
      keyframes <- quaternion_1_dof_keyframes stream_data x y z
                     delta_time_bit_count bias_bit_count bias_scale
                     element_bit_count element_scale element_offset
                     multiplier count' index frame_count ;;
      Ok (keyframe :: keyframes)
  end.

Definition decompress_quaternion_1_dof_keyframes (stream_data : BitArray.t)
    (index : Z) (fps : float)
  : res (list QuaternionKeyframe.t) :=
  let index := - index in
  x <- BitArray.get_float stream_data index ;;
  let index := index + 32 in
  y <- BitArray.get_float stream_data index ;;
  let index := index + 32 in
  z <- BitArray.get_float stream_data index ;;
  let index := index + 32 in
  keyframe_count <- BitArray.get_bits_unsigned stream_data index 20 ;;
  let index := index + 20 in
  delta_time_bit_count <- BitArray.get_bits_unsigned stream_data index 5 ;;
  let index := index + 5 in
  bias_bit_count <- BitArray.get_bits_unsigned stream_data index 5 ;;
  let index := index + 5 in
  bias_scale <- bias_scale_of bias_bit_count ;;
  element_bit_count <- BitArray.get_bits_unsigned stream_data index 5 ;;
  let index := index + 5 in
  let element_bit_count :=
    if element_bit_count =? 0 then 32 else element_bit_count in
  '(element_scale, element_offset, index) <-
    (if element_bit_count =? 32 then Ok (1, 0, index)%float
     else
       element_scale <- BitArray.unsigned_bits_to_float_scaler element_bit_count ;;
       scale_float <- BitArray.get_float stream_data index ;;
       let index := index + 32 in
       let element_scale := (scale_float * element_scale)%float in
       element_offset <- BitArray.get_float stream_data index ;;
       let index := index + 32 in
       Ok (element_scale, element_offset, index)) ;;
  quaternion_1_dof_keyframes stream_data x y z delta_time_bit_count
    bias_bit_count bias_scale element_bit_count element_scale element_offset
    (frame_count_multiplier fps) (Z.to_nat keyframe_count) index 0.

End Decoder.

(** ** decompress_vector_keyframes *)

(** The value a component holds between its read and its conversion:
    a Python [int] or a Python [float]. *)
Inductive pyvalue : Type :=
| PyInt (n : Z)
| PyFloat (f : float).

(** [ctypes.c_int32(value).value]: an [int] wraps to 32 signed bits, a
    [float] is refused. *)
Definition c_int32 (value : pyvalue) : res Z :=
  match value with
  | PyInt n => Ok ((n + 2 ^ 31) mod 2 ^ 32 - 2 ^ 31)
  | PyFloat _ => Raise TypeError
  end.

(** [float(value)] *)
Definition py_float (value : pyvalue) : float :=
  match value with
  | PyInt n => float_of_Z n
  | PyFloat f => f
  end.

(** [value & 1 | value >> 2], which needs an [int]. *)
Definition low_bit_or_shift (value : pyvalue) : res pyvalue :=
  match value with
  | PyInt n => Ok (PyInt (Z.lor (Z.land n 1) (Z.shiftr n 2)))
  | PyFloat _ => Raise TypeError
  end.

(** [vector_scale]: [1.0 if vector_bit_count == 32 else
    unsigned_bits_to_float_scaler(vector_bit_count)] *)
Definition vector_scale_of (vector_bit_count : Z) : res float :=
  if vector_bit_count =? 32 then Ok 1%float
  else BitArray.unsigned_bits_to_float_scaler vector_bit_count.

(** [for i in range(3): scale[i] = vector_scale * get_float(index);
    index += 32; offset[i] = get_float(index); index += 32] *)
Fixpoint read_scale_offset (stream_data : BitArray.t) (vector_scale : float)
    (range : list nat) (scale offset : list float) (index : Z)
  : res (list float * list float * Z) :=
  match range with
  | [] => Ok (scale, offset, index)
  | i :: range' =>
      f <- BitArray.get_float stream_data index ;;
      let scale := set_item scale i (vector_scale * f)%float in
      let index := index + 32 in
      g <- BitArray.get_float stream_data index ;;
      let offset := set_item offset i g in
      let index := index + 32 in
      read_scale_offset stream_data vector_scale range' scale offset index
  end.

(** One round of [for i in range(3)] inside the keyframe loop: the
    component [value * scale[i] + offset[i]]. *)
Definition vector_component (stream_data : BitArray.t)
    (vector_bit_count : Z) (scale offset : list float) (i : nat) (index : Z)
  : res float :=
  value <- (if vector_bit_count =? 32 then
              f <- BitArray.get_float stream_data index ;; Ok (PyFloat f)
            else
              u <- BitArray.get_bits_unsigned stream_data index vector_bit_count ;;
              Ok (PyInt u)) ;;
  signed <- c_int32 value ;;
  value <- (if signed <? 0 then
              v <- low_bit_or_shift value ;; Ok (py_float v)
            else Ok (py_float value)) ;;
  Ok ((value * item scale i) + item offset i)%float.

Fixpoint read_vector_components (stream_data : BitArray.t)
    (vector_bit_count : Z) (scale offset : list float)
    (range : list nat) (vector : list float) (index : Z)
  : res (list float * Z) :=
  match range with
  | [] => Ok (vector, index)
  | i :: range' =>
      c <- vector_component stream_data vector_bit_count scale offset i index ;;
      read_vector_components stream_data vector_bit_count scale offset range'
        (set_item vector i c) (index + vector_bit_count)
  end.

(** [bias_scale * float(get_bits_unsigned(index, bias_bit_count))
     if bias_bit_count > 0 else 0.0] *)
Definition read_bias_unsigned_guarded (stream_data : BitArray.t)
    (bias_scale : float) (bias_bit_count index : Z) : res float :=
  if 0 <? bias_bit_count then
    v <- BitArray.get_bits_unsigned stream_data index bias_bit_count ;;
    Ok (bias_scale * float_of_Z v)%float
  else Ok 0%float.

Definition vector_keyframe (stream_data : BitArray.t) (game_type : GameType)
    (delta_time_bit_count bias_bit_count : Z) (bias_scale : float)
    (vector_bit_count : Z) (scale offset : list float) (index : Z)
  : res (Z * float * list float * Z) :=
  delta_time <- BitArray.get_bits_unsigned stream_data index delta_time_bit_count ;;
  let index := index + delta_time_bit_count in
  bias <- read_bias_unsigned_guarded stream_data bias_scale bias_bit_count index ;;
  let index := index + bias_bit_count in
  let index :=
    if in_pets_castaway_sims3 game_type then index + 1 (* skip unknown bit *)
    else index in
  '(vector, index) <- read_vector_components stream_data vector_bit_count
                        scale offset [0; 1; 2]%nat [0; 0; 0]%float index ;;
  Ok (delta_time, bias, vector, index).

Fixpoint vector_keyframes (stream_data : BitArray.t) (game_type : GameType)
    (delta_time_bit_count bias_bit_count : Z) (bias_scale : float)
    (vector_bit_count : Z) (scale offset : list float)
    (multiplier : Z) (count : nat) (index frame_count : Z)
  : res (list VectorKeyframe.t) :=
  match count with
  | O => Ok []
  | S count' =>
      '(delta_time, bias, vector, index) <-
        vector_keyframe stream_data game_type delta_time_bit_count
          bias_bit_count bias_scale vector_bit_count scale offset index ;;
      let frame_count := frame_count + (delta_time + 1) in
      let keyframe :=
        VectorKeyframe.make (frame_count * multiplier - 1) bias
          (mathutils_Vector vector) in
      keyframes <- vector_keyframes stream_data game_type
                     delta_time_bit_count bias_bit_count bias_scale
                     vector_bit_count scale offset multiplier count' index
                     frame_count ;;
      Ok (keyframe :: keyframes)
  end.

Definition decompress_vector_keyframes (stream_data : BitArray.t)
    (index : Z) (fps : float) (game_type : GameType)
  : res (list VectorKeyframe.t) :=
  let index := - index in
  keyframe_count <- BitArray.get_bits_unsigned stream_data index 20 ;;
  let index := index + 20 in
  delta_time_bit_count <- BitArray.get_bits_unsigned stream_data index 5 ;;
  let index := index + 5 in
  bias_bit_count <- BitArray.get_bits_unsigned stream_data index 5 ;;
  let index := index + 5 in
  bias_scale <- bias_scale_of bias_bit_count ;;
  vector_bit_count <- BitArray.get_bits_unsigned stream_data index 5 ;;
  let index := index + 5 in
  vector_scale <- vector_scale_of vector_bit_count ;;
  '(scale, offset, index) <-
    read_scale_offset stream_data vector_scale [0; 1; 2]%nat
      [0; 0; 0]%float [0; 0; 0]%float index ;;
  vector_keyframes stream_data game_type delta_time_bit_count bias_bit_count
    bias_scale vector_bit_count scale offset (frame_count_multiplier fps)
    (Z.to_nat keyframe_count) index 0.

(** ** Files and struct *)

(** A binary file opened for reading: its contents, a list of bytes,
    never change; the state is the position. *)
Definition byte_value (b : Byte.byte) : Z := Z.of_N (Byte.to_N b).

(** [file.read(n)] at position [pos]: the bytes read, at most [n] and
    fewer at the end of the file, and the position after them. *)
Definition file_read (content : list Byte.byte) (pos : Z) (n : Z)
  : list Byte.byte * Z :=
  let bytes := firstn (Z.to_nat n) (skipn (Z.to_nat pos) content) in
  (bytes, pos + Z.of_nat (length bytes)).

(** The byte order character that prefixes a [struct] format. *)
Inductive Endianness : Type :=
| LittleEndian
| BigEndian.

(** The unsigned integer that [bytes] hold most significant byte first. *)
Definition be_value (bytes : list Byte.byte) : Z :=
  fold_left (fun acc b => 256 * acc + byte_value b) bytes 0.

(** [struct.unpack(endianness + 'I', bytes)[0]] *)
Definition unpack_I (endianness : Endianness) (bytes : list Byte.byte)
  : res Z :=
  if (length bytes =? 4)%nat then
    Ok (be_value (match endianness with
                  | LittleEndian => rev bytes
                  | BigEndian => bytes
                  end))
  else Raise struct_error.

(** [struct.unpack(endianness + 'i', bytes)[0]] *)
Definition unpack_i (endianness : Endianness) (bytes : list Byte.byte)
  : res Z :=
  u <- unpack_I endianness bytes ;;
  Ok (if 2 ^ 31 <=? u then u - 2 ^ 32 else u).

(** [struct.unpack(endianness + 'f', bytes)[0]] *)
Definition unpack_f (endianness : Endianness) (bytes : list Byte.byte)
  : res float :=
  u <- unpack_I endianness bytes ;;
  Ok (float_of_bits32 u).

(** [struct.unpack(endianness + 'B', bytes)[0]] *)
Definition unpack_B (endianness : Endianness) (bytes : list Byte.byte)
  : res Z :=
  match bytes with
  | [b] => Ok (byte_value b)
  | _ => Raise struct_error
  end.

(** [struct.unpack(endianness + fmt, file.read(size))[0]] with the
    position after the read. *)
Definition read_I (content : list Byte.byte) (endianness : Endianness) (pos : Z)
  : res (Z * Z) :=
  let '(bytes, pos) := file_read content pos 4 in
  v <- unpack_I endianness bytes ;; Ok (v, pos).

Definition read_i (content : list Byte.byte) (endianness : Endianness) (pos : Z)
  : res (Z * Z) :=
  let '(bytes, pos) := file_read content pos 4 in
  v <- unpack_i endianness bytes ;; Ok (v, pos).

Definition read_f (content : list Byte.byte) (endianness : Endianness) (pos : Z)
  : res (float * Z) :=
  let '(bytes, pos) := file_read content pos 4 in
  v <- unpack_f endianness bytes ;; Ok (v, pos).

Definition read_B (content : list Byte.byte) (endianness : Endianness) (pos : Z)
  : res (Z * Z) :=
  let '(bytes, pos) := file_read content pos 1 in
  v <- unpack_B endianness bytes ;; Ok (v, pos).

(** [static_data[i]] for a non-negative [i] *)
Definition static_item (static_data : list float) (i : Z) : res float :=
  match nth_error static_data (Z.to_nat i) with
  | Some f => Ok f
  | None => Raise IndexError
  end.

(** [mathutils.Vector(seq)], which refuses a sequence of fewer than two
    items with [ValueError]. *)
Definition new_Vector (seq : list float) : res Vector :=
  if (length seq <? 2)%nat then Raise ValueError
  else Ok (mathutils_Vector seq).

(** ** Bone *)

Record Bone : Type := make_Bone {
  rotation_keyframes : list QuaternionKeyframe.t;
  scale_keyframes : list VectorKeyframe.t;
  location_keyframes : list VectorKeyframe.t
}.

Record Animation : Type := make_Animation {
  name : String.string;
  frame_count : Z;
  bones : list Bone;
  intensity : float;
  flags : Z;
  blend_type : Z;
  blend_m1 : float;
  blend_m2 : float;
  blend_duration : float;
  blend_speed : float;
  rotation_accumulator : Z;
  end_action : Z
}.

Section Reader.

Context {ext : Externals}.

(** The three-way resolution of [rotation_index] in [read_bone]. *)
Definition resolve_rotation (game_type : GameType) (static_data : list float)
    (stream_data : BitArray.t) (fps : float) (rotation_index : Z)
  : res (list QuaternionKeyframe.t) :=
  if 0 <? rotation_index then
    w <- static_item static_data (rotation_index + 3) ;;
    x <- static_item static_data rotation_index ;;
    y <- static_item static_data (rotation_index + 1) ;;
    z <- static_item static_data (rotation_index + 2) ;;
    Ok [QuaternionKeyframe.make 0 1 (mathutils_Quaternion [w; x; y; z])]
  else if rotation_index <? 0 then
    '(is_1_dof, rotation_index) <-
      (if in_pets_castaway_sims3 game_type then
         b <- BitArray.get_bit stream_data (- rotation_index) ;;
         Ok (b, rotation_index - 1)
       else Ok (false, rotation_index)) ;;
    if is_1_dof : bool then
      decompress_quaternion_1_dof_keyframes stream_data rotation_index fps
    else
      decompress_quaternion_keyframes stream_data rotation_index fps game_type
  else
    Ok [QuaternionKeyframe.make 0 1 (mathutils_Quaternion [1; 0; 0; 0]%float)].

(** The three-way resolution of [scale_index] and of [location_index]
    in [read_bone]; [default] is the value of index 0. *)
Definition resolve_vector (default : list float) (game_type : GameType)
    (static_data : list float) (stream_data : BitArray.t) (fps : float)
    (index : Z)
  : res (list VectorKeyframe.t) :=
  if 0 <? index then
    v <- new_Vector (firstn 3 (skipn (Z.to_nat index) static_data)) ;;
    Ok [VectorKeyframe.make 0 1 v]
  else if index <? 0 then
    decompress_vector_keyframes stream_data index fps game_type
  else
    Ok [VectorKeyframe.make 0 1 (mathutils_Vector default)].

(** Bytes of per-bone padding after the three indices. *)
Definition bone_padding (game_type : GameType) : Z :=
  match game_type with
  | THESIMS => 0
  | THESIMSBUSTINOUT => 16
  | THEURBZ | THESIMS2 | THESIMS2PETS | THESIMS2CASTAWAY | THESIMS3 => 20
  end.

Definition read_bone (content : list Byte.byte) (pos : Z) (endianness : Endianness)
    (game_type : GameType) (static_data : list float)
    (stream_data : BitArray.t) (fps : float)
  : res (Bone * Z) :=
  '(rotation_index, pos) <- read_i content endianness pos ;;
  '(scale_index, pos) <- read_i content endianness pos ;;
  '(location_index, pos) <- read_i content endianness pos ;;
  let pos :=
    match game_type with
    | THESIMS => pos
    | _ => snd (file_read content pos (bone_padding game_type))
    end in
  rotation_keyframes <-
    resolve_rotation game_type static_data stream_data fps rotation_index ;;
  scale_keyframes <-
    resolve_vector [1; 1; 1]%float game_type static_data stream_data fps
      scale_index ;;
  location_keyframes <-
    resolve_vector [0; 0; 0]%float game_type static_data stream_data fps
      location_index ;;
  Ok (make_Bone rotation_keyframes scale_keyframes location_keyframes, pos).

(** ** read_animation *)

(** [[struct.unpack(endianness + 'f', file.read(4))[0] for _ in range(count)]] *)
Fixpoint read_floats (content : list Byte.byte) (endianness : Endianness)
    (count : nat) (pos : Z) : res (list float * Z) :=
  match count with
  | O => Ok ([], pos)
  | S count' =>
      '(f, pos) <- read_f content endianness pos ;;
      '(fs, pos) <- read_floats content endianness count' pos ;;
      Ok (f :: fs, pos)
  end.

(** [[struct.unpack(endianness + 'I', file.read(4))[0] for _ in range(count)]] *)
Fixpoint read_words (content : list Byte.byte) (endianness : Endianness)
    (count : nat) (pos : Z) : res (list Z * Z) :=
  match count with
  | O => Ok ([], pos)
  | S count' =>
      '(w, pos) <- read_I content endianness pos ;;
      '(ws, pos) <- read_words content endianness count' pos ;;
      Ok (w :: ws, pos)
  end.

(** [[read_bone(...) for _ in range(bone_count)]] *)
Fixpoint read_bones (content : list Byte.byte) (endianness : Endianness)
    (game_type : GameType) (static_data : list float)
    (stream_data : BitArray.t) (fps : float) (count : nat) (pos : Z)
  : res (list Bone * Z) :=
  match count with
  | O => Ok ([], pos)
  | S count' =>
      '(bone, pos) <- read_bone content pos endianness game_type static_data
                        stream_data fps ;;
      '(bones, pos) <- read_bones content endianness game_type static_data
                         stream_data fps count' pos ;;
      Ok (bone :: bones, pos)
  end.

(** [for _ in range(sound_count): file.read(8);
    _ = utils.read_null_terminated_string(file)] *)
Fixpoint read_sounds (content : list Byte.byte) (count : nat) (pos : Z) : res Z :=
  match count with
  | O => Ok pos
  | S count' =>
      let pos := snd (file_read content pos 8) in
      '(_, pos) <- read_null_terminated_string content pos ;;
      read_sounds content count' pos
  end.

Definition bone_size (game_type : GameType) : Z :=
  match game_type with
  | THESIMS => 12
  | THESIMSBUSTINOUT => 28
  | THEURBZ | THESIMS2 | THESIMS2PETS | THESIMS2CASTAWAY | THESIMS3 => 32
  end.

Definition read_animation (content : list Byte.byte) (pos : Z)
    (endianness : Endianness) (game_type : GameType)
  : res (Animation * Z) :=
  let pos :=
    match game_type with
    | THEURBZ => snd (file_read content pos 20)
    | THESIMS2 | THESIMS2PETS | THESIMS2CASTAWAY | THESIMS3 =>
        snd (file_read content pos 16)
    | _ => pos
    end in
  '(name, pos) <- read_null_terminated_string content pos ;;
  let pos :=
    match game_type with
    | THESIMS2 | THESIMS2PETS | THESIMS2CASTAWAY | THESIMS3 =>
        snd (file_read content pos 4)
    | _ => pos
    end in
  '(frame_count, pos) <- read_I content endianness pos ;;
  let pos := snd (file_read content pos 12) in
  let pos := snd (file_read content pos 12) in
  '(bone_count, pos) <- read_I content endianness pos ;;
  let bone_position := pos in
  let bone_size := bone_size game_type in
  let pos := bone_position + (bone_count * bone_size) + 4 in
  let pos :=
    if in_pets_castaway_sims3 game_type then snd (file_read content pos 4)
    else pos in
  '(static_float_count, pos) <- read_I content endianness pos ;;
  '(static_data, pos) <-
    read_floats content endianness (Z.to_nat static_float_count) pos ;;
  '(stream_data_bit_count, pos) <- read_I content endianness pos ;;
  let stream_data_length :=
    Z.shiftl (Z.shiftr (stream_data_bit_count + 31) 5) 2 in
  '(stream_data, pos) <-
    read_words content endianness (Z.to_nat (stream_data_length / 4)) pos ;;
  let stream_data := BitArray.make stream_data bit_array_empty_fields in
  '(fps, pos) <- read_f content endianness pos ;;
  '(intensity, pos) <- read_f content endianness pos ;;
  '(flags, pos) <- read_I content endianness pos ;;
  '(blend_type, pos) <- read_B content endianness pos ;;
  '(blend_m1, pos) <- read_f content endianness pos ;;
  '(blend_m2, pos) <- read_f content endianness pos ;;
  '(blend_duration, pos) <- read_f content endianness pos ;;
  '(blend_speed, pos) <- read_f content endianness pos ;;
  '(rot_accum, pos) <- read_B content endianness pos ;;
  '(end_action, pos) <- read_B content endianness pos ;;
  let end_position := pos in
  let pos := bone_position in
  '(bones, pos) <-
    read_bones content endianness game_type static_data stream_data fps
      (Z.to_nat bone_count) pos ;;
  let pos := end_position in
  pos <-
    (match game_type with
     | THESIMS2 | THESIMS2PETS | THESIMS2CASTAWAY =>
         '(sound_count, pos) <- read_I content endianness pos ;;
         read_sounds content (Z.to_nat sound_count) pos
     | _ => Ok pos
     end) ;;
  let pos :=
    match game_type with
    | THESIMS3 => snd (file_read content pos 4)
    | _ => pos
    end in
  let '(bytes, pos) := file_read content pos 4 in
  if negb (length bytes =? 4)%nat then Raise FileReadError
  else
    let frame_count :=
      if (fps =? 60)%float then frame_count else frame_count * 2 in
    Ok (make_Animation name frame_count bones intensity flags blend_type
          blend_m1 blend_m2 blend_duration blend_speed rot_accum end_action,
        pos).

(** ** read_file *)

(** [except (OSError, IndexError, ValueError, ZeroDivisionError,
    struct.error)] *)
Definition caught (e : exn) : bool :=
  match e with
  | OSError | IndexError | ValueError | ZeroDivisionError | struct_error => true
  | TypeError | FileReadError => false
  end.

(** [file] is what [file_path.open(mode='rb')] yields: the contents of
    the file, or nothing when it cannot be opened ([OSError]). *)
Definition read_file (file : option (list Byte.byte))
    (game_type : GameType)
    (endianness : Endianness) : res Animation :=
  let body :=
    match file with
    | None => Raise OSError
    | Some content =>
        '(animation, pos) <- read_animation content 0 endianness game_type ;;
        if negb (length (fst (file_read content pos 1)) =? 0)%nat
        then Raise FileReadError
        else Ok animation
    end in
  match body with
  | Ok animation => Ok animation
  | Raise e => if caught e then Raise FileReadError else Raise e
  end.

End Reader.

(** ** A concrete instance and concrete inputs *)

(** One implementation of the external functions, to run the reader on
    concrete files: polynomial approximations of sine and cosine, a
    string reader that takes the bytes up to the first zero byte,
    consumes that byte, and raises [ValueError] when the file ends
    before it, and a [BitArray] that takes empty fields. *)
Definition sin_poly (x : float) : float :=
  (x - x * x * x / 6 + x * x * x * x * x / 120)%float.

Definition cos_poly (x : float) : float :=
  (1 - x * x / 2 + x * x * x * x / 24)%float.

Fixpoint until_zero (bytes : list Byte.byte) : option (list Byte.byte) :=
  match bytes with
  | [] => None
  | b :: bytes' =>
      if byte_value b =? 0 then Some []
      else option_map (cons b) (until_zero bytes')
  end.

Definition string_of_bytes (bytes : list Byte.byte) : String.string :=
  fold_right (fun b s => String.String (Ascii.ascii_of_byte b) s)
    String.EmptyString bytes.

Definition read_until_zero (content : list Byte.byte) (pos : Z)
  : res (String.string * Z) :=
  match until_zero (skipn (Z.to_nat pos) content) with
  | Some bytes => Ok (string_of_bytes bytes, pos + Z.of_nat (length bytes) + 1)
  | None => Raise ValueError
  end.

Definition concrete_externals : Externals := {|
  sin := sin_poly;
  cos := cos_poly;
  read_null_terminated_string := read_until_zero;
  bit_array_empty_fields := true
|}.

(** The byte of value [z mod 256]. *)
Definition byte_of_Z (z : Z) : Byte.byte :=
  match Byte.of_N (Z.to_N (z mod 256)) with
  | Some b => b
  | None => Byte.x00
  end.

(** The four bytes of a 32-bit word, least significant first. *)
Definition le32 (v : Z) : list Byte.byte :=
  map byte_of_Z [v; v / 256; v / 65536; v / 16777216].

(** The stream of the end-to-end scenario: [keyframe_count = 2],
    [delta_time] width 4, bias width 0, quaternion width 10, two
    keyframes with deltas 0 and 3 (older layout). *)
Definition scenario_stream : BitArray.t :=
  pack [(2, 20); (4, 5); (0, 5); (10, 5);
        (0, 4); (0, 10); (0, 10); (0, 10); (0, 1);
        (3, 4); (0, 10); (0, 10); (0, 10); (0, 1)].

(** Newer layout, one keyframe, quaternion width 2 (scale 1.0): after
    the reserved bit the stored components are 1, 0, 0; negate bit 0. *)
Definition newer_stream : BitArray.t :=
  pack [(1, 20); (0, 5); (0, 5); (2, 5);
        (0, 1); (1, 2); (0, 2); (0, 2); (0, 1)].

(** Older layout, one keyframe, quaternion width 3 (scale 1/3): the
    stored components are 1/3, 2/3, 0; negate bit 1. *)
Definition older_stream : BitArray.t :=
  pack [(1, 20); (0, 5); (0, 5); (3, 5);
        (1, 3); (2, 3); (0, 3); (1, 1)].

(** Vector channel, one keyframe, bias width 2 with bias bits [11],
    components of width 3 with scale 1.0 and offsets 0, 0, 1. *)
Definition vector_stream : BitArray.t :=
  pack [(1, 20); (0, 5); (2, 5); (3, 5);
        (0x3F800000, 32); (0, 32); (0x3F800000, 32); (0, 32);
        (0x3F800000, 32); (0x3F800000, 32);
        (3, 2); (7, 3); (1, 3); (0, 3)].

(** A vector channel of raw floats, written with the width field 0
    that the 1-DOF decoder takes for a width of 32: one keyframe, delta
    width 1, bias width 0, no (scale, offset) pairs in the header, and
    the raw floats 1.0, 2.0, 3.0 behind the delta time of the
    keyframe. *)
Definition raw_vector_stream : BitArray.t :=
  pack [(1, 20); (1, 5); (0, 5); (0, 5);
        (0, 1); (0x3F800000, 32); (0x40000000, 32); (0x40400000, 32)].

(** 1-DOF channel, two keyframes with deltas 1 and 2, bias width 0,
    raw float angles 0.0; the axis is (0, 0, 1). *)
Definition one_dof_stream : BitArray.t :=
  pack [(0, 32); (0, 32); (0x3F800000, 32);
        (2, 20); (3, 5); (0, 5); (0, 5);
        (1, 3); (0, 32); (2, 3); (0, 32)].

(** A THESIMS3 rotation channel at index -32: bit 32 is the 1-DOF flag
    (clear) and the full-quaternion stream starts at bit 33. *)
Definition flagged_stream : BitArray.t :=
  pack [(0, 32); (0, 1); (1, 20); (0, 5); (0, 5); (2, 5);
        (0, 1); (0, 2); (1, 2); (0, 2); (0, 1)].

(** A little-endian THESIMS3 bone record: rotation index -32, scale
    and location index 0, and the 20 bytes of padding. *)
Definition flagged_bone : list Byte.byte :=
  le32 (2 ^ 32 - 32) ++ le32 0 ++ le32 0 ++ repeat Byte.x00 20.

(** A little-endian THESIMS file with one bone: the rotation channel is
    the scenario stream at bit 32, the scale channel is the default and
    the location channel is the constant at static offset 1. *)
Definition sims_file : list Byte.byte :=
  map byte_of_Z [97; 110; 105; 109; 0]         (* name *)
  ++ le32 10                                   (* frame count *)
  ++ repeat Byte.x00 12 ++ repeat Byte.x00 12
  ++ le32 1                                    (* bone count *)
  ++ le32 (2 ^ 32 - 32) ++ le32 0 ++ le32 1    (* the bone's indices *)
  ++ repeat Byte.x00 4
  ++ le32 4                                    (* static floats *)
  ++ le32 0 ++ le32 0x3F800000 ++ le32 0x40000000 ++ le32 0x40400000
  ++ le32 137                                  (* stream bits *)
  ++ le32 0 ++ flat_map le32 (BitArray.data scenario_stream)
  ++ le32 0x42700000                           (* fps 60.0 *)
  ++ le32 0x3F800000 ++ le32 0 ++ [Byte.x00]
  ++ le32 0 ++ le32 0 ++ le32 0 ++ le32 0 ++ [Byte.x00; Byte.x00]
  ++ repeat Byte.x00 4.                        (* trailing block *)

(** ** The formulas of the specification *)

(** Python's [max(0, t)]: [t] when [t > 0], and 0 otherwise. *)
Definition py_max0 (t : float) : float :=
  if (0 <? t)%float then t else 0%float.

(** The quaternion the specification describes for one keyframe of the
    full decoder, from the three stored components [s0 s1 s2] and the
    negate bit: component 0 is [sqrt(max(0, 1 - (s0^2 + s1^2 + s2^2)))],
    negated when the bit is set, and the order is
    (implicit, s0, s1, s2). *)
Definition claimed_quaternion (s0 s1 s2 : float) (negate : bool)
  : list float :=
  let r := PrimFloat.sqrt (py_max0 (1 - (s0 * s0 + s1 * s1 + s2 * s2)))%float in
  [if negate then (- r)%float else r; s0; s1; s2].

(** The implicit component as the decoder computes it from
    [t = 1 - sum of squares]: [sqrt(max(0, t))], negated when the negate
    bit is set and [t > 0]. *)
Definition implicit_component (t : float) (negate : bool) : float :=
  let r := PrimFloat.sqrt (py_max0 t) in
  if negate && (0 <? t)%float then (- r)%float else r.

(** The quaternion of the older layout: the implicit component is
    component 1 and the last stored component comes first. *)
Definition older_quaternion (s0 s1 s2 : float) (negate : bool) : list float :=
  [s2; implicit_component (1 - (s0 * s0 + s1 * s1 + s2 * s2))%float negate;
   s0; s1].

(** The delta-time fields of [count] keyframes that lie [stride] bits
    apart, the first at [index]. *)
Fixpoint delta_times (stream_data : BitArray.t) (width stride : Z)
    (count : nat) (index : Z) : res (list Z) :=
  match count with
  | O => Ok []
  | S count' =>
      d <- BitArray.get_bits_unsigned stream_data index width ;;
      ds <- delta_times stream_data width stride count' (index + stride) ;;
      Ok (d :: ds)
  end.

(** The running sum of [delta_time + 1] over keyframes [0..k]. *)
Definition running_sum (deltas : list Z) (k : nat) : Z :=
  fold_right Z.add 0 (map (fun d => d + 1) (firstn (S k) deltas)).

(** ** The common shape of the three keyframe loops *)

Section KeyframeLoop.

Context {V K : Type}.
Variable body : Z -> res (Z * float * V * Z).
Variable mk : Z -> float -> V -> K.
Variable multiplier : Z.

Fixpoint keyframe_loop (count : nat) (index frame_count : Z) : res (list K) :=
  match count with
  | O => Ok []
  | S count' =>
      '(delta_time, bias, v, index) <- body index ;;
      let frame_count := frame_count + (delta_time + 1) in
      keyframes <- keyframe_loop count' index frame_count ;;
      Ok (mk (frame_count * multiplier - 1) bias v :: keyframes)
  end.

End KeyframeLoop.

(** ** Statements about the decoder and the reader *)

(** Bits per keyframe of the full-quaternion stream. *)
Definition quaternion_stride (game_type : GameType)
    (delta_time_bit_count bias_bit_count quaternion_bit_count : Z) : Z :=
  delta_time_bit_count + bias_bit_count
  + (if in_pets_castaway_sims3 game_type then 1 else 0)
  + 3 * quaternion_bit_count + 1.

(** [QuaternionKeyframe(frame, bias, mathutils.Quaternion(quat).normalized())] *)
Definition quaternion_of (frame : Z) (bias : float) (quat : list float)
  : QuaternionKeyframe.t :=
  QuaternionKeyframe.make frame bias (normalized (mathutils_Quaternion quat)).

(** Bits per keyframe of the vector stream. *)
Definition vector_stride (game_type : GameType)
    (delta_time_bit_count bias_bit_count vector_bit_count : Z) : Z :=
  delta_time_bit_count + bias_bit_count
  + (if in_pets_castaway_sims3 game_type then 1 else 0)
  + 3 * vector_bit_count.

(** [VectorKeyframe(frame, bias, mathutils.Vector(vector))] *)
Definition vector_of (frame : Z) (bias : float) (vector : list float)
  : VectorKeyframe.t :=
  VectorKeyframe.make frame bias (mathutils_Vector vector).

(** What the older layout yields at keyframe [k] of a decoded channel,
    for a given order of the implicit and the stored components: the
    stored components are the three signed fields behind the delta time
    and the bias, with no reserved bit, and the negate bit follows. *)
Definition older_layout_keyframe
    (order : float -> float -> float -> bool -> list float)
    (s : BitArray.t) (index dt bb q : Z) (qs : float) (k : nat)
    (keyframe : QuaternionKeyframe.t) : Prop :=
  let c := - index + 35 + Z.of_nat k * (dt + bb + 3 * q + 1) + dt + bb in
  exists v0 v1 v2 negate,
    BitArray.get_bits_signed s c q = Ok v0
    /\ BitArray.get_bits_signed s (c + q) q = Ok v1
    /\ BitArray.get_bits_signed s (c + 2 * q) q = Ok v2
    /\ BitArray.get_bit s (c + 3 * q) = Ok negate
    /\ QuaternionKeyframe.rotation keyframe
       = normalized
           (mathutils_Quaternion
              (order (qs * float_of_Z v0)%float (qs * float_of_Z v1)%float
                 (qs * float_of_Z v2)%float negate)).

(** The frame numbers of a decoded channel: keyframe [k] has the
    running sum of [delta_time + 1] over keyframes [0..k], times the
    multiplier, minus 1, where the delta times are the fields that lie
    [stride] bits apart from [base] on. *)
Definition frames_follow_deltas (s : BitArray.t) (frames : list Z)
    (fps : float) (count width stride base : Z) : Prop :=
  exists deltas,
    delta_times s width stride (Z.to_nat count) base = Ok deltas
    /\ length frames = Z.to_nat count
    /\ forall k frame,
         nth_error frames k = Some frame ->
         frame = running_sum deltas k * frame_count_multiplier fps - 1.

(** Keyframe [k] of a 1-DOF channel whose bias field starts at bit
    [c]: the bias is what the guarded read of the full decoder yields
    there, the angle field starts [bb] bits further, and the rotation is
    the normalized half-angle quaternion about the axis. *)
Definition one_dof_keyframe_at {ext : Externals} (s : BitArray.t)
    (x y z : float) (bb : Z) (bs : float) (eb : Z) (es eo : float) (c : Z)
    (keyframe : QuaternionKeyframe.t) : Prop :=
  read_bias_signed_guarded s bs bb c = Ok (QuaternionKeyframe.bias keyframe)
  /\ (bb = 0 -> QuaternionKeyframe.bias keyframe = 0%float)
  /\ exists element sn w,
       (if eb =? 32 then BitArray.get_float s (c + bb) = Ok element
        else exists u,
            BitArray.get_bits_unsigned s (c + bb) eb = Ok u
            /\ element = (eo + (es * float_of_Z u))%float)
       /\ math_sin (0.5 * element)%float = Ok sn
       /\ math_cos (0.5 * element)%float = Ok w
       /\ QuaternionKeyframe.rotation keyframe
          = normalized (mathutils_Quaternion [w; x * sn; y * sn; z * sn]%float).

(** Keyframe [k] of a vector channel whose component fields start at
    bit [c]: each component is the unsigned field of its axis, times the
    scale of the axis, plus the offset of the axis. *)
Definition vector_keyframe_at (s : BitArray.t) (vb : Z) (vs : float)
    (f0 g0 f1 g1 f2 g2 : float) (c : Z) (keyframe : VectorKeyframe.t)
  : Prop :=
  exists u0 u1 u2,
    BitArray.get_bits_unsigned s c vb = Ok u0
    /\ BitArray.get_bits_unsigned s (c + vb) vb = Ok u1
    /\ BitArray.get_bits_unsigned s (c + 2 * vb) vb = Ok u2
    /\ VectorKeyframe.vector keyframe
       = mathutils_Vector
           [float_of_Z u0 * (vs * f0) + g0;
            float_of_Z u1 * (vs * f1) + g1;
            float_of_Z u2 * (vs * f2) + g2]%float.

(** What [read_bone] makes of a rotation index. *)
Definition rotation_resolved {ext : Externals} (game_type : GameType)
    (static_data : list float) (stream_data : BitArray.t) (fps : float)
    (rotation_index : Z) (keyframes : list QuaternionKeyframe.t) : Prop :=
  (rotation_index = 0 ->
   keyframes
   = [QuaternionKeyframe.make 0 1 (mathutils_Quaternion [1; 0; 0; 0]%float)])
  /\ (0 < rotation_index ->
      exists w x y z,
        nth_error static_data (Z.to_nat (rotation_index + 3)) = Some w
        /\ nth_error static_data (Z.to_nat rotation_index) = Some x
        /\ nth_error static_data (Z.to_nat (rotation_index + 1)) = Some y
        /\ nth_error static_data (Z.to_nat (rotation_index + 2)) = Some z
        /\ keyframes
           = [QuaternionKeyframe.make 0 1 (mathutils_Quaternion [w; x; y; z])])
  /\ (rotation_index < 0 ->
      if in_pets_castaway_sims3 game_type then
        exists is_1_dof,
          BitArray.get_bit stream_data (- rotation_index) = Ok is_1_dof
          /\ (if is_1_dof : bool then
                decompress_quaternion_1_dof_keyframes stream_data
                  (rotation_index - 1) fps
              else
                decompress_quaternion_keyframes stream_data
                  (rotation_index - 1) fps game_type)
             = Ok keyframes
      else
        decompress_quaternion_keyframes stream_data rotation_index fps
          game_type
        = Ok keyframes).

(** What [read_bone] makes of a scale or location index. *)
Definition vector_resolved (default : list float) (game_type : GameType)
    (static_data : list float) (stream_data : BitArray.t) (fps : float)
    (index : Z) (keyframes : list VectorKeyframe.t) : Prop :=
  (index = 0 ->
   keyframes = [VectorKeyframe.make 0 1 (mathutils_Vector default)])
  /\ (0 < index ->
      keyframes
      = [VectorKeyframe.make 0 1
           (mathutils_Vector (firstn 3 (skipn (Z.to_nat index) static_data)))])
  /\ (index < 0 ->
      decompress_vector_keyframes stream_data index fps game_type
      = Ok keyframes).

(** The exceptions that do not escape [read_file] as they are: those of
    its [except] clause, which become [FileReadError], and
    [FileReadError] itself. *)
Definition foreseen (e : exn) : Prop := caught e = true \/ e = FileReadError.

(** The external string reader raises nothing but what [read_file]
    catches or [FileReadError]. *)
Definition reader_raises_foreseen (ext : Externals) : Prop :=
  forall content pos e,
    read_null_terminated_string content pos = Raise e -> foreseen e.

(** The external string reader moves forward, and its result does not
    depend on the bytes behind the position it stops at. *)
Definition reader_is_local (ext : Externals) : Prop :=
  forall content pos s pos',
    read_null_terminated_string content pos = Ok (s, pos') ->
    0 <= pos ->
    pos <= pos'
    /\ forall L : nat,
         (L <= length content)%nat -> pos' <= Z.of_nat L ->
         read_null_terminated_string (firstn L content) pos = Ok (s, pos').

(** ** Further statements *)

(** The result of a decoder with a function applied to what it
    returns; an exception stays as it is. *)
Definition res_map {A B : Type} (f : A -> B) (r : res A) : res B :=
  match r with
  | Ok a => Ok (f a)
  | Raise e => Raise e
  end.

(** A keyframe moved from frame [f] to frame [2 * f + 1]. *)
Definition double_quaternion_frame (keyframe : QuaternionKeyframe.t)
  : QuaternionKeyframe.t :=
  QuaternionKeyframe.make (2 * QuaternionKeyframe.frame keyframe + 1)
    (QuaternionKeyframe.bias keyframe) (QuaternionKeyframe.rotation keyframe).

Definition double_vector_frame (keyframe : VectorKeyframe.t)
  : VectorKeyframe.t :=
  VectorKeyframe.make (2 * VectorKeyframe.frame keyframe + 1)
    (VectorKeyframe.bias keyframe) (VectorKeyframe.vector keyframe).

(** The quaternion of the newer layout as the decoder builds it: the
    stored components follow the implicit one, which is computed from
    positions 1, 2 and 3 of the work list, that is from the last two
    stored components and the 0.0 the list starts with. *)
Definition newer_quaternion (s0 s1 s2 : float) (negate : bool) : list float :=
  [implicit_component (1 - (s1 * s1 + s2 * s2 + 0 * 0))%float negate;
   s0; s1; s2].

(** What the newer layout yields at keyframe [k] of a decoded channel:
    one reserved bit lies between the bias and the three signed
    component fields, and the negate bit follows them. *)
Definition newer_layout_keyframe (s : BitArray.t) (index dt bb q : Z)
    (qs : float) (k : nat) (keyframe : QuaternionKeyframe.t) : Prop :=
  let c := - index + 35 + Z.of_nat k * (dt + bb + 1 + 3 * q + 1) + dt + bb + 1 in
  exists v0 v1 v2 negate,
    BitArray.get_bits_signed s c q = Ok v0
    /\ BitArray.get_bits_signed s (c + q) q = Ok v1
    /\ BitArray.get_bits_signed s (c + 2 * q) q = Ok v2
    /\ BitArray.get_bit s (c + 3 * q) = Ok negate
    /\ QuaternionKeyframe.rotation keyframe
       = normalized
           (mathutils_Quaternion
              (newer_quaternion (qs * float_of_Z v0)%float
                 (qs * float_of_Z v1)%float (qs * float_of_Z v2)%float
                 negate)).

(** The external string reader consumes at least one byte, stays
    within the file, and reads the same when bytes are appended to the
    file. *)
Definition reader_extends (ext : Externals) : Prop :=
  forall content pos s pos',
    read_null_terminated_string content pos = Ok (s, pos') ->
    0 <= pos ->
    pos < pos' <= Z.of_nat (length content)
    /\ forall more,
         read_null_terminated_string (content ++ more) pos = Ok (s, pos').

(** The frame numbers a channel may hold: they strictly increase and
    none lies below 0. *)
Definition frames_well_formed (frames : list Z) : Prop :=
  StronglySorted Z.lt frames /\ Forall (fun frame => 0 <= frame) frames.

Definition bone_well_formed (bone : Bone) : Prop :=
  frames_well_formed (map QuaternionKeyframe.frame (rotation_keyframes bone))
  /\ frames_well_formed (map VectorKeyframe.frame (scale_keyframes bone))
  /\ frames_well_formed (map VectorKeyframe.frame (location_keyframes bone)).






(** The rotation of a 1-DOF keyframe with angle [element] about the
    axis [(x, y, z)]: the normalized quaternion of the half angle. *)
Definition half_angle_rotation {ext : Externals} (x y z element : float)
    (keyframe : QuaternionKeyframe.t) : Prop :=
  exists sn w,
    math_sin (0.5 * element)%float = Ok sn
    /\ math_cos (0.5 * element)%float = Ok w
    /\ QuaternionKeyframe.rotation keyframe
       = normalized (mathutils_Quaternion [w; x * sn; y * sn; z * sn]%float).

(** * Properties *)

(** ** Proof steps for the error monad *)

Ltac inv_bind H :=
  lazymatch type of H with
  | bind ?c _ = Ok _ =>
      let a := fresh "a" in
      let E := fresh "E" in
      destruct c as [a | ?] eqn:E; [cbn [bind] in H | discriminate H]
  end.

Ltac inv_binds H :=
  repeat (first
    [ inv_bind H
    | match type of H with
      | context [let '(_, _) := ?p in _] => destruct p
      end ]; cbn beta iota zeta in H).

(** ** bit_array.BitArray *)

Lemma field_value_bound (s : BitArray.t) (w : nat) :
  forall i acc, 0 <= acc ->
    acc * 2 ^ Z.of_nat w <= BitArray.field_value s i w acc
    < (acc + 1) * 2 ^ Z.of_nat w.
Proof.
  induction w as [| w IH]; intros i acc Hacc.
  - simpl. lia.
  - cbn [BitArray.field_value].
    assert (Hb : 0 <= Z.b2z (BitArray.bit_at s i) <= 1)
      by (destruct (BitArray.bit_at s i); simpl; lia).
    specialize (IH (i + 1) (2 * acc + Z.b2z (BitArray.bit_at s i))).
    rewrite Nat2Z.inj_succ, Z.pow_succ_r by lia.
    assert (0 < 2 ^ Z.of_nat w) by (apply Z.pow_pos_nonneg; lia).
    nia.
Qed.

Lemma in_range_true (s : BitArray.t) (i w : Z) :
  BitArray.in_range s i w = true ->
  0 <= i /\ 0 <= w /\ i + w <= BitArray.bit_count s.
Proof.
  unfold BitArray.in_range. intros H.
  apply andb_prop in H. destruct H as [H Hw].
  apply andb_prop in H. destruct H as [Hi Hb].
  apply Z.leb_le in Hi, Hb.
  apply orb_prop in Hw. destruct Hw as [Hw | Hw];
    apply andb_prop in Hw; destruct Hw as [Hw _].
  - apply Z.leb_le in Hw. lia.
  - apply Z.eqb_eq in Hw. lia.
Qed.

Lemma get_bits_unsigned_range (s : BitArray.t) (i w v : Z) :
  BitArray.get_bits_unsigned s i w = Ok v -> 0 <= w /\ 0 <= v < 2 ^ w.
Proof.
  unfold BitArray.get_bits_unsigned.
  destruct (BitArray.in_range s i w) eqn:Hr; [| discriminate].
  apply in_range_true in Hr. destruct Hr as (_ & Hw & _).
  intros H. injection H as <-.
  pose proof (field_value_bound s (Z.to_nat w) i 0 (Z.le_refl 0)) as B.
  rewrite Z2Nat.id in B by lia. lia.
Qed.

Lemma get_bits_unsigned_nonneg (s : BitArray.t) (i w v : Z) :
  BitArray.get_bits_unsigned s i w = Ok v -> 0 <= v.
Proof. intros H. apply get_bits_unsigned_range in H. lia. Qed.

Lemma get_bits_signed_width_0 (s : BitArray.t) (i v : Z) :
  BitArray.get_bits_signed s i 0 = Ok v -> v = 0.
Proof.
  unfold BitArray.get_bits_signed. intros H. inv_bind H.
  apply get_bits_unsigned_range in E. cbn in H. injection H as <-.
  change (2 ^ 0) with 1 in E. lia.
Qed.

(** ** Running sums and frame numbers *)

Lemma running_sum_cons (d : Z) (deltas : list Z) (k : nat) :
  running_sum (d :: deltas) (S k) = (d + 1) + running_sum deltas k.
Proof. reflexivity. Qed.

Lemma running_sum_0 (d : Z) (deltas : list Z) :
  running_sum (d :: deltas) 0 = d + 1.
Proof. unfold running_sum. simpl. lia. Qed.

Lemma running_sum_pos (deltas : list Z) (k : nat) :
  Forall (fun d => 0 <= d) deltas -> (k < length deltas)%nat ->
  0 < running_sum deltas k.
Proof.
  intros HF. revert k.
  induction HF as [| d deltas Hd HF IH]; intros k Hk; simpl in Hk; [lia |].
  destruct k as [| k].
  - rewrite running_sum_0. lia.
  - rewrite running_sum_cons.
    destruct deltas as [| d' deltas']; simpl in Hk; [lia |].
    specialize (IH k ltac:(simpl; lia)). lia.
Qed.

Lemma running_sum_step (deltas : list Z) (k : nat) :
  Forall (fun d => 0 <= d) deltas -> (S k < length deltas)%nat ->
  running_sum deltas k < running_sum deltas (S k).
Proof.
  intros HF. revert k.
  induction HF as [| d deltas Hd HF IH]; intros k Hk; simpl in Hk; [lia |].
  destruct k as [| k].
  - rewrite running_sum_0, running_sum_cons.
    pose proof (running_sum_pos deltas 0 HF ltac:(lia)). lia.
  - rewrite !running_sum_cons. specialize (IH k ltac:(lia)). lia.
Qed.

Lemma running_sum_lt (deltas : list Z) (j k : nat) :
  Forall (fun d => 0 <= d) deltas -> (j < k)%nat -> (k < length deltas)%nat ->
  running_sum deltas j < running_sum deltas k.
Proof.
  intros HF Hjk Hk. induction k as [| k IH]; [lia |].
  destruct (Nat.eq_dec j k) as [-> | Hne].
  - now apply running_sum_step.
  - pose proof (running_sum_step deltas k HF Hk).
    specialize (IH ltac:(lia) ltac:(lia)). lia.
Qed.

Lemma delta_times_nonneg (s : BitArray.t) (width stride : Z) (count : nat) :
  forall index deltas,
    delta_times s width stride count index = Ok deltas ->
    Forall (fun d => 0 <= d) deltas /\ length deltas = count.
Proof.
  induction count as [| count IH]; intros index deltas H; cbn in H.
  - injection H as <-. split; [constructor | reflexivity].
  - inv_binds H. injection H as <-.
    apply IH in E0. destruct E0 as [HF Hl].
    apply get_bits_unsigned_nonneg in E.
    split; [constructor; assumption | simpl; congruence].
Qed.

(** ** The keyframe loop *)

Section KeyframeLoopFacts.

Context {V K : Type}.
Variable body : Z -> res (Z * float * V * Z).
Variable mk : Z -> float -> V -> K.
Variable frame_of : K -> Z.
Variable multiplier : Z.
Variable stream_data : BitArray.t.
Variables width stride : Z.

Hypothesis frame_of_mk : forall f b v, frame_of (mk f b v) = f.

Hypothesis body_delta :
  forall index delta_time bias v index',
    body index = Ok (delta_time, bias, v, index') ->
    BitArray.get_bits_unsigned stream_data index width = Ok delta_time
    /\ index' = index + stride.

(** The frame numbers of a decoded sequence are the running sums of the
    delta-time fields, which lie [stride] bits apart. *)
Lemma keyframe_loop_frames (count : nat) :
  forall index frame_count keyframes,
    keyframe_loop body mk multiplier count index frame_count = Ok keyframes ->
    exists deltas,
      delta_times stream_data width stride count index = Ok deltas
      /\ length keyframes = count
      /\ forall k keyframe,
           nth_error keyframes k = Some keyframe ->
           frame_of keyframe
           = (frame_count + running_sum deltas k) * multiplier - 1.
Proof.
  induction count as [| count IH]; intros index frame_count keyframes H;
    cbn [keyframe_loop] in H.
  - injection H as <-. exists []. repeat split.
    intros [| k] keyframe Hk; discriminate Hk.
  - inv_bind H. destruct a as [[[delta_time bias] v] index'].
    cbn beta iota zeta in H. inv_bind H. injection H as <-.
    apply body_delta in E. destruct E as [Hd ->].
    apply IH in E0. destruct E0 as (deltas & Hds & Hlen & Hnth).
    exists (delta_time :: deltas). cbn [delta_times].
    rewrite Hd. cbn [bind]. rewrite Hds. cbn [bind].
    repeat split; [simpl; congruence |].
    intros [| k] keyframe Hk; cbn [nth_error] in Hk.
    + injection Hk as <-. rewrite frame_of_mk, running_sum_0. lia.
    + apply Hnth in Hk. rewrite Hk, running_sum_cons. lia.
Qed.

(** Keyframe [k] of a decoded sequence is built from the body run
    [k] strides after the first. *)
Lemma keyframe_loop_nth (count : nat) :
  forall index frame_count keyframes k keyframe,
    keyframe_loop body mk multiplier count index frame_count = Ok keyframes ->
    nth_error keyframes k = Some keyframe ->
    exists delta_time bias v frame,
      body (index + Z.of_nat k * stride)
      = Ok (delta_time, bias, v, index + (Z.of_nat k + 1) * stride)
      /\ keyframe = mk frame bias v.
Proof.
  induction count as [| count IH]; intros index frame_count keyframes k keyframe H Hk;
    cbn [keyframe_loop] in H.
  - injection H as <-. destruct k; discriminate Hk.
  - inv_bind H. destruct a as [[[delta_time bias] v] index'].
    cbn beta iota zeta in H. inv_bind H. injection H as <-.
    pose proof (body_delta _ _ _ _ _ E) as [_ ->].
    destruct k as [| k]; cbn [nth_error] in Hk.
    + injection Hk as <-. exists delta_time, bias, v.
      eexists. split; [| reflexivity].
      replace (index + Z.of_nat 0 * stride) with index by (simpl; lia).
      rewrite E. repeat f_equal; lia.
    + destruct (IH _ _ _ _ _ E0 Hk) as (d & b & v' & f & Hb & ->).
      exists d, b, v', f. split; [| reflexivity].
      rewrite Nat2Z.inj_succ.
      replace (index + Z.succ (Z.of_nat k) * stride)
        with (index + stride + Z.of_nat k * stride) by lia.
      replace (index + (Z.succ (Z.of_nat k) + 1) * stride)
        with (index + stride + (Z.of_nat k + 1) * stride) by lia.
      exact Hb.
Qed.

(** The frame numbers of a decoded sequence strictly increase. *)
Lemma keyframe_loop_sorted (count : nat) (index frame_count : Z)
    (keyframes : list K) :
  0 < multiplier ->
  keyframe_loop body mk multiplier count index frame_count = Ok keyframes ->
  StronglySorted Z.lt (map frame_of keyframes).
Proof.
  intros Hm H.
  destruct (keyframe_loop_frames _ _ _ _ H) as (deltas & Hds & Hlen & Hnth).
  apply delta_times_nonneg in Hds. destruct Hds as [HF Hl].
  assert (Hall : forall j k fj fk,
             (j < k)%nat ->
             nth_error (map frame_of keyframes) j = Some fj ->
             nth_error (map frame_of keyframes) k = Some fk -> fj < fk).
  { intros j k fj fk Hjk Hj Hk.
    rewrite nth_error_map in Hj, Hk.
    destruct (nth_error keyframes j) as [kj |] eqn:Ej; [| discriminate].
    destruct (nth_error keyframes k) as [kk |] eqn:Ek; [| discriminate].
    injection Hj as <-. injection Hk as <-.
    assert (k < length keyframes)%nat
      by (apply nth_error_Some; congruence).
    rewrite (Hnth _ _ Ej), (Hnth _ _ Ek).
    pose proof (running_sum_lt deltas j k HF Hjk ltac:(lia)). nia. }
  clear - Hall. induction (map frame_of keyframes) as [| f fs IH].
  - constructor.
  - constructor.
    + apply IH. intros j k fj fk Hjk Hj Hk.
      apply (Hall (S j) (S k)); [lia | exact Hj | exact Hk].
    + apply Forall_forall. intros x Hx.
      apply In_nth_error in Hx. destruct Hx as [n Hn].
      apply (Hall 0%nat (S n)); [lia | reflexivity | exact Hn].
Qed.

End KeyframeLoopFacts.

(** ** The full-quaternion decoder *)

Lemma quaternion_keyframes_loop (s : BitArray.t) (gt : GameType)
    (dt bb : Z) (bs : float) (q : Z) (qs : float) (m : Z) (count : nat) :
  forall index frame_count,
    quaternion_keyframes s gt dt bb bs q qs m count index frame_count
    = keyframe_loop (quaternion_keyframe s gt dt bb bs q qs) quaternion_of m
        count index frame_count.
Proof.
  induction count as [| count IH]; intros index frame_count; [reflexivity |].
  cbn [quaternion_keyframes keyframe_loop].
  destruct (quaternion_keyframe s gt dt bb bs q qs index)
    as [[[[delta_time bias] quat] index'] | e]; [| reflexivity].
  cbn [bind]. cbn beta iota zeta. rewrite IH. reflexivity.
Qed.

Lemma read_quat_components_3 (s : BitArray.t) (qs : float) (q : Z)
    (i0 i1 i2 : nat) (quat quat' : list float) (index index' : Z) :
  read_quat_components s qs q [i0; i1; i2] quat index = Ok (quat', index') ->
  exists v0 v1 v2,
    BitArray.get_bits_signed s index q = Ok v0
    /\ BitArray.get_bits_signed s (index + q) q = Ok v1
    /\ BitArray.get_bits_signed s (index + 2 * q) q = Ok v2
    /\ quat' = set_item (set_item (set_item quat i0 (qs * float_of_Z v0)%float)
                           i1 (qs * float_of_Z v1)%float)
                 i2 (qs * float_of_Z v2)%float
    /\ index' = index + 3 * q.
Proof.
  cbn [read_quat_components]. intros H. inv_binds H.
  injection H as <- <-.
  replace (index + 2 * q) with (index + q + q) by lia.
  exists a, a0, a1. repeat split; try assumption. lia.
Qed.

Lemma quaternion_keyframe_delta (s : BitArray.t) (gt : GameType)
    (dt bb : Z) (bs : float) (q : Z) (qs : float)
    (index delta_time : Z) (bias : float) (quat : list float) (index' : Z) :
  quaternion_keyframe s gt dt bb bs q qs index
  = Ok (delta_time, bias, quat, index') ->
  BitArray.get_bits_unsigned s index dt = Ok delta_time
  /\ index' = index + quaternion_stride gt dt bb q.
Proof.
  unfold quaternion_keyframe, quaternion_stride. intros H.
  inv_bind H. inv_bind H.
  destruct (in_pets_castaway_sims3 gt); cbn beta iota zeta in H;
    inv_bind H; destruct a1 as [quat' index1]; cbn beta iota zeta in H;
    inv_bind H; injection H as <- <- <- <-;
    apply read_quat_components_3 in E1;
    destruct E1 as (v0 & v1 & v2 & _ & _ & _ & _ & ->);
    (split; [reflexivity | lia]).
Qed.

Lemma root_or_zero_0 (t a b c : float) (negate : bool) :
  root_or_zero [t; a; b; c] 0 negate = [implicit_component t negate; a; b; c].
Proof.
  unfold root_or_zero, implicit_component, py_max0, item. cbn [nth set_item].
  destruct (0 <? t)%float; destruct negate; reflexivity.
Qed.

(** The older layout, keyframe by keyframe: the three stored components
    go to positions 1..3 of the work list, the implicit component to
    position 0, and the list handed over is (quat[3], quat[0], quat[1],
    quat[2]). *)
Lemma quaternion_keyframe_older (s : BitArray.t) (gt : GameType)
    (dt bb : Z) (bs : float) (q : Z) (qs : float)
    (index delta_time : Z) (bias : float) (quat : list float) (index' : Z) :
  in_pets_castaway_sims3 gt = false ->
  quaternion_keyframe s gt dt bb bs q qs index
  = Ok (delta_time, bias, quat, index') ->
  exists v0 v1 v2 negate,
    BitArray.get_bits_signed s (index + dt + bb) q = Ok v0
    /\ BitArray.get_bits_signed s (index + dt + bb + q) q = Ok v1
    /\ BitArray.get_bits_signed s (index + dt + bb + 2 * q) q = Ok v2
    /\ BitArray.get_bit s (index + dt + bb + 3 * q) = Ok negate
    /\ quat = older_quaternion (qs * float_of_Z v0) (qs * float_of_Z v1)
                (qs * float_of_Z v2) negate.
Proof.
  unfold quaternion_keyframe. intros Hgt H. rewrite Hgt in H.
  inv_bind H. inv_bind H. cbn beta iota zeta in H.
  inv_bind H. destruct a1 as [quat' index1]. cbn beta iota zeta in H.
  inv_bind H. injection H as <- <- <- <-.
  apply read_quat_components_3 in E1.
  destruct E1 as (v0 & v1 & v2 & H0 & H1 & H2 & -> & ->).
  exists v0, v1, v2, a1. repeat split; try assumption.
  cbn [set_item]. unfold one_minus_squares, item. cbn [nth].
  rewrite root_or_zero_0. reflexivity.
Qed.

Lemma decompress_quaternion_keyframes_Ok (s : BitArray.t) (index : Z)
    (fps : float) (gt : GameType) (keyframes : list QuaternionKeyframe.t) :
  decompress_quaternion_keyframes s index fps gt = Ok keyframes ->
  exists count dt bb q bs qs,
    BitArray.get_bits_unsigned s (- index) 20 = Ok count
    /\ BitArray.get_bits_unsigned s (- index + 20) 5 = Ok dt
    /\ BitArray.get_bits_unsigned s (- index + 25) 5 = Ok bb
    /\ BitArray.get_bits_unsigned s (- index + 30) 5 = Ok q
    /\ bias_scale_of bb = Ok bs
    /\ BitArray.signed_bits_to_float_scaler q = Ok qs
    /\ keyframe_loop (quaternion_keyframe s gt dt bb bs q qs) quaternion_of
         (frame_count_multiplier fps) (Z.to_nat count) (- index + 35) 0
       = Ok keyframes.
Proof.
  unfold decompress_quaternion_keyframes. intros H. inv_binds H.
  rewrite quaternion_keyframes_loop in H.
  replace (- index + 20 + 5) with (- index + 25) in * by lia.
  replace (- index + 25 + 5) with (- index + 30) in * by lia.
  replace (- index + 30 + 5) with (- index + 35) in * by lia.
  exists a, a0, a1, a3, a2, a4. repeat split; assumption.
Qed.

Lemma frame_count_multiplier_pos (fps : float) : 0 < frame_count_multiplier fps.
Proof. unfold frame_count_multiplier. destruct (fps =? 60)%float; lia. Qed.

(** ** The 1-DOF decoder *)

Section OneDof.

Context {ext : Externals}.

Lemma quaternion_1_dof_keyframes_loop (s : BitArray.t) (x y z : float)
    (dt bb : Z) (bs : float) (eb : Z) (es eo : float) (m : Z) (count : nat) :
  forall index frame_count,
    quaternion_1_dof_keyframes s x y z dt bb bs eb es eo m count index
      frame_count
    = keyframe_loop (quaternion_1_dof_keyframe s x y z dt bb bs eb es eo)
        quaternion_of m count index frame_count.
Proof.
  induction count as [| count IH]; intros index frame_count; [reflexivity |].
  cbn [quaternion_1_dof_keyframes keyframe_loop].
  destruct (quaternion_1_dof_keyframe s x y z dt bb bs eb es eo index)
    as [[[[delta_time bias] quat] index'] | e]; [| reflexivity].
  cbn [bind]. cbn beta iota zeta. rewrite IH. reflexivity.
Qed.

(** One keyframe of the 1-DOF stream: the delta time is the field at
    the cursor, the bias is the scaled signed field behind it, and the
    cursor moves by the three widths. *)
Lemma quaternion_1_dof_keyframe_Ok (s : BitArray.t) (x y z : float)
    (dt bb : Z) (bs : float) (eb : Z) (es eo : float)
    (index delta_time : Z) (bias : float) (quat : list float) (index' : Z) :
  quaternion_1_dof_keyframe s x y z dt bb bs eb es eo index
  = Ok (delta_time, bias, quat, index') ->
  BitArray.get_bits_unsigned s index dt = Ok delta_time
  /\ index' = index + (dt + bb + eb)
  /\ exists v, BitArray.get_bits_signed s (index + dt) bb = Ok v
               /\ bias = (bs * float_of_Z v)%float.
Proof.
  unfold quaternion_1_dof_keyframe. intros H.
  inv_bind H. inv_bind H. cbn beta iota zeta in H.
  inv_bind H. destruct a1 as [element index1]. cbn beta iota zeta in H.
  inv_bind H. inv_bind H. injection H as <- <- <- <-.
  split; [reflexivity |]. split; [| eauto].
  destruct (eb =? 32) eqn:He.
  - apply Z.eqb_eq in He. inv_bind E1. injection E1 as _ <-. lia.
  - inv_bind E1. injection E1 as _ <-. lia.
Qed.

Lemma decompress_quaternion_1_dof_keyframes_Ok (s : BitArray.t) (index : Z)
    (fps : float) (keyframes : list QuaternionKeyframe.t) :
  decompress_quaternion_1_dof_keyframes s index fps = Ok keyframes ->
  exists x y z count dt bb e bs es eo,
    BitArray.get_bits_unsigned s (- index + 96) 20 = Ok count
    /\ BitArray.get_bits_unsigned s (- index + 116) 5 = Ok dt
    /\ BitArray.get_bits_unsigned s (- index + 121) 5 = Ok bb
    /\ BitArray.get_bits_unsigned s (- index + 126) 5 = Ok e
    /\ bias_scale_of bb = Ok bs
    /\ BitArray.get_float s (- index) = Ok x
    /\ BitArray.get_float s (- index + 32) = Ok y
    /\ BitArray.get_float s (- index + 64) = Ok z
    /\ (let eb := if e =? 0 then 32 else e in
        if eb =? 32 then es = 1%float /\ eo = 0%float
        else exists us sf,
            BitArray.unsigned_bits_to_float_scaler eb = Ok us
            /\ BitArray.get_float s (- index + 131) = Ok sf
            /\ es = (sf * us)%float
            /\ BitArray.get_float s (- index + 163) = Ok eo)
    /\ let eb := if e =? 0 then 32 else e in
       keyframe_loop (quaternion_1_dof_keyframe s x y z dt bb bs eb es eo)
         quaternion_of (frame_count_multiplier fps) (Z.to_nat count)
         (- index + 131 + (if eb =? 32 then 0 else 64)) 0
       = Ok keyframes.
Proof.
  unfold decompress_quaternion_1_dof_keyframes. intros H.
  do 8 inv_bind H. inv_bind H. destruct a7 as [[es eo] index1].
  cbn beta iota zeta in H.
  rewrite quaternion_1_dof_keyframes_loop in H.
  replace (- index + 32 + 32) with (- index + 64) in * by lia.
  replace (- index + 64 + 32) with (- index + 96) in * by lia.
  replace (- index + 96 + 20) with (- index + 116) in * by lia.
  replace (- index + 116 + 5) with (- index + 121) in * by lia.
  replace (- index + 121 + 5) with (- index + 126) in * by lia.
  replace (- index + 126 + 5) with (- index + 131) in * by lia.
  exists a, a0, a1, a2, a3, a4, a6, a5, es, eo.
  repeat (split; [first [assumption | reflexivity] |]). cbn zeta.
  destruct ((if a6 =? 0 then 32 else a6) =? 32).
  - injection E7 as <- <- <-. split; [split; reflexivity |].
    replace (- index + 131 + 0) with (- index + 131) by lia. exact H.
  - inv_binds E7. injection E7 as <- <- <-.
    replace (- index + 131 + 32) with (- index + 163) in * by lia.
    replace (- index + 163 + 32) with (- index + 131 + 64) in * by lia.
    split; [| exact H].
    exists a7, a8. repeat split; first [assumption | reflexivity].
Qed.

End OneDof.

(** ** The vector decoder *)

Lemma vector_keyframes_loop (s : BitArray.t) (gt : GameType)
    (dt bb : Z) (bs : float) (vb : Z) (scale offset : list float) (m : Z)
    (count : nat) :
  forall index frame_count,
    vector_keyframes s gt dt bb bs vb scale offset m count index frame_count
    = keyframe_loop (vector_keyframe s gt dt bb bs vb scale offset) vector_of
        m count index frame_count.
Proof.
  induction count as [| count IH]; intros index frame_count; [reflexivity |].
  cbn [vector_keyframes keyframe_loop].
  destruct (vector_keyframe s gt dt bb bs vb scale offset index)
    as [[[[delta_time bias] vector] index'] | e]; [| reflexivity].
  cbn [bind]. cbn beta iota zeta. rewrite IH. reflexivity.
Qed.

Lemma read_vector_components_3 (s : BitArray.t) (vb : Z)
    (scale offset : list float) (i0 i1 i2 : nat) (vector vector' : list float)
    (index index' : Z) :
  read_vector_components s vb scale offset [i0; i1; i2] vector index
  = Ok (vector', index') ->
  exists c0 c1 c2,
    vector_component s vb scale offset i0 index = Ok c0
    /\ vector_component s vb scale offset i1 (index + vb) = Ok c1
    /\ vector_component s vb scale offset i2 (index + 2 * vb) = Ok c2
    /\ vector' = set_item (set_item (set_item vector i0 c0) i1 c1) i2 c2
    /\ index' = index + 3 * vb.
Proof.
  cbn [read_vector_components]. intros H. inv_binds H.
  injection H as <- <-.
  replace (index + 2 * vb) with (index + vb + vb) by lia.
  exists a, a0, a1. repeat split; try assumption. lia.
Qed.

Lemma vector_keyframe_delta (s : BitArray.t) (gt : GameType)
    (dt bb : Z) (bs : float) (vb : Z) (scale offset : list float)
    (index delta_time : Z) (bias : float) (vector : list float) (index' : Z) :
  vector_keyframe s gt dt bb bs vb scale offset index
  = Ok (delta_time, bias, vector, index') ->
  BitArray.get_bits_unsigned s index dt = Ok delta_time
  /\ index' = index + vector_stride gt dt bb vb.
Proof.
  unfold vector_keyframe, vector_stride. intros H.
  inv_bind H. inv_bind H. cbn beta iota zeta in H.
  inv_bind H. destruct a1 as [vector' index1]. cbn beta iota zeta in H.
  injection H as <- <- <- <-.
  apply read_vector_components_3 in E1.
  destruct E1 as (c0 & c1 & c2 & _ & _ & _ & _ & ->).
  split; [reflexivity |].
  destruct (in_pets_castaway_sims3 gt); lia.
Qed.

(** A quantized component: [ctypes.c_int32] leaves a field of fewer
    than 32 bits as it is, so the value is the unsigned field, scaled
    and offset. *)
Lemma vector_component_quantized (s : BitArray.t) (vb : Z)
    (scale offset : list float) (i : nat) (index : Z) (c : float) :
  vb < 32 ->
  vector_component s vb scale offset i index = Ok c ->
  exists u,
    BitArray.get_bits_unsigned s index vb = Ok u
    /\ c = ((float_of_Z u * item scale i) + item offset i)%float.
Proof.
  unfold vector_component. intros Hvb H.
  destruct (vb =? 32) eqn:E32; [apply Z.eqb_eq in E32; lia |].
  inv_bind H. inv_bind E. injection E as <-.
  pose proof (get_bits_unsigned_range _ _ _ _ E0) as [Hw Hu].
  assert (Hlt : a0 < 2 ^ 31).
  { assert (2 ^ vb <= 2 ^ 31) by (apply Z.pow_le_mono_r; lia). lia. }
  unfold c_int32 in H. cbn [bind] in H.
  replace ((a0 + 2 ^ 31) mod 2 ^ 32 - 2 ^ 31) with a0 in H.
  2:{ rewrite Z.mod_small; lia. }
  destruct (a0 <? 0) eqn:Hneg; [apply Z.ltb_lt in Hneg; lia |].
  cbn [bind py_float] in H. injection H as <-. eauto.
Qed.

Lemma read_scale_offset_3 (s : BitArray.t) (vs : float) (index : Z)
    (scale offset : list float) (index' : Z) :
  read_scale_offset s vs [0; 1; 2]%nat [0; 0; 0]%float [0; 0; 0]%float index
  = Ok (scale, offset, index') ->
  exists f0 g0 f1 g1 f2 g2,
    BitArray.get_float s index = Ok f0
    /\ BitArray.get_float s (index + 32) = Ok g0
    /\ BitArray.get_float s (index + 64) = Ok f1
    /\ BitArray.get_float s (index + 96) = Ok g1
    /\ BitArray.get_float s (index + 128) = Ok f2
    /\ BitArray.get_float s (index + 160) = Ok g2
    /\ scale = [vs * f0; vs * f1; vs * f2]%float
    /\ offset = [g0; g1; g2]
    /\ index' = index + 192.
Proof.
  cbn [read_scale_offset]. intros H. inv_binds H.
  injection H as <- <- <-. cbn [set_item].
  replace (index + 64) with (index + 32 + 32) by lia.
  replace (index + 96) with (index + 32 + 32 + 32) by lia.
  replace (index + 128) with (index + 32 + 32 + 32 + 32) by lia.
  replace (index + 160) with (index + 32 + 32 + 32 + 32 + 32) by lia.
  exists a, a0, a1, a2, a3, a4. repeat split; try assumption. lia.
Qed.

Lemma decompress_vector_keyframes_Ok (s : BitArray.t) (index : Z)
    (fps : float) (gt : GameType) (keyframes : list VectorKeyframe.t) :
  decompress_vector_keyframes s index fps gt = Ok keyframes ->
  exists count dt bb vb bs vs scale offset,
    BitArray.get_bits_unsigned s (- index) 20 = Ok count
    /\ BitArray.get_bits_unsigned s (- index + 20) 5 = Ok dt
    /\ BitArray.get_bits_unsigned s (- index + 25) 5 = Ok bb
    /\ BitArray.get_bits_unsigned s (- index + 30) 5 = Ok vb
    /\ bias_scale_of bb = Ok bs
    /\ vector_scale_of vb = Ok vs
    /\ read_scale_offset s vs [0; 1; 2]%nat [0; 0; 0]%float [0; 0; 0]%float
         (- index + 35) = Ok (scale, offset, - index + 227)
    /\ keyframe_loop (vector_keyframe s gt dt bb bs vb scale offset) vector_of
         (frame_count_multiplier fps) (Z.to_nat count) (- index + 227) 0
       = Ok keyframes.
Proof.
  unfold decompress_vector_keyframes. intros H.
  do 6 inv_bind H. inv_bind H. destruct a5 as [[scale offset] index1].
  cbn beta iota zeta in H.
  rewrite vector_keyframes_loop in H.
  replace (- index + 20 + 5) with (- index + 25) in * by lia.
  replace (- index + 25 + 5) with (- index + 30) in * by lia.
  replace (- index + 30 + 5) with (- index + 35) in * by lia.
  pose proof (read_scale_offset_3 _ _ _ _ _ _ E5)
    as (_ & _ & _ & _ & _ & _ & _ & _ & _ & _ & _ & _ & _ & _ & ->).
  replace (- index + 35 + 192) with (- index + 227) in * by lia.
  exists a, a0, a1, a3, a2, a4, scale, offset. repeat split; assumption.
Qed.

(** ** The layouts of the full-quaternion decoder *)

Lemma root_or_zero_3 (a b c t : float) (negate : bool) :
  root_or_zero [a; b; c; t] 3 negate = [a; b; c; implicit_component t negate].
Proof.
  unfold root_or_zero, implicit_component, py_max0, item. cbn [nth set_item].
  destruct (0 <? t)%float; destruct negate; reflexivity.
Qed.

(** The newer layout, keyframe by keyframe: after the reserved bit the
    three stored components go to positions 0..2 of the work list, and
    the implicit component is computed from positions 1, 2 and 3, that
    is from the last two stored components and the initial 0.0. *)
Lemma quaternion_keyframe_newer (s : BitArray.t) (gt : GameType)
    (dt bb : Z) (bs : float) (q : Z) (qs : float)
    (index delta_time : Z) (bias : float) (quat : list float) (index' : Z) :
  in_pets_castaway_sims3 gt = true ->
  quaternion_keyframe s gt dt bb bs q qs index
  = Ok (delta_time, bias, quat, index') ->
  exists v0 v1 v2 negate,
    BitArray.get_bits_signed s (index + dt + bb + 1) q = Ok v0
    /\ BitArray.get_bits_signed s (index + dt + bb + 1 + q) q = Ok v1
    /\ BitArray.get_bits_signed s (index + dt + bb + 1 + 2 * q) q = Ok v2
    /\ BitArray.get_bit s (index + dt + bb + 1 + 3 * q) = Ok negate
    /\ let s0 := (qs * float_of_Z v0)%float in
       let s1 := (qs * float_of_Z v1)%float in
       let s2 := (qs * float_of_Z v2)%float in
       quat = [implicit_component (1 - (s1 * s1 + s2 * s2 + 0 * 0))%float negate;
               s0; s1; s2].
Proof.
  unfold quaternion_keyframe. intros Hgt H. rewrite Hgt in H.
  inv_bind H. inv_bind H. cbn beta iota zeta in H.
  inv_bind H. destruct a1 as [quat' index1]. cbn beta iota zeta in H.
  inv_bind H. injection H as <- <- <- <-.
  apply read_quat_components_3 in E1.
  destruct E1 as (v0 & v1 & v2 & H0 & H1 & H2 & -> & ->).
  exists v0, v1, v2, a1. repeat split; try assumption.
  cbn [set_item]. unfold one_minus_squares, item. cbn [nth].
  rewrite root_or_zero_3. reflexivity.
Qed.

(** C1.  The full-quaternion decoder on the newer layout (THESIMS3), one
    keyframe whose stored components are 1.0, 0.0, 0.0 with the negate
    bit clear: the claim's quaternion is (0, 1, 0, 0), with the implicit
    component sqrt(max(0, 1 - (1 + 0 + 0))) = 0; the decoder hands
    (1, 1, 0, 0) to the normalization, because its sum of squares reads
    positions 1..3 of the work list and so leaves the first stored
    component out. *)
Theorem newer_layout_implicit_omits_first_stored :
  BitArray.signed_bits_to_float_scaler 2 = Ok 1%float
  /\ BitArray.get_bits_signed newer_stream 36 2 = Ok 1
  /\ BitArray.get_bits_signed newer_stream 38 2 = Ok 0
  /\ BitArray.get_bits_signed newer_stream 40 2 = Ok 0
  /\ BitArray.get_bit newer_stream 42 = Ok false
  /\ claimed_quaternion 1 0 0 false = [0; 1; 0; 0]%float
  /\ decompress_quaternion_keyframes newer_stream 0 60 THESIMS3
     = Ok [QuaternionKeyframe.make 0 0
             (normalized (mathutils_Quaternion [1; 1; 0; 0]%float))].
Proof. repeat split; vm_compute; reflexivity. Qed.

(** C2, as amended.  On the older layout (every game version other than
    THESIMS2PETS, THESIMS2CASTAWAY and THESIMS3) the three stored
    components are read without a reserved-bit skip, and the quaternion
    passed to normalization is (stored2, implicit, stored0, stored1),
    where implicit = sqrt(max(0, 1 - sum of squares of the stored
    components)), negated when the negate bit is set and the difference
    is positive. *)
Theorem older_layout_quaternion (s : BitArray.t) (index : Z) (fps : float)
    (gt : GameType) (keyframes : list QuaternionKeyframe.t) :
  in_pets_castaway_sims3 gt = false ->
  decompress_quaternion_keyframes s index fps gt = Ok keyframes ->
  exists count dt bb q qs,
    BitArray.get_bits_unsigned s (- index) 20 = Ok count
    /\ BitArray.get_bits_unsigned s (- index + 20) 5 = Ok dt
    /\ BitArray.get_bits_unsigned s (- index + 25) 5 = Ok bb
    /\ BitArray.get_bits_unsigned s (- index + 30) 5 = Ok q
    /\ BitArray.signed_bits_to_float_scaler q = Ok qs
    /\ length keyframes = Z.to_nat count
    /\ forall k keyframe,
         nth_error keyframes k = Some keyframe ->
         older_layout_keyframe older_quaternion s index dt bb q qs k keyframe.
Proof.
  intros Hgt H.
  apply decompress_quaternion_keyframes_Ok in H.
  destruct H as (count & dt & bb & q & bs & qs & Hc & Hdt & Hbb & Hq & Hbs
                 & Hqs & Hloop).
  exists count, dt, bb, q, qs. repeat split; try assumption.
  - destruct (keyframe_loop_frames _ quaternion_of QuaternionKeyframe.frame
                _ s dt (quaternion_stride gt dt bb q) (fun _ _ _ => eq_refl)
                (quaternion_keyframe_delta s gt dt bb bs q qs) _ _ _ _ Hloop)
      as (_ & _ & Hlen & _).
    exact Hlen.
  - intros k keyframe Hk.
    destruct (keyframe_loop_nth _ quaternion_of _ s dt
                (quaternion_stride gt dt bb q)
                (quaternion_keyframe_delta s gt dt bb bs q qs)
                _ _ _ _ _ _ Hloop Hk)
      as (d & b & quat & f & Hbody & ->).
    apply (quaternion_keyframe_older _ _ _ _ _ _ _ _ _ _ _ _ Hgt) in Hbody.
    destruct Hbody as (v0 & v1 & v2 & negate & H0 & H1 & H2 & Hn & ->).
    unfold older_layout_keyframe, quaternion_stride in *. rewrite Hgt in *.
    exists v0, v1, v2, negate. cbn zeta.
    replace (dt + bb + 0 + 3 * q + 1) with (dt + bb + 3 * q + 1) in * by lia.
    repeat split; assumption.
Qed.

Lemma older_layout_quaternion_witness :
  in_pets_castaway_sims3 THESIMS = false
  /\ decompress_quaternion_keyframes older_stream 0 60 THESIMS
     = Ok [QuaternionKeyframe.make 0 0
             (normalized
                (mathutils_Quaternion
                   (older_quaternion (1 / 3 * 1) (1 / 3 * 2) (1 / 3 * 0) true)%float))]
  /\ exists count dt bb q qs,
       BitArray.get_bits_unsigned older_stream (- 0) 20 = Ok count
       /\ BitArray.get_bits_unsigned older_stream (- 0 + 20) 5 = Ok dt
       /\ BitArray.get_bits_unsigned older_stream (- 0 + 25) 5 = Ok bb
       /\ BitArray.get_bits_unsigned older_stream (- 0 + 30) 5 = Ok q
       /\ BitArray.signed_bits_to_float_scaler q = Ok qs
       /\ length
            [QuaternionKeyframe.make 0 0
               (normalized
                  (mathutils_Quaternion
                     (older_quaternion (1 / 3 * 1) (1 / 3 * 2) (1 / 3 * 0) true)%float))]
          = Z.to_nat count
       /\ forall k keyframe,
            nth_error
              [QuaternionKeyframe.make 0 0
                 (normalized
                    (mathutils_Quaternion
                       (older_quaternion (1 / 3 * 1) (1 / 3 * 2) (1 / 3 * 0) true)%float))]
              k = Some keyframe ->
            older_layout_keyframe older_quaternion older_stream 0 dt bb q qs k
              keyframe.
Proof.
  split; [reflexivity |].
  split; [vm_compute; reflexivity |].
  apply (older_layout_quaternion older_stream 0 60 THESIMS);
    [reflexivity | vm_compute; reflexivity].
Defined.

(** C2, as stated, fails on the older layout: with stored components
    1/3, 2/3, 0 and the negate bit set the decoder hands
    (0, -2/3, 1/3, 2/3) to the normalization, not
    (implicit, stored0, stored1, stored2) = (-2/3, 1/3, 2/3, 0). *)
Lemma older_layout_order_counterexample :
  exists qs keyframe,
    BitArray.signed_bits_to_float_scaler 3 = Ok qs
    /\ BitArray.get_bits_signed older_stream 35 3 = Ok 1
    /\ BitArray.get_bits_signed older_stream 38 3 = Ok 2
    /\ BitArray.get_bits_signed older_stream 41 3 = Ok 0
    /\ BitArray.get_bit older_stream 44 = Ok true
    /\ decompress_quaternion_keyframes older_stream 0 60 THESIMS
       = Ok [keyframe]
    /\ QuaternionKeyframe.rotation keyframe
       = normalized
           (mathutils_Quaternion
              (older_quaternion (qs * 1) (qs * 2) (qs * 0) true)%float)
    /\ QuaternionKeyframe.rotation keyframe
       <> normalized
            (mathutils_Quaternion
               (claimed_quaternion (qs * 1) (qs * 2) (qs * 0) true)%float).
Proof.
  eexists. eexists.
  split; [vm_compute; reflexivity |].
  repeat (split; [vm_compute; reflexivity |]).
  intros H.
  apply (f_equal (fun r => match r with
                           | normalized (mathutils_Quaternion (x :: _)) =>
                               (x =? 0)%float
                           | _ => false
                           end)) in H.
  vm_compute in H. discriminate H.
Qed.

(** ** Frame numbers *)

Lemma keyframe_loop_follows {V K : Type}
    (body : Z -> res (Z * float * V * Z)) (mk : Z -> float -> V -> K)
    (frame_of : K -> Z) (s : BitArray.t) (fps : float)
    (count width stride base : Z) (keyframes : list K) :
  (forall f b v, frame_of (mk f b v) = f) ->
  (forall index delta_time bias v index',
      body index = Ok (delta_time, bias, v, index') ->
      BitArray.get_bits_unsigned s index width = Ok delta_time
      /\ index' = index + stride) ->
  keyframe_loop body mk (frame_count_multiplier fps) (Z.to_nat count) base 0
  = Ok keyframes ->
  frames_follow_deltas s (map frame_of keyframes) fps count width stride base.
Proof.
  intros Hmk Hbody H.
  destruct (keyframe_loop_frames body mk frame_of _ s width stride Hmk Hbody
              _ _ _ _ H) as (deltas & Hds & Hlen & Hnth).
  exists deltas. split; [exact Hds |]. split; [now rewrite length_map |].
  intros k frame Hk. rewrite nth_error_map in Hk.
  destruct (nth_error keyframes k) as [keyframe |] eqn:E; [| discriminate].
  injection Hk as <-. rewrite (Hnth _ _ E). lia.
Qed.

(** C3.  In each of the three decoders the frame number of keyframe [k]
    is the running sum of [delta_time + 1] over keyframes [0..k], times
    the multiplier (1 when the frame rate equals 60, 2 otherwise), minus
    1.  On the scenario stream (two keyframes, deltas 0 and 3) the frame
    numbers are 0 and 4 at 60 fps and 1 and 9 at 30 fps. *)
Theorem frame_numbers_are_running_sums {ext : Externals} :
  (forall s index fps gt keyframes,
      decompress_quaternion_keyframes s index fps gt = Ok keyframes ->
      exists count dt bb q,
        BitArray.get_bits_unsigned s (- index) 20 = Ok count
        /\ BitArray.get_bits_unsigned s (- index + 20) 5 = Ok dt
        /\ BitArray.get_bits_unsigned s (- index + 25) 5 = Ok bb
        /\ BitArray.get_bits_unsigned s (- index + 30) 5 = Ok q
        /\ frames_follow_deltas s (map QuaternionKeyframe.frame keyframes)
             fps count dt (quaternion_stride gt dt bb q) (- index + 35))
  /\ (forall s index fps keyframes,
         decompress_quaternion_1_dof_keyframes s index fps = Ok keyframes ->
         exists count dt bb e,
           BitArray.get_bits_unsigned s (- index + 96) 20 = Ok count
           /\ BitArray.get_bits_unsigned s (- index + 116) 5 = Ok dt
           /\ BitArray.get_bits_unsigned s (- index + 121) 5 = Ok bb
           /\ BitArray.get_bits_unsigned s (- index + 126) 5 = Ok e
           /\ let eb := if e =? 0 then 32 else e in
              frames_follow_deltas s
                (map QuaternionKeyframe.frame keyframes) fps count dt
                (dt + bb + eb)
                (- index + 131 + (if eb =? 32 then 0 else 64)))
  /\ (forall s index fps gt keyframes,
         decompress_vector_keyframes s index fps gt = Ok keyframes ->
         exists count dt bb vb,
           BitArray.get_bits_unsigned s (- index) 20 = Ok count
           /\ BitArray.get_bits_unsigned s (- index + 20) 5 = Ok dt
           /\ BitArray.get_bits_unsigned s (- index + 25) 5 = Ok bb
           /\ BitArray.get_bits_unsigned s (- index + 30) 5 = Ok vb
           /\ frames_follow_deltas s (map VectorKeyframe.frame keyframes)
                fps count dt (vector_stride gt dt bb vb) (- index + 227))
  /\ (forall fps, frame_count_multiplier fps
                  = if (fps =? 60)%float then 1 else 2)
  /\ delta_times scenario_stream 4 35 2 35 = Ok [0; 3]
  /\ (exists keyframes,
         decompress_quaternion_keyframes scenario_stream 0 60 THESIMS
         = Ok keyframes
         /\ map QuaternionKeyframe.frame keyframes = [0; 4])
  /\ (exists keyframes,
         decompress_quaternion_keyframes scenario_stream 0 30 THESIMS
         = Ok keyframes
         /\ map QuaternionKeyframe.frame keyframes = [1; 9]).
Proof.
  split; [| split; [| split; [| split; [| split; [| split]]]]].
  - intros s index fps gt keyframes H.
    apply decompress_quaternion_keyframes_Ok in H.
    destruct H as (count & dt & bb & q & bs & qs & Hc & Hdt & Hbb & Hq & _
                   & _ & Hloop).
    exists count, dt, bb, q. repeat (split; [assumption |]).
    eapply keyframe_loop_follows; [| | exact Hloop].
    + reflexivity.
    + apply quaternion_keyframe_delta.
  - intros s index fps keyframes H.
    apply decompress_quaternion_1_dof_keyframes_Ok in H.
    destruct H as (x & y & z & count & dt & bb & e & bs & es & eo & Hc & Hdt
                   & Hbb & He & _ & _ & _ & _ & _ & Hloop).
    exists count, dt, bb, e. repeat (split; [assumption |]).
    cbn zeta in *.
    eapply keyframe_loop_follows; [| | exact Hloop].
    + reflexivity.
    + intros i d b v i' Hb.
      apply quaternion_1_dof_keyframe_Ok in Hb.
      destruct Hb as (Hd & Hi & _). split; assumption.
  - intros s index fps gt keyframes H.
    apply decompress_vector_keyframes_Ok in H.
    destruct H as (count & dt & bb & vb & bs & vs & scale & offset & Hc & Hdt
                   & Hbb & Hvb & _ & _ & _ & Hloop).
    exists count, dt, bb, vb. repeat (split; [assumption |]).
    eapply keyframe_loop_follows; [| | exact Hloop].
    + reflexivity.
    + apply vector_keyframe_delta.
  - reflexivity.
  - vm_compute. reflexivity.
  - eexists. split; vm_compute; reflexivity.
  - eexists. split; vm_compute; reflexivity.
Qed.

Lemma frame_numbers_are_running_sums_witness :
  decompress_quaternion_1_dof_keyframes (ext := concrete_externals)
    one_dof_stream 0 30
  = Ok [QuaternionKeyframe.make 3 0
          (normalized (mathutils_Quaternion [1; 0; 0; 0]%float));
        QuaternionKeyframe.make 9 0
          (normalized (mathutils_Quaternion [1; 0; 0; 0]%float))]
  /\ exists count dt bb e,
       BitArray.get_bits_unsigned one_dof_stream (- 0 + 96) 20 = Ok count
       /\ BitArray.get_bits_unsigned one_dof_stream (- 0 + 116) 5 = Ok dt
       /\ BitArray.get_bits_unsigned one_dof_stream (- 0 + 121) 5 = Ok bb
       /\ BitArray.get_bits_unsigned one_dof_stream (- 0 + 126) 5 = Ok e
       /\ let eb := if e =? 0 then 32 else e in
          frames_follow_deltas one_dof_stream [3; 9] 30 count dt
            (dt + bb + eb) (- 0 + 131 + (if eb =? 32 then 0 else 64)).
Proof.
  split; [vm_compute; reflexivity |].
  apply (proj1 (proj2 (frame_numbers_are_running_sums
                         (ext := concrete_externals)))
           one_dof_stream 0 30%float
           [QuaternionKeyframe.make 3 0
              (normalized (mathutils_Quaternion [1; 0; 0; 0]%float));
            QuaternionKeyframe.make 9 0
              (normalized (mathutils_Quaternion [1; 0; 0; 0]%float))]).
  vm_compute. reflexivity.
Defined.

(** C9.  In each of the three decoders the frame numbers of the
    returned keyframes strictly increase along the sequence. *)
Theorem frames_strictly_increasing {ext : Externals} :
  (forall s index fps gt keyframes,
      decompress_quaternion_keyframes s index fps gt = Ok keyframes ->
      StronglySorted Z.lt (map QuaternionKeyframe.frame keyframes))
  /\ (forall s index fps keyframes,
         decompress_quaternion_1_dof_keyframes s index fps = Ok keyframes ->
         StronglySorted Z.lt (map QuaternionKeyframe.frame keyframes))
  /\ (forall s index fps gt keyframes,
         decompress_vector_keyframes s index fps gt = Ok keyframes ->
         StronglySorted Z.lt (map VectorKeyframe.frame keyframes)).
Proof.
  split; [| split].
  - intros s index fps gt keyframes H.
    apply decompress_quaternion_keyframes_Ok in H.
    destruct H as (count & dt & bb & q & bs & qs & _ & _ & _ & _ & _ & _
                   & Hloop).
    eapply keyframe_loop_sorted;
      [| | apply frame_count_multiplier_pos | exact Hloop].
    + reflexivity.
    + apply quaternion_keyframe_delta.
  - intros s index fps keyframes H.
    apply decompress_quaternion_1_dof_keyframes_Ok in H.
    destruct H as (x & y & z & count & dt & bb & e & bs & es & eo & _ & _
                   & _ & _ & _ & _ & _ & _ & _ & Hloop).
    cbn zeta in Hloop.
    eapply keyframe_loop_sorted
      with (stride := dt + bb + (if e =? 0 then 32 else e));
      [| | apply frame_count_multiplier_pos | exact Hloop].
    + reflexivity.
    + intros i d b v i' Hb.
      apply quaternion_1_dof_keyframe_Ok in Hb.
      destruct Hb as (Hd & Hi & _). split; [exact Hd | exact Hi].
  - intros s index fps gt keyframes H.
    apply decompress_vector_keyframes_Ok in H.
    destruct H as (count & dt & bb & vb & bs & vs & scale & offset & _ & _
                   & _ & _ & _ & _ & _ & Hloop).
    eapply keyframe_loop_sorted;
      [| | apply frame_count_multiplier_pos | exact Hloop].
    + reflexivity.
    + apply vector_keyframe_delta.
Qed.

Lemma frames_strictly_increasing_witness :
  decompress_quaternion_keyframes scenario_stream 0 60 THESIMS
  = Ok [QuaternionKeyframe.make 0 0
          (normalized (mathutils_Quaternion [0; 1; 0; 0]%float));
        QuaternionKeyframe.make 4 0
          (normalized (mathutils_Quaternion [0; 1; 0; 0]%float))]
  /\ StronglySorted Z.lt
       (map QuaternionKeyframe.frame
          [QuaternionKeyframe.make 0 0
             (normalized (mathutils_Quaternion [0; 1; 0; 0]%float));
           QuaternionKeyframe.make 4 0
             (normalized (mathutils_Quaternion [0; 1; 0; 0]%float))]).
Proof.
  split; [vm_compute; reflexivity |].
  apply (proj1 (frames_strictly_increasing (ext := concrete_externals))
           scenario_stream 0 60%float THESIMS).
  vm_compute. reflexivity.
Defined.

(** ** Bias handling *)

(** The unguarded bias read of the 1-DOF decoder yields what the
    guarded read of the full decoder yields: a bias width of 0 makes the
    scale 0.0 and the field empty. *)
Lemma unguarded_bias_is_guarded (s : BitArray.t) (h bb : Z) (bs : float)
    (index v : Z) :
  BitArray.get_bits_unsigned s h 5 = Ok bb ->
  bias_scale_of bb = Ok bs ->
  BitArray.get_bits_signed s index bb = Ok v ->
  read_bias_signed_guarded s bs bb index = Ok (bs * float_of_Z v)%float.
Proof.
  intros Hh Hbs Hv. unfold read_bias_signed_guarded.
  destruct (0 <? bb) eqn:Hpos.
  - rewrite Hv. reflexivity.
  - apply get_bits_unsigned_range in Hh. apply Z.ltb_ge in Hpos.
    assert (bb = 0) by lia. subst bb.
    apply get_bits_signed_width_0 in Hv. subst v.
    cbn in Hbs. injection Hbs as <-. reflexivity.
Qed.

(** One keyframe of the 1-DOF stream in full: the bias field lies
    behind the delta time, the angle behind the bias, and the quaternion
    is built from the half angle. *)
Lemma quaternion_1_dof_keyframe_fields {ext : Externals} (s : BitArray.t)
    (x y z : float) (dt bb : Z) (bs : float) (eb : Z) (es eo : float)
    (index delta_time : Z) (bias : float) (quat : list float) (index' : Z) :
  quaternion_1_dof_keyframe s x y z dt bb bs eb es eo index
  = Ok (delta_time, bias, quat, index') ->
  exists v element sn w,
    BitArray.get_bits_signed s (index + dt) bb = Ok v
    /\ bias = (bs * float_of_Z v)%float
    /\ (if eb =? 32 then BitArray.get_float s (index + dt + bb) = Ok element
        else exists u,
            BitArray.get_bits_unsigned s (index + dt + bb) eb = Ok u
            /\ element = (eo + (es * float_of_Z u))%float)
    /\ math_sin (0.5 * element)%float = Ok sn
    /\ math_cos (0.5 * element)%float = Ok w
    /\ quat = [w; x * sn; y * sn; z * sn]%float.
Proof.
  unfold quaternion_1_dof_keyframe. intros H.
  inv_bind H. inv_bind H. cbn beta iota zeta in H.
  inv_bind H. destruct a1 as [element index1]. cbn beta iota zeta in H.
  inv_bind H. inv_bind H. injection H as <- <- <- <-.
  exists a0, element, a1, a2. repeat (split; [assumption || reflexivity |]).
  split; [| repeat split; assumption].
  destruct (eb =? 32).
  - inv_bind E1. injection E1 as <- _. reflexivity.
  - inv_bind E1. injection E1 as <- _. eauto.
Qed.

(** A 1-DOF channel that decodes: the keyframes lie
    [delta width + bias width + angle width] bits apart; in each one the
    bias field is read behind the delta time, with a bias width of 0
    too, where the channel decodes only when the stream answers the
    read of the empty field; the bias then equals what the guarded read
    of the full-quaternion decoder yields at that place, and the angle
    follows [bias width] bits further. *)
Lemma one_dof_keyframes_decoded {ext : Externals} (s : BitArray.t) (index : Z)
    (fps : float) (keyframes : list QuaternionKeyframe.t) :
  decompress_quaternion_1_dof_keyframes s index fps = Ok keyframes ->
  exists x y z count dt bb e bs es eo,
    BitArray.get_float s (- index) = Ok x
    /\ BitArray.get_float s (- index + 32) = Ok y
    /\ BitArray.get_float s (- index + 64) = Ok z
    /\ BitArray.get_bits_unsigned s (- index + 96) 20 = Ok count
    /\ BitArray.get_bits_unsigned s (- index + 116) 5 = Ok dt
    /\ BitArray.get_bits_unsigned s (- index + 121) 5 = Ok bb
    /\ BitArray.get_bits_unsigned s (- index + 126) 5 = Ok e
    /\ bias_scale_of bb = Ok bs
    /\ length keyframes = Z.to_nat count
    /\ let eb := if e =? 0 then 32 else e in
       let base := - index + 131 + (if eb =? 32 then 0 else 64) in
       forall k keyframe,
         nth_error keyframes k = Some keyframe ->
         one_dof_keyframe_at s x y z bb bs eb es eo
           (base + Z.of_nat k * (dt + bb + eb) + dt) keyframe.
Proof.
  intros H.
  apply decompress_quaternion_1_dof_keyframes_Ok in H.
  destruct H as (x & y & z & count & dt & bb & e & bs & es & eo & Hc & Hdt
                 & Hbb & He & Hbs & Hx & Hy & Hz & _ & Hloop).
  exists x, y, z, count, dt, bb, e, bs, es, eo.
  repeat (split; [assumption |]). cbn zeta in *.
  set (eb := if e =? 0 then 32 else e) in *.
  assert (Hdelta : forall i d b v i',
             quaternion_1_dof_keyframe s x y z dt bb bs eb es eo i
             = Ok (d, b, v, i') ->
             BitArray.get_bits_unsigned s i dt = Ok d
             /\ i' = i + (dt + bb + eb)).
  { intros i d b v i' Hb. apply quaternion_1_dof_keyframe_Ok in Hb.
    destruct Hb as (Hd & Hi & _). split; assumption. }
  split.
  - destruct (keyframe_loop_frames _ quaternion_of QuaternionKeyframe.frame
                _ s dt (dt + bb + eb) (fun _ _ _ => eq_refl) Hdelta
                _ _ _ _ Hloop) as (_ & _ & Hlen & _).
    exact Hlen.
  - intros k keyframe Hk.
    destruct (keyframe_loop_nth _ quaternion_of _ s dt (dt + bb + eb) Hdelta
                _ _ _ _ _ _ Hloop Hk)
      as (d & b & quat & f & Hbody & ->).
    apply quaternion_1_dof_keyframe_fields in Hbody.
    destruct Hbody as (v & element & sn & w & Hv & -> & Hel & Hsin & Hcos & ->).
    unfold one_dof_keyframe_at, quaternion_of.
    cbn [QuaternionKeyframe.bias QuaternionKeyframe.rotation].
    pose proof (unguarded_bias_is_guarded _ _ _ _ _ _ Hbb Hbs Hv) as Hg.
    split; [exact Hg |]. split.
    + intros ->. unfold read_bias_signed_guarded in Hg. cbn in Hg.
      now injection Hg as <-.
    + exists element, sn, w. repeat split; assumption.
Qed.




(** C6.  The vector decoder on a channel with bias width 2 whose bias
    bits are [11]: the signed field is -1 and the scale is 1.0, so a
    signed bias is -1.0 (what the guarded read of the full decoder
    yields there); the vector decoder reads the field unsigned and
    yields the bias 3.0. *)
Theorem vector_bias_is_read_unsigned :
  BitArray.get_bits_unsigned vector_stream 25 5 = Ok 2
  /\ bias_scale_of 2 = Ok 1%float
  /\ BitArray.get_bits_signed vector_stream 227 2 = Ok (-1)
  /\ BitArray.get_bits_unsigned vector_stream 227 2 = Ok 3
  /\ read_bias_signed_guarded vector_stream 1 2 227 = Ok (-1)%float
  /\ exists keyframe,
       decompress_vector_keyframes vector_stream 0 60 THESIMS = Ok [keyframe]
       /\ VectorKeyframe.bias keyframe = 3%float.
Proof.
  repeat (split; [vm_compute; reflexivity |]).
  eexists. split; vm_compute; reflexivity.
Qed.

(** ** The components of the vector decoder *)

Lemma vector_keyframe_components (s : BitArray.t) (gt : GameType)
    (dt bb : Z) (bs : float) (vb : Z) (scale offset : list float)
    (index delta_time : Z) (bias : float) (vector : list float) (index' : Z) :
  vector_keyframe s gt dt bb bs vb scale offset index
  = Ok (delta_time, bias, vector, index') ->
  let c := index + dt + bb + (if in_pets_castaway_sims3 gt then 1 else 0) in
  exists c0 c1 c2,
    vector_component s vb scale offset 0 c = Ok c0
    /\ vector_component s vb scale offset 1 (c + vb) = Ok c1
    /\ vector_component s vb scale offset 2 (c + 2 * vb) = Ok c2
    /\ vector = [c0; c1; c2].
Proof.
  unfold vector_keyframe. intros H.
  inv_bind H. inv_bind H. cbn beta iota zeta in H.
  inv_bind H. destruct a1 as [vector' index1]. cbn beta iota zeta in H.
  injection H as <- <- <- <-.
  apply read_vector_components_3 in E1.
  destruct E1 as (c0 & c1 & c2 & H0 & H1 & H2 & -> & _).
  cbn zeta. exists c0, c1, c2.
  destruct (in_pets_castaway_sims3 gt);
    [| replace (index + dt + bb + 0) with (index + dt + bb) by lia];
    repeat split; assumption.
Qed.

(** The branch of the component loop for a width of 32 reads a raw
    float and hands it to [ctypes.c_int32], which refuses a float. *)
Lemma vector_component_raw_float (s : BitArray.t)
    (scale offset : list float) (i : nat) (index : Z) (f : float) :
  BitArray.get_float s index = Ok f ->
  vector_component s 32 scale offset i index = Raise TypeError.
Proof.
  intros H. unfold vector_component. cbn [Z.eqb Pos.eqb].
  rewrite H. reflexivity.
Qed.

(** Every channel that the vector decoder decodes is quantized: the
    component width is a 5-bit field, so it is below 32; the three
    (scale, offset) header pairs are read, each scale multiplied by the
    unsigned-bits scaler of the width; and every component of every
    keyframe is the unsigned field of its axis times the scale of the
    axis plus the offset of the axis. *)
Lemma vector_keyframes_quantized (s : BitArray.t) (index : Z)
    (fps : float) (gt : GameType) (keyframes : list VectorKeyframe.t) :
  decompress_vector_keyframes s index fps gt = Ok keyframes ->
  exists count dt bb vb vs f0 g0 f1 g1 f2 g2,
    BitArray.get_bits_unsigned s (- index) 20 = Ok count
    /\ BitArray.get_bits_unsigned s (- index + 20) 5 = Ok dt
    /\ BitArray.get_bits_unsigned s (- index + 25) 5 = Ok bb
    /\ BitArray.get_bits_unsigned s (- index + 30) 5 = Ok vb
    /\ vb < 32
    /\ BitArray.unsigned_bits_to_float_scaler vb = Ok vs
    /\ BitArray.get_float s (- index + 35) = Ok f0
    /\ BitArray.get_float s (- index + 67) = Ok g0
    /\ BitArray.get_float s (- index + 99) = Ok f1
    /\ BitArray.get_float s (- index + 131) = Ok g1
    /\ BitArray.get_float s (- index + 163) = Ok f2
    /\ BitArray.get_float s (- index + 195) = Ok g2
    /\ length keyframes = Z.to_nat count
    /\ forall k keyframe,
         nth_error keyframes k = Some keyframe ->
         vector_keyframe_at s vb vs f0 g0 f1 g1 f2 g2
           (- index + 227 + Z.of_nat k * vector_stride gt dt bb vb + dt + bb
            + (if in_pets_castaway_sims3 gt then 1 else 0))
           keyframe.
Proof.
  intros H.
  apply decompress_vector_keyframes_Ok in H.
  destruct H as (count & dt & bb & vb & bs & vs & scale & offset & Hc & Hdt
                 & Hbb & Hvb & Hbs & Hvs & Hso & Hloop).
  assert (Hlt : vb < 32).
  { apply get_bits_unsigned_range in Hvb. change (2 ^ 5) with 32 in Hvb. lia. }
  unfold vector_scale_of in Hvs.
  destruct (vb =? 32) eqn:E32; [apply Z.eqb_eq in E32; lia |].
  apply read_scale_offset_3 in Hso.
  destruct Hso as (f0 & g0 & f1 & g1 & f2 & g2 & Hf0 & Hg0 & Hf1 & Hg1 & Hf2
                   & Hg2 & -> & -> & _).
  replace (- index + 35 + 32) with (- index + 67) in * by lia.
  replace (- index + 35 + 64) with (- index + 99) in * by lia.
  replace (- index + 35 + 96) with (- index + 131) in * by lia.
  replace (- index + 35 + 128) with (- index + 163) in * by lia.
  replace (- index + 35 + 160) with (- index + 195) in * by lia.
  exists count, dt, bb, vb, vs, f0, g0, f1, g1, f2, g2.
  repeat (split; [assumption |]).
  split.
  - destruct (keyframe_loop_frames _ vector_of VectorKeyframe.frame
                _ s dt (vector_stride gt dt bb vb) (fun _ _ _ => eq_refl)
                (vector_keyframe_delta s gt dt bb bs vb _ _) _ _ _ _ Hloop)
      as (_ & _ & Hlen & _).
    exact Hlen.
  - intros k keyframe Hk.
    destruct (keyframe_loop_nth _ vector_of _ s dt (vector_stride gt dt bb vb)
                (vector_keyframe_delta s gt dt bb bs vb _ _)
                _ _ _ _ _ _ Hloop Hk)
      as (d & b & vector & f & Hbody & ->).
    apply vector_keyframe_components in Hbody. cbn zeta in Hbody.
    destruct Hbody as (c0 & c1 & c2 & H0 & H1 & H2 & ->).
    apply (vector_component_quantized _ _ _ _ _ _ _ Hlt) in H0, H1, H2.
    destruct H0 as (u0 & Hu0 & ->). destruct H1 as (u1 & Hu1 & ->).
    destruct H2 as (u2 & Hu2 & ->).
    exists u0, u1, u2. repeat split; assumption.
Qed.

(** C5.  The vector decoder never passes raw floats through.  Its
    branch for a width of 32 cannot be reached: the width is a 5-bit
    field, and where the 1-DOF decoder takes a width field of 0 for 32
    the vector decoder takes it as it is.  So every channel that
    decodes is quantized, with its three (scale, offset) header pairs
    read and applied; and the channel of raw floats 1.0, 2.0, 3.0,
    written with the width field 0 and no header pairs, is not decoded
    into these floats: the scaler of the width 0 divides by zero. *)
Theorem vector_raw_floats_never_pass_through :
  (forall s index fps gt keyframes,
      decompress_vector_keyframes s index fps gt = Ok keyframes ->
      exists count dt bb vb vs f0 g0 f1 g1 f2 g2,
        BitArray.get_bits_unsigned s (- index) 20 = Ok count
        /\ BitArray.get_bits_unsigned s (- index + 20) 5 = Ok dt
        /\ BitArray.get_bits_unsigned s (- index + 25) 5 = Ok bb
        /\ BitArray.get_bits_unsigned s (- index + 30) 5 = Ok vb
        /\ vb < 32
        /\ BitArray.unsigned_bits_to_float_scaler vb = Ok vs
        /\ BitArray.get_float s (- index + 35) = Ok f0
        /\ BitArray.get_float s (- index + 67) = Ok g0
        /\ BitArray.get_float s (- index + 99) = Ok f1
        /\ BitArray.get_float s (- index + 131) = Ok g1
        /\ BitArray.get_float s (- index + 163) = Ok f2
        /\ BitArray.get_float s (- index + 195) = Ok g2
        /\ length keyframes = Z.to_nat count
        /\ forall k keyframe,
             nth_error keyframes k = Some keyframe ->
             vector_keyframe_at s vb vs f0 g0 f1 g1 f2 g2
               (- index + 227 + Z.of_nat k * vector_stride gt dt bb vb + dt + bb
                + (if in_pets_castaway_sims3 gt then 1 else 0))
               keyframe)
  /\ BitArray.get_bits_unsigned raw_vector_stream 20 5 = Ok 1
  /\ BitArray.get_bits_unsigned raw_vector_stream 25 5 = Ok 0
  /\ BitArray.get_bits_unsigned raw_vector_stream 30 5 = Ok 0
  /\ BitArray.get_float raw_vector_stream 36 = Ok 1%float
  /\ BitArray.get_float raw_vector_stream 68 = Ok 2%float
  /\ BitArray.get_float raw_vector_stream 100 = Ok 3%float
  /\ decompress_vector_keyframes raw_vector_stream 0 60 THESIMS
     = Raise ZeroDivisionError.
Proof.
  split; [exact vector_keyframes_quantized |].
  repeat split; vm_compute; reflexivity.
Qed.

Lemma vector_raw_floats_never_pass_through_witness :
  decompress_vector_keyframes vector_stream 0 60 THESIMS
  = Ok [VectorKeyframe.make 0 3 (mathutils_Vector [1; 1 / 7; 1]%float)]
  /\ exists count dt bb vb vs f0 g0 f1 g1 f2 g2,
       BitArray.get_bits_unsigned vector_stream (- 0) 20 = Ok count
       /\ BitArray.get_bits_unsigned vector_stream (- 0 + 20) 5 = Ok dt
       /\ BitArray.get_bits_unsigned vector_stream (- 0 + 25) 5 = Ok bb
       /\ BitArray.get_bits_unsigned vector_stream (- 0 + 30) 5 = Ok vb
       /\ vb < 32
       /\ BitArray.unsigned_bits_to_float_scaler vb = Ok vs
       /\ BitArray.get_float vector_stream (- 0 + 35) = Ok f0
       /\ BitArray.get_float vector_stream (- 0 + 67) = Ok g0
       /\ BitArray.get_float vector_stream (- 0 + 99) = Ok f1
       /\ BitArray.get_float vector_stream (- 0 + 131) = Ok g1
       /\ BitArray.get_float vector_stream (- 0 + 163) = Ok f2
       /\ BitArray.get_float vector_stream (- 0 + 195) = Ok g2
       /\ length
            [VectorKeyframe.make 0 3 (mathutils_Vector [1; 1 / 7; 1]%float)]
          = Z.to_nat count
       /\ forall k keyframe,
            nth_error
              [VectorKeyframe.make 0 3 (mathutils_Vector [1; 1 / 7; 1]%float)]
              k = Some keyframe ->
            vector_keyframe_at vector_stream vb vs f0 g0 f1 g1 f2 g2
              (- 0 + 227 + Z.of_nat k * vector_stride THESIMS dt bb vb + dt
               + bb + (if in_pets_castaway_sims3 THESIMS then 1 else 0))
              keyframe.
Proof.
  split; [vm_compute; reflexivity |].
  apply (proj1 vector_raw_floats_never_pass_through vector_stream 0 60%float
           THESIMS).
  vm_compute. reflexivity.
Defined.

(** ** Channel index resolution *)

Lemma file_read_pos (content : list Byte.byte) (pos n : Z) :
  snd (file_read content pos n)
  = pos + Z.of_nat (length (fst (file_read content pos n))).
Proof. reflexivity. Qed.

Lemma unpack_I_length (e : Endianness) (bytes : list Byte.byte) (v : Z) :
  unpack_I e bytes = Ok v -> length bytes = 4%nat.
Proof.
  unfold unpack_I. destruct (length bytes =? 4)%nat eqn:E; [| discriminate].
  intros _. now apply Nat.eqb_eq.
Qed.

Lemma read_I_pos (content : list Byte.byte) (e : Endianness) (pos v pos' : Z) :
  read_I content e pos = Ok (v, pos') ->
  pos' = pos + 4 /\ length (fst (file_read content pos 4)) = 4%nat.
Proof.
  unfold read_I. destruct (file_read content pos 4) as [bytes p] eqn:E.
  intros H. inv_bind H. injection H as <- <-.
  apply unpack_I_length in E0.
  pose proof (file_read_pos content pos 4) as Hp. rewrite E in Hp.
  cbn [fst snd] in *. split; [lia | exact E0].
Qed.

Lemma read_i_pos (content : list Byte.byte) (e : Endianness) (pos v pos' : Z) :
  read_i content e pos = Ok (v, pos') ->
  pos' = pos + 4 /\ length (fst (file_read content pos 4)) = 4%nat.
Proof.
  unfold read_i, unpack_i.
  destruct (file_read content pos 4) as [bytes p] eqn:E.
  intros H. inv_bind H. inv_bind E0. injection E0 as <-. injection H as _ <-.
  apply unpack_I_length in E1.
  pose proof (file_read_pos content pos 4) as Hp. rewrite E in Hp.
  cbn [fst snd] in *. split; [lia | exact E1].
Qed.

Lemma read_f_pos (content : list Byte.byte) (e : Endianness) (pos : Z)
    (v : float) (pos' : Z) :
  read_f content e pos = Ok (v, pos') ->
  pos' = pos + 4 /\ length (fst (file_read content pos 4)) = 4%nat.
Proof.
  unfold read_f, unpack_f.
  destruct (file_read content pos 4) as [bytes p] eqn:E.
  intros H. inv_bind H. inv_bind E0. injection E0 as <-. injection H as _ <-.
  apply unpack_I_length in E1.
  pose proof (file_read_pos content pos 4) as Hp. rewrite E in Hp.
  cbn [fst snd] in *. split; [lia | exact E1].
Qed.

Lemma read_B_pos (content : list Byte.byte) (e : Endianness) (pos v pos' : Z) :
  read_B content e pos = Ok (v, pos') ->
  pos' = pos + 1 /\ length (fst (file_read content pos 1)) = 1%nat.
Proof.
  unfold read_B, unpack_B.
  destruct (file_read content pos 1) as [bytes p] eqn:E.
  intros H. inv_bind H. injection H as _ <-.
  pose proof (file_read_pos content pos 1) as Hp. rewrite E in Hp.
  cbn [fst snd] in *.
  destruct bytes as [| b [| b' bytes]]; try discriminate E0.
  cbn [length] in *. split; [lia | reflexivity].
Qed.

Lemma static_item_Ok (static_data : list float) (i : Z) (f : float) :
  static_item static_data i = Ok f ->
  nth_error static_data (Z.to_nat i) = Some f.
Proof.
  unfold static_item.
  destruct (nth_error static_data (Z.to_nat i)); intros H;
    [now injection H as -> | discriminate H].
Qed.

Lemma resolve_rotation_Ok {ext : Externals} (gt : GameType)
    (static_data : list float) (s : BitArray.t) (fps : float) (ri : Z)
    (keyframes : list QuaternionKeyframe.t) :
  resolve_rotation gt static_data s fps ri = Ok keyframes ->
  rotation_resolved gt static_data s fps ri keyframes.
Proof.
  unfold resolve_rotation, rotation_resolved. intros H.
  destruct (0 <? ri) eqn:Hpos; [| destruct (ri <? 0) eqn:Hneg].
  - apply Z.ltb_lt in Hpos. inv_binds H. injection H as <-.
    apply static_item_Ok in E, E0, E1, E2.
    split; [lia |]. split; [| lia]. intros _.
    exists a, a0, a1, a2. repeat split; assumption.
  - apply Z.ltb_lt in Hneg. split; [lia |]. split; [lia |]. intros _.
    destruct (in_pets_castaway_sims3 gt).
    + inv_bind H. destruct a as [is_1_dof ri']. cbn beta iota zeta in H.
      inv_bind E. injection E as <- <-. eauto.
    + cbn [bind] in H. exact H.
  - apply Z.ltb_ge in Hpos, Hneg. injection H as <-.
    split; [reflexivity |]. split; lia.
Qed.

Lemma resolve_vector_Ok {ext : Externals} (default : list float)
    (gt : GameType) (static_data : list float) (s : BitArray.t) (fps : float)
    (index : Z) (keyframes : list VectorKeyframe.t) :
  resolve_vector default gt static_data s fps index = Ok keyframes ->
  vector_resolved default gt static_data s fps index keyframes.
Proof.
  unfold resolve_vector, vector_resolved, new_Vector. intros H.
  destruct (0 <? index) eqn:Hpos; [| destruct (index <? 0) eqn:Hneg].
  - apply Z.ltb_lt in Hpos. inv_bind H. injection H as <-.
    destruct (_ <? 2)%nat; [discriminate E |]. injection E as <-.
    split; [lia |]. split; [reflexivity | lia].
  - apply Z.ltb_lt in Hneg. split; [lia |]. split; [lia |]. intros _. exact H.
  - apply Z.ltb_ge in Hpos, Hneg. injection H as <-.
    split; [reflexivity |]. split; lia.
Qed.

(** C4, as amended.  In [read_bone] the three indices are the three
    signed 32-bit integers at the bone's position.  For each channel, an
    index 0 yields exactly one keyframe at frame 0 with bias 1.0 and the
    default value (identity quaternion, unit scale, zero translation); an
    index above 0 yields exactly one keyframe at frame 0 with bias 1.0
    whose value is read from the static float table at that offset; an
    index below 0 runs the channel's decoder at bit offset [-index],
    except for the rotation of THESIMS2PETS, THESIMS2CASTAWAY and
    THESIMS3, where the bit at offset [-index] is the 1-DOF flag and the
    decoder it selects runs at bit offset [-index + 1]. *)
Theorem channel_index_resolution {ext : Externals}
    (content : list Byte.byte) (pos : Z) (e : Endianness) (gt : GameType)
    (static_data : list float) (s : BitArray.t) (fps : float)
    (bone : Bone) (pos' : Z) :
  read_bone content pos e gt static_data s fps = Ok (bone, pos') ->
  exists rotation_index scale_index location_index,
    read_i content e pos = Ok (rotation_index, pos + 4)
    /\ read_i content e (pos + 4) = Ok (scale_index, pos + 8)
    /\ read_i content e (pos + 8) = Ok (location_index, pos + 12)
    /\ rotation_resolved gt static_data s fps rotation_index
         (rotation_keyframes bone)
    /\ vector_resolved [1; 1; 1]%float gt static_data s fps scale_index
         (scale_keyframes bone)
    /\ vector_resolved [0; 0; 0]%float gt static_data s fps location_index
         (location_keyframes bone).
Proof.
  unfold read_bone. intros H.
  inv_bind H. destruct a as [ri p1]. cbn beta iota zeta in H.
  inv_bind H. destruct a as [si p2]. cbn beta iota zeta in H.
  inv_bind H. destruct a as [li p3]. cbn beta iota zeta in H.
  inv_bind H. inv_bind H. inv_bind H. injection H as <- _.
  pose proof (read_i_pos _ _ _ _ _ E) as [-> _].
  pose proof (read_i_pos _ _ _ _ _ E0) as [-> _].
  pose proof (read_i_pos _ _ _ _ _ E1) as [-> _].
  replace (pos + 4 + 4) with (pos + 8) in * by lia.
  replace (pos + 8 + 4) with (pos + 12) in * by lia.
  exists ri, si, li. cbn [rotation_keyframes scale_keyframes location_keyframes].
  do 3 (split; [first [assumption | reflexivity] |]).
  split; [now apply resolve_rotation_Ok |].
  split; now apply resolve_vector_Ok.
Qed.

Lemma channel_index_resolution_witness :
  exists bone,
    read_bone (ext := concrete_externals) flagged_bone 0 LittleEndian THESIMS3
      [] flagged_stream 60
    = Ok (bone, 32)
    /\ exists rotation_index scale_index location_index,
         read_i flagged_bone LittleEndian 0 = Ok (rotation_index, 0 + 4)
         /\ read_i flagged_bone LittleEndian (0 + 4) = Ok (scale_index, 0 + 8)
         /\ read_i flagged_bone LittleEndian (0 + 8)
            = Ok (location_index, 0 + 12)
         /\ rotation_resolved (ext := concrete_externals) THESIMS3 []
              flagged_stream 60 rotation_index (rotation_keyframes bone)
         /\ vector_resolved [1; 1; 1]%float THESIMS3 [] flagged_stream 60
              scale_index (scale_keyframes bone)
         /\ vector_resolved [0; 0; 0]%float THESIMS3 [] flagged_stream 60
              location_index (location_keyframes bone).
Proof.
  eexists. split; [vm_compute; reflexivity |].
  apply (channel_index_resolution (ext := concrete_externals) flagged_bone 0
           LittleEndian THESIMS3 [] flagged_stream 60%float _ 32).
  vm_compute. reflexivity.
Defined.

(** C4, as stated, fails for the rotation channel of THESIMS3: with
    rotation index -32 the bit at offset 32 is the 1-DOF flag and the
    full decoder runs at bit offset 33; neither rotation decoder run at
    bit offset 32 gives the keyframes that [read_bone] returns. *)
Lemma rotation_offset_counterexample :
  exists bone keyframes,
    read_bone (ext := concrete_externals) flagged_bone 0 LittleEndian THESIMS3
      [] flagged_stream 60
    = Ok (bone, 32)
    /\ read_i flagged_bone LittleEndian 0 = Ok (-32, 4)
    /\ rotation_keyframes bone = keyframes
    /\ decompress_quaternion_keyframes flagged_stream (-33) 60 THESIMS3
       = Ok keyframes
    /\ decompress_quaternion_keyframes flagged_stream (-32) 60 THESIMS3
       <> Ok keyframes
    /\ decompress_quaternion_1_dof_keyframes (ext := concrete_externals)
         flagged_stream (-32) 60
       <> Ok keyframes.
Proof.
  eexists. eexists.
  split; [vm_compute; reflexivity |].
  split; [vm_compute; reflexivity |].
  split; [vm_compute; reflexivity |].
  split; [vm_compute; reflexivity |].
  split; vm_compute; discriminate.
Qed.

(** ** The exceptions of the decoders *)

Create HintDb raises.

Ltac foreseen_now := solve [left; reflexivity | right; reflexivity].

Ltac inv_raise :=
  repeat match goal with
    | H : Ok _ = Raise _ |- _ => discriminate H
    | H : Raise _ = Raise _ |- _ => injection H as <-
    | H : bind ?c _ = Raise _ |- _ =>
        let E := fresh "E" in
        destruct c eqn:E; cbn [bind] in H; cbn beta iota zeta in H
    | H : (let '(_, _) := ?p in _) = Raise _ |- _ => destruct p
    | H : (if ?b then _ else _) = Raise _ |- _ =>
        let E := fresh "E" in destruct b eqn:E
    end;
  try foreseen_now; eauto with raises.

Lemma get_bit_raises (s : BitArray.t) (i : Z) (e : exn) :
  BitArray.get_bit s i = Raise e -> foreseen e.
Proof. unfold BitArray.get_bit. intros H. inv_raise. Qed.

Lemma get_bits_unsigned_raises (s : BitArray.t) (i w : Z) (e : exn) :
  BitArray.get_bits_unsigned s i w = Raise e -> foreseen e.
Proof. unfold BitArray.get_bits_unsigned. intros H. inv_raise. Qed.

#[local] Hint Resolve get_bit_raises get_bits_unsigned_raises : raises.

Lemma get_bits_signed_raises (s : BitArray.t) (i w : Z) (e : exn) :
  BitArray.get_bits_signed s i w = Raise e -> foreseen e.
Proof. unfold BitArray.get_bits_signed. intros H. inv_raise. Qed.

Lemma get_float_raises (s : BitArray.t) (i : Z) (e : exn) :
  BitArray.get_float s i = Raise e -> foreseen e.
Proof. unfold BitArray.get_float. intros H. inv_raise. Qed.

Lemma one_over_raises (d : float) (e : exn) :
  BitArray.one_over d = Raise e -> foreseen e.
Proof. unfold BitArray.one_over. intros H. inv_raise. Qed.

#[local] Hint Resolve get_bits_signed_raises get_float_raises one_over_raises
  : raises.

Lemma signed_scaler_raises (w : Z) (e : exn) :
  BitArray.signed_bits_to_float_scaler w = Raise e -> foreseen e.
Proof. unfold BitArray.signed_bits_to_float_scaler. eauto with raises. Qed.

Lemma unsigned_scaler_raises (w : Z) (e : exn) :
  BitArray.unsigned_bits_to_float_scaler w = Raise e -> foreseen e.
Proof. unfold BitArray.unsigned_bits_to_float_scaler. eauto with raises. Qed.

#[local] Hint Resolve signed_scaler_raises unsigned_scaler_raises : raises.

Lemma bias_scale_of_raises (bb : Z) (e : exn) :
  bias_scale_of bb = Raise e -> foreseen e.
Proof. unfold bias_scale_of. intros H. inv_raise. Qed.

Lemma read_bias_signed_guarded_raises (s : BitArray.t) (bs : float)
    (bb index : Z) (e : exn) :
  read_bias_signed_guarded s bs bb index = Raise e -> foreseen e.
Proof. unfold read_bias_signed_guarded. intros H. inv_raise. Qed.

Lemma read_bias_unsigned_guarded_raises (s : BitArray.t) (bs : float)
    (bb index : Z) (e : exn) :
  read_bias_unsigned_guarded s bs bb index = Raise e -> foreseen e.
Proof. unfold read_bias_unsigned_guarded. intros H. inv_raise. Qed.

Lemma read_quat_components_raises (s : BitArray.t) (qs : float) (q : Z)
    (range : list nat) (e : exn) :
  forall quat index,
    read_quat_components s qs q range quat index = Raise e -> foreseen e.
Proof.
  induction range as [| i range IH]; intros quat index H;
    cbn [read_quat_components] in H; inv_raise.
Qed.

#[local] Hint Resolve bias_scale_of_raises read_bias_signed_guarded_raises
  read_bias_unsigned_guarded_raises read_quat_components_raises : raises.

Lemma quaternion_keyframe_raises (s : BitArray.t) (gt : GameType)
    (dt bb : Z) (bs : float) (q : Z) (qs : float) (index : Z) (e : exn) :
  quaternion_keyframe s gt dt bb bs q qs index = Raise e -> foreseen e.
Proof. unfold quaternion_keyframe. intros H. inv_raise. Qed.

Lemma keyframe_loop_raises {V K : Type}
    (body : Z -> res (Z * float * V * Z)) (mk : Z -> float -> V -> K)
    (m : Z) (e : exn) :
  (forall index e', body index = Raise e' -> foreseen e') ->
  forall count index frame_count,
    keyframe_loop body mk m count index frame_count = Raise e -> foreseen e.
Proof.
  intros Hbody. induction count as [| count IH]; intros index frame_count H;
    cbn [keyframe_loop] in H; [discriminate H |].
  destruct (body index) as [[[[d b] v] i] | e'] eqn:E; cbn [bind] in H.
  - cbn beta iota zeta in H.
    destruct (keyframe_loop body mk m count i (frame_count + (d + 1)))
      eqn:E'; cbn [bind] in H; [discriminate H |].
    injection H as <-. eapply IH. exact E'.
  - injection H as <-. eapply Hbody. exact E.
Qed.

Lemma decompress_quaternion_keyframes_raises (s : BitArray.t) (index : Z)
    (fps : float) (gt : GameType) (e : exn) :
  decompress_quaternion_keyframes s index fps gt = Raise e -> foreseen e.
Proof.
  unfold decompress_quaternion_keyframes. intros H. inv_raise.
  rewrite quaternion_keyframes_loop in H.
  eapply keyframe_loop_raises; [| exact H].
  intros i e'. apply quaternion_keyframe_raises.
Qed.

Lemma math_sin_raises {ext : Externals} (x : float) (e : exn) :
  math_sin x = Raise e -> foreseen e.
Proof. unfold math_sin. intros H. inv_raise. Qed.

Lemma math_cos_raises {ext : Externals} (x : float) (e : exn) :
  math_cos x = Raise e -> foreseen e.
Proof. unfold math_cos. intros H. inv_raise. Qed.

#[local] Hint Resolve math_sin_raises math_cos_raises : raises.

Lemma quaternion_1_dof_keyframe_raises {ext : Externals} (s : BitArray.t)
    (x y z : float) (dt bb : Z) (bs : float) (eb : Z) (es eo : float)
    (index : Z) (e : exn) :
  quaternion_1_dof_keyframe s x y z dt bb bs eb es eo index = Raise e ->
  foreseen e.
Proof. unfold quaternion_1_dof_keyframe. intros H. inv_raise. Qed.

Lemma decompress_quaternion_1_dof_keyframes_raises {ext : Externals}
    (s : BitArray.t) (index : Z) (fps : float) (e : exn) :
  decompress_quaternion_1_dof_keyframes s index fps = Raise e -> foreseen e.
Proof.
  unfold decompress_quaternion_1_dof_keyframes. intros H. inv_raise.
  all: rewrite quaternion_1_dof_keyframes_loop in H.
  all: eapply keyframe_loop_raises; [| exact H].
  all: intros i e'; apply quaternion_1_dof_keyframe_raises.
Qed.

(** A component of width below 32 is read as an integer, which
    [ctypes.c_int32] and the bit operations accept. *)
Lemma vector_component_raises (s : BitArray.t) (vb : Z)
    (scale offset : list float) (i : nat) (index : Z) (e : exn) :
  (vb =? 32) = false ->
  vector_component s vb scale offset i index = Raise e -> foreseen e.
Proof.
  unfold vector_component. intros Hvb H. rewrite Hvb in H.
  destruct (BitArray.get_bits_unsigned s index vb) as [u | e'] eqn:E;
    cbn [bind c_int32] in H.
  - destruct (_ <? 0); cbn [bind low_bit_or_shift] in H; discriminate H.
  - injection H as <-. eauto with raises.
Qed.

Lemma read_vector_components_raises (s : BitArray.t) (vb : Z)
    (scale offset : list float) (range : list nat) (e : exn) :
  (vb =? 32) = false ->
  forall vector index,
    read_vector_components s vb scale offset range vector index = Raise e ->
    foreseen e.
Proof.
  intros Hvb. induction range as [| i range IH]; intros vector index H;
    cbn [read_vector_components] in H; [discriminate H |].
  destruct (vector_component s vb scale offset i index) eqn:E;
    cbn [bind] in H.
  - eapply IH. exact H.
  - injection H as <-. eapply vector_component_raises; eassumption.
Qed.

Lemma read_scale_offset_raises (s : BitArray.t) (vs : float)
    (range : list nat) (e : exn) :
  forall scale offset index,
    read_scale_offset s vs range scale offset index = Raise e -> foreseen e.
Proof.
  induction range as [| i range IH]; intros scale offset index H;
    cbn [read_scale_offset] in H; inv_raise.
Qed.

Lemma vector_keyframe_raises (s : BitArray.t) (gt : GameType)
    (dt bb : Z) (bs : float) (vb : Z) (scale offset : list float)
    (index : Z) (e : exn) :
  (vb =? 32) = false ->
  vector_keyframe s gt dt bb bs vb scale offset index = Raise e -> foreseen e.
Proof.
  unfold vector_keyframe. intros Hvb H. inv_raise.
  eapply read_vector_components_raises; eassumption.
Qed.

(** No stream makes the vector decoder raise [TypeError]: the width
    is a 5-bit field, so the float branch is never taken. *)
Lemma decompress_vector_keyframes_raises (s : BitArray.t) (index : Z)
    (fps : float) (gt : GameType) (e : exn) :
  decompress_vector_keyframes s index fps gt = Raise e -> foreseen e.
Proof.
  unfold decompress_vector_keyframes. intros H.
  unfold vector_scale_of in H.
  pose proof read_scale_offset_raises as Hso. inv_raise.
  rewrite vector_keyframes_loop in H.
  eapply keyframe_loop_raises; [| exact H].
  intros i e'. apply vector_keyframe_raises.
  match goal with
  | Hv : BitArray.get_bits_unsigned _ (_ + 5 + 5) 5 = Ok _ |- _ =>
      apply get_bits_unsigned_range in Hv; change (2 ^ 5) with 32 in Hv;
      apply Z.eqb_neq; lia
  end.
Qed.

(** ** The exceptions of the reader *)

Lemma unpack_I_raises (e : Endianness) (bytes : list Byte.byte) (x : exn) :
  unpack_I e bytes = Raise x -> foreseen x.
Proof. unfold unpack_I. intros H. inv_raise. Qed.

#[local] Hint Resolve unpack_I_raises : raises.

Lemma read_I_raises (content : list Byte.byte) (e : Endianness) (pos : Z)
    (x : exn) :
  read_I content e pos = Raise x -> foreseen x.
Proof. unfold read_I. intros H. inv_raise. Qed.

Lemma read_i_raises (content : list Byte.byte) (e : Endianness) (pos : Z)
    (x : exn) :
  read_i content e pos = Raise x -> foreseen x.
Proof. unfold read_i, unpack_i. intros H. inv_raise. Qed.

Lemma read_f_raises (content : list Byte.byte) (e : Endianness) (pos : Z)
    (x : exn) :
  read_f content e pos = Raise x -> foreseen x.
Proof. unfold read_f, unpack_f. intros H. inv_raise. Qed.

Lemma read_B_raises (content : list Byte.byte) (e : Endianness) (pos : Z)
    (x : exn) :
  read_B content e pos = Raise x -> foreseen x.
Proof.
  unfold read_B, unpack_B. intros H.
  destruct (file_read content pos 1) as [[| b [| b' bytes]] p];
    cbn [bind] in H; inv_raise.
Qed.

Lemma static_item_raises (static_data : list float) (i : Z) (x : exn) :
  static_item static_data i = Raise x -> foreseen x.
Proof.
  unfold static_item. destruct (nth_error _ _); intros H; inv_raise.
Qed.

Lemma new_Vector_raises (seq : list float) (x : exn) :
  new_Vector seq = Raise x -> foreseen x.
Proof. unfold new_Vector. intros H. inv_raise. Qed.

#[local] Hint Resolve read_I_raises read_i_raises read_f_raises read_B_raises
  static_item_raises new_Vector_raises decompress_quaternion_keyframes_raises
  decompress_quaternion_1_dof_keyframes_raises
  decompress_vector_keyframes_raises : raises.

Lemma resolve_rotation_raises {ext : Externals} (gt : GameType)
    (static_data : list float) (s : BitArray.t) (fps : float) (ri : Z)
    (x : exn) :
  resolve_rotation gt static_data s fps ri = Raise x -> foreseen x.
Proof. unfold resolve_rotation. intros H. inv_raise. Qed.

Lemma resolve_vector_raises {ext : Externals} (default : list float)
    (gt : GameType) (static_data : list float) (s : BitArray.t) (fps : float)
    (index : Z) (x : exn) :
  resolve_vector default gt static_data s fps index = Raise x -> foreseen x.
Proof. unfold resolve_vector. intros H. inv_raise. Qed.

#[local] Hint Resolve resolve_rotation_raises resolve_vector_raises : raises.

Lemma read_bone_raises {ext : Externals} (content : list Byte.byte) (pos : Z)
    (e : Endianness) (gt : GameType) (static_data : list float)
    (s : BitArray.t) (fps : float) (x : exn) :
  read_bone content pos e gt static_data s fps = Raise x -> foreseen x.
Proof. unfold read_bone. intros H. inv_raise. Qed.

Lemma read_bones_raises {ext : Externals} (content : list Byte.byte)
    (e : Endianness) (gt : GameType) (static_data : list float)
    (s : BitArray.t) (fps : float) (count : nat) (x : exn) :
  forall pos,
    read_bones content e gt static_data s fps count pos = Raise x ->
    foreseen x.
Proof.
  pose proof read_bone_raises as Hbone.
  induction count as [| count IH]; intros pos H; cbn [read_bones] in H;
    inv_raise.
Qed.

Lemma read_floats_raises (content : list Byte.byte) (e : Endianness)
    (count : nat) (x : exn) :
  forall pos, read_floats content e count pos = Raise x -> foreseen x.
Proof.
  induction count as [| count IH]; intros pos H; cbn [read_floats] in H;
    inv_raise.
Qed.

Lemma read_words_raises (content : list Byte.byte) (e : Endianness)
    (count : nat) (x : exn) :
  forall pos, read_words content e count pos = Raise x -> foreseen x.
Proof.
  induction count as [| count IH]; intros pos H; cbn [read_words] in H;
    inv_raise.
Qed.

Lemma read_sounds_raises {ext : Externals} (content : list Byte.byte)
    (count : nat) (x : exn) :
  reader_raises_foreseen ext ->
  forall pos, read_sounds content count pos = Raise x -> foreseen x.
Proof.
  intros Hext.
  induction count as [| count IH]; intros pos H; cbn [read_sounds] in H;
    inv_raise.
Qed.

Lemma read_animation_raises {ext : Externals} (content : list Byte.byte)
    (pos : Z) (e : Endianness) (gt : GameType) (x : exn) :
  reader_raises_foreseen ext ->
  read_animation content pos e gt = Raise x -> foreseen x.
Proof.
  intros Hext. unfold read_animation. intros H.
  pose proof read_floats_raises as Hfloats.
  pose proof read_words_raises as Hwords.
  pose proof read_bones_raises as Hbones.
  pose proof (fun c n x => read_sounds_raises c n x Hext) as Hsounds.
  inv_raise.
  all: destruct gt; inv_raise.
Qed.

Lemma foreseen_caught (e : exn) :
  foreseen e -> (if caught e then Raise FileReadError else Raise e)
                = Raise (A := Animation) FileReadError.
Proof. intros [H | ->]; [rewrite H |]; reflexivity. Qed.

(** ** The end of the file *)

Lemma Ok_pair_inv {A B : Type} (a a' : A) (b b' : B) :
  Ok (a, b) = Ok (a', b') -> a = a' /\ b = b'.
Proof. intros H. inversion H. split; reflexivity. Qed.

Ltac inv_ok H :=
  repeat (first
    [ inv_bind H
    | match type of H with
      | context [let '(_, _) := ?p in _] =>
          first [ is_var p; destruct p
                | let E := fresh "E" in destruct p eqn:E ]
      end ]; cbv beta iota zeta in H).

(** A successful [read_animation] ends with a complete 4-byte block. *)
Lemma read_animation_final_block {ext : Externals}
    (content : list Byte.byte) (pos : Z) (e : Endianness) (gt : GameType)
    (a : Animation) (pos' : Z) :
  read_animation content pos e gt = Ok (a, pos') ->
  exists p0,
    pos' = p0 + 4 /\ length (fst (file_read content p0 4)) = 4%nat.
Proof.
  unfold read_animation. intros H. inv_ok H.
  match type of H with
  | (if negb (length ?b =? 4)%nat then _ else _) = _ =>
      destruct (length b =? 4)%nat eqn:Hlen; cbn [negb] in H;
      [| discriminate H]
  end.
  injection H as _ <-. apply Nat.eqb_eq in Hlen.
  match goal with
  | E : file_read content ?p 4 = (_, _) |- _ =>
      exists p; pose proof (file_read_pos content p 4) as Hp;
      rewrite E in *; cbn [fst snd] in *; split; [lia | exact Hlen]
  end.
Qed.

Lemma full_block_in_file (content : list Byte.byte) (p0 : Z) :
  length (fst (file_read content p0 4)) = 4%nat ->
  p0 + 4 <= Z.of_nat (length content) /\ 4 <= Z.of_nat (length content).
Proof.
  unfold file_read. cbn [fst]. rewrite length_firstn, length_skipn.
  change (Z.to_nat 4) with 4%nat. lia.
Qed.

Lemma no_byte_left (content : list Byte.byte) (pos : Z) :
  length (fst (file_read content pos 1)) = 0%nat ->
  (length content <= Z.to_nat pos)%nat.
Proof.
  unfold file_read. cbn [fst]. rewrite length_firstn, length_skipn.
  change (Z.to_nat 1) with 1%nat. lia.
Qed.

Lemma byte_left (content : list Byte.byte) (pos : Z) :
  (Z.to_nat pos < length content)%nat ->
  (length (fst (file_read content pos 1)) =? 0)%nat = false.
Proof.
  intros H. apply Nat.eqb_neq.
  unfold file_read. cbn [fst]. rewrite length_firstn, length_skipn.
  change (Z.to_nat 1) with 1%nat. lia.
Qed.

Lemma read_file_Ok {ext : Externals} (file : option (list Byte.byte))
    (gt : GameType) (e : Endianness) (a : Animation) :
  read_file file gt e = Ok a ->
  exists content,
    file = Some content
    /\ read_animation content 0 e gt
       = Ok (a, Z.of_nat (length content)).
Proof.
  unfold read_file. destruct file as [content |].
  2:{ cbn. discriminate. }
  destruct (read_animation content 0 e gt) as [[a' pos'] | x] eqn:E;
    cbn [bind].
  2:{ destruct (caught x); discriminate. }
  destruct (length (fst (file_read content pos' 1)) =? 0)%nat eqn:E1;
    cbn [negb]; [| cbn; discriminate].
  intros H. injection H as ->. exists content. split; [reflexivity |].
  apply Nat.eqb_eq, no_byte_left in E1.
  destruct (read_animation_final_block _ _ _ _ _ _ E) as (p0 & -> & Hb).
  apply full_block_in_file in Hb.
  replace (p0 + 4) with (Z.of_nat (length content)) in E by lia. exact E.
Qed.

(** C10.  A successful [read_animation] has read a complete final
    4-byte block, which lies within the file; when [read_animation]
    returns before the end of the file, [read_file] raises
    [FileReadError]; so a successful [read_file] has consumed the file
    exactly.  On the sample file, dropping the last byte or adding one
    byte makes [read_file] raise [FileReadError]. *)
Theorem successful_read_consumes_file {ext : Externals} :
  (forall content pos e gt a pos',
      read_animation content pos e gt = Ok (a, pos') ->
      exists p0,
        pos' = p0 + 4
        /\ length (fst (file_read content p0 4)) = 4%nat
        /\ pos' <= Z.of_nat (length content))
  /\ (forall content e gt a pos',
         read_animation content 0 e gt = Ok (a, pos') ->
         pos' <> Z.of_nat (length content) ->
         read_file (Some content) gt e = Raise FileReadError)
  /\ (forall file gt e a,
         read_file file gt e = Ok a ->
         exists content,
           file = Some content
           /\ read_animation content 0 e gt
              = Ok (a, Z.of_nat (length content)))
  /\ read_file (ext := concrete_externals)
       (Some (removelast sims_file)) THESIMS LittleEndian
     = Raise FileReadError
  /\ read_file (ext := concrete_externals)
       (Some (sims_file ++ [Byte.x00])) THESIMS LittleEndian
     = Raise FileReadError.
Proof.
  split; [| split; [| split; [| split]]].
  - intros content pos e gt a pos' H.
    destruct (read_animation_final_block _ _ _ _ _ _ H) as (p0 & -> & Hb).
    exists p0. repeat split; [exact Hb |].
    now apply full_block_in_file.
  - intros content e gt a pos' H Hne.
    destruct (read_animation_final_block _ _ _ _ _ _ H) as (p0 & -> & Hb).
    apply full_block_in_file in Hb.
    unfold read_file. rewrite H. cbn [bind].
    rewrite byte_left by lia. reflexivity.
  - intros file gt e a. apply read_file_Ok.
  - vm_compute. reflexivity.
  - vm_compute. reflexivity.
Qed.

Lemma successful_read_consumes_file_witness :
  exists a,
    read_file (ext := concrete_externals) (Some sims_file) THESIMS
      LittleEndian = Ok a
    /\ exists content,
         Some sims_file = Some content
         /\ read_animation (ext := concrete_externals) content 0 LittleEndian
              THESIMS
            = Ok (a, Z.of_nat (length content)).
Proof.
  eexists. split; [vm_compute; reflexivity |].
  apply (proj1 (proj2 (proj2 (successful_read_consumes_file
                                (ext := concrete_externals))))
           (Some sims_file) THESIMS LittleEndian).
  vm_compute. reflexivity.
Defined.

(** ** Positions *)

Lemma be_value_nonneg (bytes : list Byte.byte) : 0 <= be_value bytes.
Proof.
  unfold be_value.
  assert (H : forall acc, 0 <= acc ->
              0 <= fold_left (fun acc b => 256 * acc + byte_value b) bytes acc).
  { induction bytes as [| b bytes IH]; intros acc Hacc; cbn [fold_left].
    - exact Hacc.
    - apply IH. unfold byte_value.
      pose proof (N2Z.is_nonneg (Byte.to_N b)). lia. }
  apply H. lia.
Qed.

Lemma read_I_nonneg (content : list Byte.byte) (e : Endianness)
    (pos v pos' : Z) :
  read_I content e pos = Ok (v, pos') -> 0 <= v.
Proof.
  unfold read_I, unpack_I. destruct (file_read content pos 4) as [bytes p].
  intros H. inv_bind H. injection H as <- _.
  destruct (length bytes =? 4)%nat; [| discriminate E].
  injection E as <-. apply be_value_nonneg.
Qed.

Lemma file_read_snd_ge (content : list Byte.byte) (pos n : Z) :
  pos <= snd (file_read content pos n).
Proof. unfold file_read. cbn [snd]. lia. Qed.

Lemma file_read_snd_le (content : list Byte.byte) (pos n : Z) :
  0 <= n -> snd (file_read content pos n) <= pos + n.
Proof.
  intros Hn. unfold file_read. cbn [snd]. rewrite length_firstn. lia.
Qed.

(** A read that ends within the first [L] bytes does not see the rest
    of the file. *)
Lemma file_read_trunc (content : list Byte.byte) (pos n : Z) (L : nat) :
  0 <= pos -> (L <= length content)%nat ->
  snd (file_read content pos n) <= Z.of_nat L ->
  file_read (firstn L content) pos n = file_read content pos n.
Proof.
  unfold file_read. cbn [snd]. intros Hpos HL Hend.
  assert (Hb : firstn (Z.to_nat n) (skipn (Z.to_nat pos) (firstn L content))
               = firstn (Z.to_nat n) (skipn (Z.to_nat pos) content)).
  { rewrite skipn_firstn_comm, firstn_firstn.
    rewrite length_firstn, length_skipn in Hend.
    destruct (Nat.le_gt_cases (Z.to_nat n) (L - Z.to_nat pos)) as [Hle | Hgt].
    - now rewrite Nat.min_l.
    - rewrite Nat.min_r by lia.
      rewrite !firstn_all2; [reflexivity | |]; rewrite length_skipn; lia. }
  now rewrite Hb.
Qed.

(** A read that starts less than 4 bytes before the end of the file is
    short. *)
Lemma short_block (content : list Byte.byte) (pos : Z) :
  0 <= pos -> Z.of_nat (length content) < pos + 4 ->
  (length (fst (file_read content pos 4)) =? 4)%nat = false.
Proof.
  intros Hpos Hlen. apply Nat.eqb_neq.
  unfold file_read. cbn [fst]. rewrite length_firstn, length_skipn.
  change (Z.to_nat 4) with 4%nat. lia.
Qed.

Lemma read_I_trunc (content : list Byte.byte) (e : Endianness)
    (pos v pos' : Z) (L : nat) :
  read_I content e pos = Ok (v, pos') ->
  0 <= pos -> (L <= length content)%nat -> pos' <= Z.of_nat L ->
  read_I (firstn L content) e pos = Ok (v, pos').
Proof.
  intros H Hpos HL Hend. pose proof (read_I_pos _ _ _ _ _ H) as [-> _].
  unfold read_I in *. rewrite file_read_trunc; try assumption.
  pose proof (file_read_snd_le content pos 4 ltac:(lia)). lia.
Qed.

Lemma read_i_trunc (content : list Byte.byte) (e : Endianness)
    (pos v pos' : Z) (L : nat) :
  read_i content e pos = Ok (v, pos') ->
  0 <= pos -> (L <= length content)%nat -> pos' <= Z.of_nat L ->
  read_i (firstn L content) e pos = Ok (v, pos').
Proof.
  intros H Hpos HL Hend. pose proof (read_i_pos _ _ _ _ _ H) as [-> _].
  unfold read_i in *. rewrite file_read_trunc; try assumption.
  pose proof (file_read_snd_le content pos 4 ltac:(lia)). lia.
Qed.

Lemma read_f_trunc (content : list Byte.byte) (e : Endianness)
    (pos : Z) (v : float) (pos' : Z) (L : nat) :
  read_f content e pos = Ok (v, pos') ->
  0 <= pos -> (L <= length content)%nat -> pos' <= Z.of_nat L ->
  read_f (firstn L content) e pos = Ok (v, pos').
Proof.
  intros H Hpos HL Hend. pose proof (read_f_pos _ _ _ _ _ H) as [-> _].
  unfold read_f in *. rewrite file_read_trunc; try assumption.
  pose proof (file_read_snd_le content pos 4 ltac:(lia)). lia.
Qed.

Lemma read_B_trunc (content : list Byte.byte) (e : Endianness)
    (pos v pos' : Z) (L : nat) :
  read_B content e pos = Ok (v, pos') ->
  0 <= pos -> (L <= length content)%nat -> pos' <= Z.of_nat L ->
  read_B (firstn L content) e pos = Ok (v, pos').
Proof.
  intros H Hpos HL Hend. pose proof (read_B_pos _ _ _ _ _ H) as [-> _].
  unfold read_B in *. rewrite file_read_trunc; try assumption.
  pose proof (file_read_snd_le content pos 1 ltac:(lia)). lia.
Qed.

Lemma read_floats_pos (content : list Byte.byte) (e : Endianness)
    (count : nat) :
  forall pos fs pos',
    read_floats content e count pos = Ok (fs, pos') -> pos <= pos'.
Proof.
  induction count as [| count IH]; intros pos fs pos' H; cbn [read_floats] in H.
  - injection H as _ <-. lia.
  - inv_ok H. injection H as _ <-.
    apply read_f_pos in E. apply IH in E0. lia.
Qed.

Lemma read_floats_trunc (content : list Byte.byte) (e : Endianness)
    (L : nat) (count : nat) :
  forall pos fs pos',
    read_floats content e count pos = Ok (fs, pos') ->
    0 <= pos -> (L <= length content)%nat -> pos' <= Z.of_nat L ->
    read_floats (firstn L content) e count pos = Ok (fs, pos').
Proof.
  induction count as [| count IH]; intros pos fs pos' H Hpos HL Hend;
    cbn [read_floats] in *; [exact H |].
  inv_ok H. injection H as <- <-.
  pose proof (read_f_pos _ _ _ _ _ E) as [Hz _].
  pose proof (read_floats_pos _ _ _ _ _ _ E0).
  rewrite (read_f_trunc _ _ _ _ _ L E) by lia. cbn [bind].
  rewrite (IH _ _ _ E0) by lia. reflexivity.
Qed.

Lemma read_words_pos (content : list Byte.byte) (e : Endianness)
    (count : nat) :
  forall pos ws pos',
    read_words content e count pos = Ok (ws, pos') -> pos <= pos'.
Proof.
  induction count as [| count IH]; intros pos ws pos' H; cbn [read_words] in H.
  - injection H as _ <-. lia.
  - inv_ok H. injection H as _ <-.
    apply read_I_pos in E. apply IH in E0. lia.
Qed.

Lemma read_words_trunc (content : list Byte.byte) (e : Endianness)
    (L : nat) (count : nat) :
  forall pos ws pos',
    read_words content e count pos = Ok (ws, pos') ->
    0 <= pos -> (L <= length content)%nat -> pos' <= Z.of_nat L ->
    read_words (firstn L content) e count pos = Ok (ws, pos').
Proof.
  induction count as [| count IH]; intros pos ws pos' H Hpos HL Hend;
    cbn [read_words] in *; [exact H |].
  inv_ok H. injection H as <- <-.
  pose proof (read_I_pos _ _ _ _ _ E) as [Hz _].
  pose proof (read_words_pos _ _ _ _ _ _ E0).
  rewrite (read_I_trunc _ _ _ _ _ L E) by lia. cbn [bind].
  rewrite (IH _ _ _ E0) by lia. reflexivity.
Qed.

Lemma read_bone_pos {ext : Externals} (content : list Byte.byte) (pos : Z)
    (e : Endianness) (gt : GameType) (static_data : list float)
    (s : BitArray.t) (fps : float) (bone : Bone) (pos' : Z) :
  read_bone content pos e gt static_data s fps = Ok (bone, pos') ->
  pos <= pos' <= pos + bone_size gt.
Proof.
  unfold read_bone. intros H. inv_ok H.
  apply Ok_pair_inv in H. destruct H as [_ <-].
  apply read_i_pos in E, E0, E1.
  destruct E as [-> _], E0 as [-> _], E1 as [-> _].
  destruct gt; cbn [bone_padding bone_size];
    try lia;
    match goal with
    | |- context [file_read ?c ?p ?n] =>
        pose proof (file_read_snd_ge c p n);
        pose proof (file_read_snd_le c p n ltac:(lia)); lia
    end.
Qed.

Lemma read_bone_trunc {ext : Externals} (content : list Byte.byte) (pos : Z)
    (e : Endianness) (gt : GameType) (static_data : list float)
    (s : BitArray.t) (fps : float) (bone : Bone) (pos' : Z) (L : nat) :
  read_bone content pos e gt static_data s fps = Ok (bone, pos') ->
  0 <= pos -> (L <= length content)%nat -> pos' <= Z.of_nat L ->
  read_bone (firstn L content) pos e gt static_data s fps = Ok (bone, pos').
Proof.
  intros H Hpos HL Hend. pose proof (read_bone_pos _ _ _ _ _ _ _ _ _ H) as Hb.
  unfold read_bone in *. inv_ok H.
  apply Ok_pair_inv in H. destruct H as [<- <-].
  pose proof (read_i_pos _ _ _ _ _ E) as [Hz _].
  pose proof (read_i_pos _ _ _ _ _ E0) as [Hz0 _].
  pose proof (read_i_pos _ _ _ _ _ E1) as [Hz1 _].
  assert (Hp : z4 <= Z.of_nat L).
  { destruct gt; cbn [bone_padding] in Hend; try lia;
      match type of Hend with
      | context [file_read ?c ?p ?n] =>
          pose proof (file_read_snd_ge c p n); lia
      end. }
  rewrite (read_i_trunc _ _ _ _ _ L E) by lia. cbn [bind].
  rewrite (read_i_trunc _ _ _ _ _ L E0) by lia. cbn [bind].
  rewrite (read_i_trunc _ _ _ _ _ L E1) by lia. cbn [bind].
  rewrite E2, E3, E4. cbn [bind].
  destruct gt; cbn [bone_padding] in *; try reflexivity;
    rewrite file_read_trunc by (try assumption; lia); reflexivity.
Qed.

Lemma read_bones_pos {ext : Externals} (content : list Byte.byte)
    (e : Endianness) (gt : GameType) (static_data : list float)
    (s : BitArray.t) (fps : float) (count : nat) :
  forall pos bones pos',
    read_bones content e gt static_data s fps count pos = Ok (bones, pos') ->
    pos <= pos' <= pos + Z.of_nat count * bone_size gt.
Proof.
  induction count as [| count IH]; intros pos bones pos' H;
    cbn [read_bones] in H.
  - injection H as _ <-. lia.
  - inv_ok H. injection H as _ <-.
    apply read_bone_pos in E. apply IH in E0. lia.
Qed.

Lemma read_bones_trunc {ext : Externals} (content : list Byte.byte)
    (e : Endianness) (gt : GameType) (static_data : list float)
    (s : BitArray.t) (fps : float) (L : nat) (count : nat) :
  forall pos bones pos',
    read_bones content e gt static_data s fps count pos = Ok (bones, pos') ->
    0 <= pos -> (L <= length content)%nat -> pos' <= Z.of_nat L ->
    read_bones (firstn L content) e gt static_data s fps count pos
    = Ok (bones, pos').
Proof.
  induction count as [| count IH]; intros pos bones pos' H Hpos HL Hend;
    cbn [read_bones] in *; [exact H |].
  inv_ok H. injection H as <- <-.
  pose proof (read_bone_pos _ _ _ _ _ _ _ _ _ E).
  pose proof (read_bones_pos _ _ _ _ _ _ _ _ _ _ E0).
  rewrite (read_bone_trunc _ _ _ _ _ _ _ _ _ L E) by lia. cbn [bind].
  rewrite (IH _ _ _ E0) by lia. reflexivity.
Qed.

Lemma read_sounds_pos {ext : Externals} (content : list Byte.byte)
    (count : nat) :
  reader_is_local ext ->
  forall pos pos',
    read_sounds content count pos = Ok pos' -> 0 <= pos -> pos <= pos'.
Proof.
  intros Hext.
  induction count as [| count IH]; intros pos pos' H Hpos;
    cbn [read_sounds] in H.
  - injection H as <-. lia.
  - inv_ok H. pose proof (file_read_snd_ge content pos 8).
    pose proof (Hext _ _ _ _ E ltac:(lia)) as [Hm _].
    apply IH in H; lia.
Qed.

Lemma read_sounds_trunc {ext : Externals} (content : list Byte.byte)
    (L : nat) (count : nat) :
  reader_is_local ext ->
  forall pos pos',
    read_sounds content count pos = Ok pos' ->
    0 <= pos -> (L <= length content)%nat -> pos' <= Z.of_nat L ->
    read_sounds (firstn L content) count pos = Ok pos'.
Proof.
  intros Hext.
  induction count as [| count IH]; intros pos pos' H Hpos HL Hend;
    cbn [read_sounds] in *; [exact H |].
  inv_ok H. pose proof (file_read_snd_ge content pos 8).
  pose proof (Hext _ _ _ _ E ltac:(lia)) as [Hm Hloc].
  pose proof (read_sounds_pos _ _ Hext _ _ H ltac:(lia)).
  rewrite file_read_trunc by (try assumption; lia).
  rewrite Hloc by (try assumption; lia). cbn [bind].
  apply IH; try assumption; lia.
Qed.

(** ** Truncated files *)

Ltac pos_facts Hext E :=
  lazymatch type of E with
  | read_I _ _ _ = Ok (_, _) =>
      pose proof (proj1 (read_I_pos _ _ _ _ _ E));
      pose proof (read_I_nonneg _ _ _ _ _ E)
  | read_f _ _ _ = Ok (_, _) => pose proof (proj1 (read_f_pos _ _ _ _ _ E))
  | read_B _ _ _ = Ok (_, _) => pose proof (proj1 (read_B_pos _ _ _ _ _ E))
  | read_floats _ _ _ _ = Ok (_, _) =>
      pose proof (read_floats_pos _ _ _ _ _ _ E)
  | read_words _ _ _ _ = Ok (_, _) =>
      pose proof (read_words_pos _ _ _ _ _ _ E)
  | read_bones _ _ _ _ _ _ _ _ = Ok (_, _) =>
      let Hb := fresh "Hb" in
      pose proof (read_bones_pos _ _ _ _ _ _ _ _ _ _ E) as Hb;
      cbn [bone_size] in Hb
  | read_sounds _ _ _ = Ok _ =>
      pose proof (read_sounds_pos _ _ Hext _ _ E)
  | read_null_terminated_string _ _ = Ok (_, _) =>
      pose proof (fun h => proj1 (Hext _ _ _ _ E h))
  | _ => idtac
  end.

Ltac inv_deep Hext H :=
  cbv beta iota zeta in H;
  lazymatch type of H with
  | bind ?c _ = Ok _ =>
      let a := fresh "a" in
      let E := fresh "E" in
      destruct c as [a |] eqn:E;
      [ cbn [bind] in H;
        lazymatch type of a with
        | prod _ _ => destruct a as [? ?]
        | _ => idtac
        end;
        inv_deep Hext E; inv_deep Hext H
      | discriminate H ]
  | (let '(_, _) := ?p in _) = _ =>
      first [ is_var p; destruct p
            | let E := fresh "E" in destruct p eqn:E ];
      inv_deep Hext H
  | _ => pos_facts Hext H
  end.

Ltac skip_facts :=
  repeat match goal with
    | _ : context [snd (file_read ?c ?p ?n)] |- _ =>
        lazymatch goal with
        | _ : p <= snd (file_read c p n) |- _ => fail
        | _ => pose proof (file_read_snd_ge c p n)
        end
    end.

Ltac trunc_step Hext L :=
  first
    [ match goal with
      | |- context [file_read (firstn L ?c) ?p ?n] =>
          rewrite (file_read_trunc c p n L) by (try assumption; lia)
      end
    | match goal with
      | E : read_I ?c ?e ?p = Ok _ |- context [read_I (firstn L ?c) ?e ?p] =>
          rewrite (read_I_trunc c e p _ _ L E) by (try assumption; lia)
      | E : read_f ?c ?e ?p = Ok _ |- context [read_f (firstn L ?c) ?e ?p] =>
          rewrite (read_f_trunc c e p _ _ L E) by (try assumption; lia)
      | E : read_B ?c ?e ?p = Ok _ |- context [read_B (firstn L ?c) ?e ?p] =>
          rewrite (read_B_trunc c e p _ _ L E) by (try assumption; lia)
      | E : read_floats ?c ?e ?n ?p = Ok _
        |- context [read_floats (firstn L ?c) ?e ?n ?p] =>
          rewrite (read_floats_trunc c e L n p _ _ E)
            by (try assumption; lia)
      | E : read_words ?c ?e ?n ?p = Ok _
        |- context [read_words (firstn L ?c) ?e ?n ?p] =>
          rewrite (read_words_trunc c e L n p _ _ E)
            by (try assumption; lia)
      | E : read_bones ?c ?e ?gt ?sd ?s ?fps ?n ?p = Ok _
        |- context [read_bones (firstn L ?c) ?e ?gt ?sd ?s ?fps ?n ?p] =>
          rewrite (read_bones_trunc c e gt sd s fps L n p _ _ E)
            by (try assumption; lia)
      | E : read_sounds ?c ?n ?p = Ok _
        |- context [read_sounds (firstn L ?c) ?n ?p] =>
          rewrite (read_sounds_trunc c L n Hext p _ E)
            by (try assumption; lia)
      | E : read_null_terminated_string ?c ?p = Ok _
        |- context [read_null_terminated_string (firstn L ?c) ?p] =>
          rewrite (proj2 (Hext c p _ _ E ltac:(lia)) L)
            by (try assumption; lia)
      end ];
  cbn [bind]; cbv beta iota zeta.

Ltac trunc_case :=
  match goal with
  | Hext : reader_is_local _, HL : (?L <= length ?content)%nat,
    H : _ = Ok (_, _) |- _ = Raise FileReadError =>
      inv_deep Hext H;
      match type of H with
      | (if negb (length ?b =? 4)%nat then _ else _) = _ =>
          let Hlen := fresh "Hlen" in
          destruct (length b =? 4)%nat eqn:Hlen; cbn [negb] in H;
          [ apply Nat.eqb_eq in Hlen | discriminate H ]
      end;
      apply Ok_pair_inv in H; destruct H as [_ <-];
      match goal with
      | E : file_read content ?p 4 = (_, _) |- _ =>
          let Hp := fresh "Hp" in
          pose proof (file_read_pos content p 4) as Hp;
          rewrite E in Hp; cbn [fst snd] in Hp
      end;
      skip_facts;
      repeat trunc_step Hext L;
      match goal with
      | |- context [file_read (firstn L content) ?p 4] =>
          let Hs := fresh "Hs" in
          pose proof (short_block (firstn L content) p) as Hs;
          rewrite length_firstn in Hs;
          destruct (file_read (firstn L content) p 4) as [bytes' p'];
          cbn [fst] in Hs; rewrite Hs by lia; reflexivity
      end
  end.

(** A file cut within its final 4-byte block is refused. *)
Lemma read_animation_trunc {ext : Externals} (content : list Byte.byte)
    (e : Endianness) (gt : GameType) (a : Animation) (pos' : Z) (L : nat) :
  reader_is_local ext ->
  read_animation content 0 e gt = Ok (a, pos') ->
  (L <= length content)%nat -> pos' - 4 <= Z.of_nat L < pos' ->
  read_animation (firstn L content) 0 e gt = Raise FileReadError.
Proof.
  intros Hext H HL HLp.
  unfold read_animation in H |- *.
  destruct gt;
    cbv beta iota zeta delta [bone_size in_pets_castaway_sims3] in H |- *.
  - trunc_case.
  - trunc_case.
  - trunc_case.
  - trunc_case.
  - trunc_case.
  - trunc_case.
  - trunc_case.
Qed.

(** ** The concrete string reader *)

Lemma until_zero_firstn (bytes : list Byte.byte) :
  forall found m,
    until_zero bytes = Some found -> (length found + 1 <= m)%nat ->
    until_zero (firstn m bytes) = Some found.
Proof.
  induction bytes as [| b bytes IH]; intros found m H Hm; cbn in H;
    [discriminate H |].
  destruct m as [| m]; [lia |]. cbn [firstn until_zero].
  destruct (byte_value b =? 0); [exact H |].
  destruct (until_zero bytes) as [found' |] eqn:E; [| discriminate H].
  cbn in H. injection H as <-. cbn [length] in Hm.
  rewrite (IH found' m eq_refl) by lia. reflexivity.
Qed.

Lemma concrete_reader_raises_foreseen :
  reader_raises_foreseen concrete_externals.
Proof.
  intros content pos e. cbn. unfold read_until_zero.
  destruct (until_zero _); intros H; [discriminate H |].
  injection H as <-. left. reflexivity.
Qed.

Lemma concrete_reader_is_local : reader_is_local concrete_externals.
Proof.
  intros content pos s pos'. cbn. unfold read_until_zero.
  destruct (until_zero (skipn (Z.to_nat pos) content)) as [found |] eqn:E;
    intros H Hpos; [| discriminate H].
  apply Ok_pair_inv in H. destruct H as [<- <-].
  split; [lia |]. intros L HL Hend.
  rewrite skipn_firstn_comm.
  rewrite (until_zero_firstn _ _ _ E) by lia. reflexivity.
Qed.

(** ** The failure surface of read_file *)

(** C8.  [read_file] either returns the Animation that
    [read_animation] built from the whole file or raises
    [FileReadError]: no other exception escapes, also when the file
    cannot be opened; this holds as soon as the external string reader
    raises only exceptions of the [except] clause or [FileReadError].
    And a file that reads successfully is refused with [FileReadError]
    once it is cut anywhere within its final 4-byte block, as soon as
    the external string reader is local. *)
Theorem read_file_fails_with_FileReadError {ext : Externals}
    (file : option (list Byte.byte)) (gt : GameType) (e : Endianness) :
  (reader_raises_foreseen ext ->
   (exists a content,
       file = Some content
       /\ read_animation content 0 e gt = Ok (a, Z.of_nat (length content))
       /\ read_file file gt e = Ok a)
   \/ read_file file gt e = Raise FileReadError)
  /\ (file = None -> read_file file gt e = Raise FileReadError)
  /\ (reader_is_local ext ->
      forall content a L,
        file = Some content ->
        read_file file gt e = Ok a ->
        (length content - 4 <= L < length content)%nat ->
        read_file (Some (firstn L content)) gt e = Raise FileReadError).
Proof.
  split; [| split].
  - intros Hraise.
    destruct (read_file file gt e) as [a | x] eqn:E.
    + left. destruct (read_file_Ok _ _ _ _ E) as (content & -> & Ha).
      exists a, content. repeat split. exact Ha.
    + right. f_equal. unfold read_file in E.
      destruct file as [content |].
      * destruct (read_animation content 0 e gt) as [[a pos'] | x'] eqn:Ea;
          cbn [bind] in E.
        -- destruct (negb _); [| discriminate E].
           cbn in E. now injection E as <-.
        -- apply (read_animation_raises _ _ _ _ _ Hraise) in Ea.
           rewrite (foreseen_caught _ Ea) in E. now injection E as <-.
      * cbn in E. now injection E as <-.
  - intros ->. reflexivity.
  - intros Hlocal content a L -> H HLen.
    destruct (read_file_Ok _ _ _ _ H) as (content' & Hc & Ha).
    injection Hc as <-.
    unfold read_file.
    rewrite (read_animation_trunc _ _ _ _ _ L Hlocal Ha) by lia.
    reflexivity.
Qed.

Lemma read_file_fails_with_FileReadError_witness :
  reader_raises_foreseen concrete_externals
  /\ reader_is_local concrete_externals
  /\ (exists a,
         read_file (ext := concrete_externals) (Some sims_file) THESIMS
           LittleEndian
         = Ok a)
  /\ ((exists a content,
          Some sims_file = Some content
          /\ read_animation (ext := concrete_externals) content 0 LittleEndian
               THESIMS
             = Ok (a, Z.of_nat (length content))
          /\ read_file (ext := concrete_externals) (Some sims_file) THESIMS
               LittleEndian
             = Ok a)
      \/ read_file (ext := concrete_externals) (Some sims_file) THESIMS
           LittleEndian
         = Raise FileReadError)
  /\ (forall content a L,
         Some sims_file = Some content ->
         read_file (ext := concrete_externals) (Some sims_file) THESIMS
           LittleEndian
         = Ok a ->
         (length content - 4 <= L < length content)%nat ->
         read_file (ext := concrete_externals) (Some (firstn L content))
           THESIMS LittleEndian
         = Raise FileReadError).
Proof.
  split; [exact concrete_reader_raises_foreseen |].
  split; [exact concrete_reader_is_local |].
  split; [eexists; vm_compute; reflexivity |].
  split.
  - exact (proj1 (read_file_fails_with_FileReadError
                    (ext := concrete_externals) (Some sims_file) THESIMS
                    LittleEndian)
             concrete_reader_raises_foreseen).
  - exact (proj2 (proj2 (read_file_fails_with_FileReadError
                           (ext := concrete_externals) (Some sims_file)
                           THESIMS LittleEndian))
             concrete_reader_is_local).
Defined.

(** * Further properties of the decoders *)

(** ** Keyframe counts and frame numbers *)

Lemma running_sum_ge (deltas : list Z) :
  Forall (fun d => 0 <= d) deltas ->
  forall k, (k < length deltas)%nat -> Z.of_nat k + 1 <= running_sum deltas k.
Proof.
  intros HF. induction HF as [| d deltas Hd HF IH]; intros k Hk;
    cbn [length] in Hk; [lia |].
  destruct k as [| k].
  - rewrite running_sum_0. lia.
  - rewrite running_sum_cons. specialize (IH k ltac:(lia)). lia.
Qed.

(** In a decoded sequence keyframe [k] lies at frame
    [(k + 1) * multiplier - 1] or later, and the frames are odd when the
    multiplier is 2. *)
Lemma keyframe_loop_frame_bounds {V K : Type}
    (body : Z -> res (Z * float * V * Z)) (mk : Z -> float -> V -> K)
    (frame_of : K -> Z) (s : BitArray.t) (m width stride : Z)
    (count : nat) (index : Z) (keyframes : list K) :
  (forall f b v, frame_of (mk f b v) = f) ->
  (forall index delta_time bias v index',
      body index = Ok (delta_time, bias, v, index') ->
      BitArray.get_bits_unsigned s index width = Ok delta_time
      /\ index' = index + stride) ->
  keyframe_loop body mk m count index 0 = Ok keyframes ->
  length keyframes = count
  /\ forall k keyframe,
       nth_error keyframes k = Some keyframe ->
       (0 < m -> (Z.of_nat k + 1) * m - 1 <= frame_of keyframe)
       /\ (m = 2 -> Z.odd (frame_of keyframe) = true).
Proof.
  intros Hmk Hbody H.
  destruct (keyframe_loop_frames body mk frame_of m s width stride Hmk Hbody
              _ _ _ _ H) as (deltas & Hds & Hlen & Hnth).
  apply delta_times_nonneg in Hds. destruct Hds as [HF Hl].
  split; [exact Hlen |]. intros k keyframe Hk.
  assert (Hlt : (k < length deltas)%nat).
  { rewrite Hl, <- Hlen. apply nth_error_Some. congruence. }
  pose proof (running_sum_ge deltas HF k Hlt) as Hge.
  rewrite (Hnth _ _ Hk). split.
  - intros Hm. nia.
  - intros ->.
    replace ((0 + running_sum deltas k) * 2 - 1)
      with (1 + 2 * (running_sum deltas k - 1)) by lia.
    apply Z.odd_add_mul_2.
Qed.

(** ** The extent of a channel *)

Lemma get_bits_unsigned_in_range (s : BitArray.t) (i w v : Z) :
  BitArray.get_bits_unsigned s i w = Ok v ->
  0 <= i /\ 0 <= w /\ i + w <= BitArray.bit_count s.
Proof.
  unfold BitArray.get_bits_unsigned.
  destruct (BitArray.in_range s i w) eqn:Hr; [| discriminate].
  intros _. now apply in_range_true.
Qed.

Lemma get_bit_in_range (s : BitArray.t) (i : Z) (b : bool) :
  BitArray.get_bit s i = Ok b -> 0 <= i /\ i + 1 <= BitArray.bit_count s.
Proof.
  unfold BitArray.get_bit.
  destruct (BitArray.in_range s i 1) eqn:Hr; [| discriminate].
  intros _. apply in_range_true in Hr. lia.
Qed.

Lemma get_float_in_range (s : BitArray.t) (i : Z) (f : float) :
  BitArray.get_float s i = Ok f -> 0 <= i /\ i + 32 <= BitArray.bit_count s.
Proof.
  unfold BitArray.get_float. intros H. inv_bind H.
  apply get_bits_unsigned_in_range in E. lia.
Qed.

(** A loop that decodes ends within the stream when each of its rounds
    does. *)
Lemma keyframe_loop_extent {V K : Type}
    (body : Z -> res (Z * float * V * Z)) (mk : Z -> float -> V -> K)
    (s : BitArray.t) (m stride : Z) :
  (forall index delta_time bias v index',
      body index = Ok (delta_time, bias, v, index') ->
      index' = index + stride /\ index' <= BitArray.bit_count s) ->
  forall (count : nat) index frame_count keyframes,
    keyframe_loop body mk m count index frame_count = Ok keyframes ->
    index <= BitArray.bit_count s ->
    length keyframes = count
    /\ index + Z.of_nat count * stride <= BitArray.bit_count s.
Proof.
  intros Hbody.
  induction count as [| count IH]; intros index frame_count keyframes H Hi;
    cbn [keyframe_loop] in H.
  - injection H as <-. split; [reflexivity | lia].
  - inv_bind H. destruct a as [[[delta_time bias] v] index'].
    cbn beta iota zeta in H. inv_bind H. injection H as <-.
    apply Hbody in E. destruct E as [-> Hle].
    apply IH in E0; [| exact Hle]. destruct E0 as [Hlen Hend].
    split; [simpl; congruence | lia].
Qed.

Lemma quaternion_keyframe_extent (s : BitArray.t) (gt : GameType)
    (dt bb : Z) (bs : float) (q : Z) (qs : float)
    (index delta_time : Z) (bias : float) (quat : list float) (index' : Z) :
  quaternion_keyframe s gt dt bb bs q qs index
  = Ok (delta_time, bias, quat, index') ->
  index' = index + quaternion_stride gt dt bb q
  /\ index' <= BitArray.bit_count s.
Proof.
  intros H. pose proof (quaternion_keyframe_delta _ _ _ _ _ _ _ _ _ _ _ _ H)
    as [_ Hi].
  split; [exact Hi |]. subst index'. unfold quaternion_stride.
  destruct (in_pets_castaway_sims3 gt) eqn:Hgt.
  - apply (quaternion_keyframe_newer _ _ _ _ _ _ _ _ _ _ _ _ Hgt) in H.
    destruct H as (v0 & v1 & v2 & negate & _ & _ & _ & Hn & _).
    apply get_bit_in_range in Hn. lia.
  - apply (quaternion_keyframe_older _ _ _ _ _ _ _ _ _ _ _ _ Hgt) in H.
    destruct H as (v0 & v1 & v2 & negate & _ & _ & _ & Hn & _).
    apply get_bit_in_range in Hn. lia.
Qed.

Lemma quaternion_1_dof_keyframe_extent {ext : Externals} (s : BitArray.t)
    (x y z : float) (dt bb : Z) (bs : float) (eb : Z) (es eo : float)
    (index delta_time : Z) (bias : float) (quat : list float) (index' : Z) :
  quaternion_1_dof_keyframe s x y z dt bb bs eb es eo index
  = Ok (delta_time, bias, quat, index') ->
  index' = index + (dt + bb + eb) /\ index' <= BitArray.bit_count s.
Proof.
  intros H.
  pose proof (quaternion_1_dof_keyframe_Ok _ _ _ _ _ _ _ _ _ _ _ _ _ _ _ H)
    as (_ & Hi & _).
  split; [exact Hi |]. subst index'.
  apply quaternion_1_dof_keyframe_fields in H.
  destruct H as (v & element & sn & w & _ & _ & Hel & _).
  destruct (eb =? 32) eqn:He.
  - apply Z.eqb_eq in He. apply get_float_in_range in Hel. lia.
  - destruct Hel as (u & Hu & _). apply get_bits_unsigned_in_range in Hu. lia.
Qed.

Lemma vector_scale_of_width (vb : Z) (vs : float) :
  vector_scale_of vb = Ok vs -> vb <> 0.
Proof. intros H ->. vm_compute in H. discriminate H. Qed.

Lemma vector_keyframe_extent (s : BitArray.t) (gt : GameType)
    (dt bb : Z) (bs : float) (vb : Z) (scale offset : list float)
    (index delta_time : Z) (bias : float) (vector : list float) (index' : Z) :
  vb < 32 ->
  vector_keyframe s gt dt bb bs vb scale offset index
  = Ok (delta_time, bias, vector, index') ->
  index' = index + vector_stride gt dt bb vb
  /\ index' <= BitArray.bit_count s.
Proof.
  intros Hvb H.
  pose proof (vector_keyframe_delta _ _ _ _ _ _ _ _ _ _ _ _ _ H) as [_ Hi].
  split; [exact Hi |]. subst index'. unfold vector_stride.
  apply vector_keyframe_components in H. cbn zeta in H.
  destruct H as (c0 & c1 & c2 & _ & _ & H2 & _).
  apply (vector_component_quantized _ _ _ _ _ _ _ Hvb) in H2.
  destruct H2 as (u & Hu & _). apply get_bits_unsigned_in_range in Hu. lia.
Qed.

(** X1.  A channel that decodes lies within the stream: in each of the
    three decoders the header and the [count] keyframes of [stride]
    bits each end at or before the last bit of the stream, and the
    channel holds exactly [count] keyframes, fewer than the stream has
    bits. *)
Theorem decoded_channel_within_stream {ext : Externals} :
  (forall s index fps gt keyframes,
      decompress_quaternion_keyframes s index fps gt = Ok keyframes ->
      exists count dt bb q,
        BitArray.get_bits_unsigned s (- index) 20 = Ok count
        /\ BitArray.get_bits_unsigned s (- index + 20) 5 = Ok dt
        /\ BitArray.get_bits_unsigned s (- index + 25) 5 = Ok bb
        /\ BitArray.get_bits_unsigned s (- index + 30) 5 = Ok q
        /\ Z.of_nat (length keyframes) = count
        /\ - index + 35 + count * quaternion_stride gt dt bb q
           <= BitArray.bit_count s
        /\ Z.of_nat (length keyframes) < BitArray.bit_count s)
  /\ (forall s index fps keyframes,
         decompress_quaternion_1_dof_keyframes s index fps = Ok keyframes ->
         exists count dt bb e,
           BitArray.get_bits_unsigned s (- index + 96) 20 = Ok count
           /\ BitArray.get_bits_unsigned s (- index + 116) 5 = Ok dt
           /\ BitArray.get_bits_unsigned s (- index + 121) 5 = Ok bb
           /\ BitArray.get_bits_unsigned s (- index + 126) 5 = Ok e
           /\ Z.of_nat (length keyframes) = count
           /\ (let eb := if e =? 0 then 32 else e in
               - index + 131 + (if eb =? 32 then 0 else 64)
               + count * (dt + bb + eb)
               <= BitArray.bit_count s)
           /\ Z.of_nat (length keyframes) < BitArray.bit_count s)
  /\ (forall s index fps gt keyframes,
         decompress_vector_keyframes s index fps gt = Ok keyframes ->
         exists count dt bb vb,
           BitArray.get_bits_unsigned s (- index) 20 = Ok count
           /\ BitArray.get_bits_unsigned s (- index + 20) 5 = Ok dt
           /\ BitArray.get_bits_unsigned s (- index + 25) 5 = Ok bb
           /\ BitArray.get_bits_unsigned s (- index + 30) 5 = Ok vb
           /\ Z.of_nat (length keyframes) = count
           /\ - index + 227 + count * vector_stride gt dt bb vb
              <= BitArray.bit_count s
           /\ Z.of_nat (length keyframes) < BitArray.bit_count s).
Proof.
  split; [| split].
  - intros s index fps gt keyframes H.
    apply decompress_quaternion_keyframes_Ok in H.
    destruct H as (count & dt & bb & q & bs & qs & Hc & Hdt & Hbb & Hq & _
                   & _ & Hloop).
    pose proof (get_bits_unsigned_range _ _ _ _ Hc) as [_ Hcr].
    pose proof (get_bits_unsigned_range _ _ _ _ Hdt) as [_ Hdr].
    pose proof (get_bits_unsigned_range _ _ _ _ Hbb) as [_ Hbr].
    pose proof (get_bits_unsigned_range _ _ _ _ Hq) as [_ Hqr].
    pose proof (get_bits_unsigned_in_range _ _ _ _ Hc) as Hci.
    pose proof (get_bits_unsigned_in_range _ _ _ _ Hq) as Hqi.
    destruct (keyframe_loop_extent _ quaternion_of s _ _
                (quaternion_keyframe_extent s gt dt bb bs q qs)
                _ _ _ _ Hloop ltac:(lia)) as [Hlen Hend].
    rewrite Z2Nat.id in Hend by lia.
    exists count, dt, bb, q.
    do 4 (split; [assumption |]). split; [lia |]. split; [exact Hend |].
    assert (1 <= quaternion_stride gt dt bb q)
      by (unfold quaternion_stride; destruct (in_pets_castaway_sims3 gt); lia).
    nia.
  - intros s index fps keyframes H.
    apply decompress_quaternion_1_dof_keyframes_Ok in H.
    destruct H as (x & y & z & count & dt & bb & e & bs & es & eo & Hc & Hdt
                   & Hbb & He & _ & _ & _ & _ & Hes & Hloop).
    cbn zeta in Hes, Hloop.
    pose proof (get_bits_unsigned_range _ _ _ _ Hc) as [_ Hcr].
    pose proof (get_bits_unsigned_range _ _ _ _ Hdt) as [_ Hdr].
    pose proof (get_bits_unsigned_range _ _ _ _ Hbb) as [_ Hbr].
    pose proof (get_bits_unsigned_range _ _ _ _ He) as [_ Her].
    pose proof (get_bits_unsigned_in_range _ _ _ _ Hc) as Hci.
    pose proof (get_bits_unsigned_in_range _ _ _ _ He) as Hei.
    set (eb := if e =? 0 then 32 else e) in *.
    assert (Heb : 1 <= eb) by (subst eb; destruct (e =? 0) eqn:E0; lia).
    assert (Hbase : - index + 131 + (if eb =? 32 then 0 else 64)
                    <= BitArray.bit_count s).
    { destruct (eb =? 32); [lia |].
      destruct Hes as (us & sf & _ & _ & _ & Ho).
      apply get_float_in_range in Ho. lia. }
    destruct (keyframe_loop_extent _ quaternion_of s _ _
                (quaternion_1_dof_keyframe_extent s x y z dt bb bs eb es eo)
                _ _ _ _ Hloop Hbase) as [Hlen Hend].
    rewrite Z2Nat.id in Hend by lia.
    exists count, dt, bb, e.
    do 4 (split; [assumption |]). split; [lia |]. split; [exact Hend |].
    destruct (eb =? 32); nia.
  - intros s index fps gt keyframes H.
    apply decompress_vector_keyframes_Ok in H.
    destruct H as (count & dt & bb & vb & bs & vs & scale & offset & Hc & Hdt
                   & Hbb & Hvb & _ & Hvs & Hso & Hloop).
    pose proof (get_bits_unsigned_range _ _ _ _ Hc) as [_ Hcr].
    pose proof (get_bits_unsigned_range _ _ _ _ Hdt) as [_ Hdr].
    pose proof (get_bits_unsigned_range _ _ _ _ Hbb) as [_ Hbr].
    pose proof (get_bits_unsigned_range _ _ _ _ Hvb) as [_ Hvr].
    pose proof (get_bits_unsigned_in_range _ _ _ _ Hc) as Hci.
    pose proof (vector_scale_of_width _ _ Hvs) as Hv0.
    change (2 ^ 5) with 32 in Hvr.
    apply read_scale_offset_3 in Hso.
    destruct Hso as (f0 & g0 & f1 & g1 & f2 & g2 & _ & _ & _ & _ & _ & Hg2
                     & _).
    apply get_float_in_range in Hg2.
    destruct (keyframe_loop_extent _ vector_of s _ _
                (fun i d b v i' =>
                   vector_keyframe_extent s gt dt bb bs vb scale offset
                     i d b v i' ltac:(lia))
                _ _ _ _ Hloop ltac:(lia)) as [Hlen Hend].
    rewrite Z2Nat.id in Hend by lia.
    exists count, dt, bb, vb.
    do 4 (split; [assumption |]). split; [lia |]. split; [exact Hend |].
    assert (1 <= vector_stride gt dt bb vb)
      by (unfold vector_stride; destruct (in_pets_castaway_sims3 gt); lia).
    nia.
Qed.

Lemma decoded_channel_within_stream_witness :
  exists keyframes,
    decompress_quaternion_keyframes scenario_stream 0 60 THESIMS
    = Ok keyframes
    /\ exists count dt bb q,
         BitArray.get_bits_unsigned scenario_stream (- 0) 20 = Ok count
         /\ BitArray.get_bits_unsigned scenario_stream (- 0 + 20) 5 = Ok dt
         /\ BitArray.get_bits_unsigned scenario_stream (- 0 + 25) 5 = Ok bb
         /\ BitArray.get_bits_unsigned scenario_stream (- 0 + 30) 5 = Ok q
         /\ Z.of_nat (length keyframes) = count
         /\ - 0 + 35 + count * quaternion_stride THESIMS dt bb q
            <= BitArray.bit_count scenario_stream
         /\ Z.of_nat (length keyframes) < BitArray.bit_count scenario_stream.
Proof.
  eexists. split; [vm_compute; reflexivity |].
  apply (proj1 (decoded_channel_within_stream (ext := concrete_externals))
           scenario_stream 0 60%float THESIMS).
  vm_compute. reflexivity.
Defined.

(** X2.  In each of the three decoders keyframe [k] of a decoded
    channel lies at frame [(k + 1) * multiplier - 1] or later, so no
    frame number is negative; and when the frame rate is not 60 every
    frame number is odd. *)
Theorem frame_numbers_bounded_below {ext : Externals} :
  (forall s index fps gt keyframes k keyframe,
      decompress_quaternion_keyframes s index fps gt = Ok keyframes ->
      nth_error keyframes k = Some keyframe ->
      (Z.of_nat k + 1) * frame_count_multiplier fps - 1
      <= QuaternionKeyframe.frame keyframe
      /\ ((fps =? 60)%float = false ->
          Z.odd (QuaternionKeyframe.frame keyframe) = true))
  /\ (forall s index fps keyframes k keyframe,
         decompress_quaternion_1_dof_keyframes s index fps = Ok keyframes ->
         nth_error keyframes k = Some keyframe ->
         (Z.of_nat k + 1) * frame_count_multiplier fps - 1
         <= QuaternionKeyframe.frame keyframe
         /\ ((fps =? 60)%float = false ->
             Z.odd (QuaternionKeyframe.frame keyframe) = true))
  /\ (forall s index fps gt keyframes k keyframe,
         decompress_vector_keyframes s index fps gt = Ok keyframes ->
         nth_error keyframes k = Some keyframe ->
         (Z.of_nat k + 1) * frame_count_multiplier fps - 1
         <= VectorKeyframe.frame keyframe
         /\ ((fps =? 60)%float = false ->
             Z.odd (VectorKeyframe.frame keyframe) = true)).
Proof.
  assert (Hm2 : forall fps, (fps =? 60)%float = false ->
                            frame_count_multiplier fps = 2).
  { intros fps H. unfold frame_count_multiplier. now rewrite H. }
  split; [| split].
  - intros s index fps gt keyframes k keyframe H Hk.
    apply decompress_quaternion_keyframes_Ok in H.
    destruct H as (count & dt & bb & q & bs & qs & _ & _ & _ & _ & _ & _
                   & Hloop).
    destruct (keyframe_loop_frame_bounds _ quaternion_of
                QuaternionKeyframe.frame s _ dt _ _ _ _ (fun _ _ _ => eq_refl)
                (quaternion_keyframe_delta s gt dt bb bs q qs) Hloop)
      as [_ Hb].
    destruct (Hb _ _ Hk) as [H1 H2]. split.
    + apply H1, frame_count_multiplier_pos.
    + intros Hf. apply H2, Hm2, Hf.
  - intros s index fps keyframes k keyframe H Hk.
    apply decompress_quaternion_1_dof_keyframes_Ok in H.
    destruct H as (x & y & z & count & dt & bb & e & bs & es & eo & _ & _
                   & _ & _ & _ & _ & _ & _ & _ & Hloop).
    cbn zeta in Hloop.
    destruct (keyframe_loop_frame_bounds _ quaternion_of
                QuaternionKeyframe.frame s _ dt
                (dt + bb + (if e =? 0 then 32 else e)) _ _ _
                (fun _ _ _ => eq_refl)
                (fun i d b v i' Hb =>
                   let H' := quaternion_1_dof_keyframe_Ok _ _ _ _ _ _ _ _ _ _
                               _ _ _ _ _ Hb in
                   conj (proj1 H') (proj1 (proj2 H')))
                Hloop)
      as [_ Hb].
    destruct (Hb _ _ Hk) as [H1 H2]. split.
    + apply H1, frame_count_multiplier_pos.
    + intros Hf. apply H2, Hm2, Hf.
  - intros s index fps gt keyframes k keyframe H Hk.
    apply decompress_vector_keyframes_Ok in H.
    destruct H as (count & dt & bb & vb & bs & vs & scale & offset & _ & _
                   & _ & _ & _ & _ & _ & Hloop).
    destruct (keyframe_loop_frame_bounds _ vector_of VectorKeyframe.frame s
                _ dt _ _ _ _ (fun _ _ _ => eq_refl)
                (vector_keyframe_delta s gt dt bb bs vb _ _) Hloop)
      as [_ Hb].
    destruct (Hb _ _ Hk) as [H1 H2]. split.
    + apply H1, frame_count_multiplier_pos.
    + intros Hf. apply H2, Hm2, Hf.
Qed.

Lemma frame_numbers_bounded_below_witness :
  exists keyframes keyframe,
    decompress_quaternion_keyframes scenario_stream 0 30 THESIMS
    = Ok keyframes
    /\ nth_error keyframes 1 = Some keyframe
    /\ (Z.of_nat 1 + 1) * frame_count_multiplier 30 - 1
       <= QuaternionKeyframe.frame keyframe
    /\ ((30 =? 60)%float = false ->
        Z.odd (QuaternionKeyframe.frame keyframe) = true).
Proof.
  eexists. eexists.
  split; [vm_compute; reflexivity |].
  split; [vm_compute; reflexivity |].
  eapply (proj1 (frame_numbers_bounded_below (ext := concrete_externals))
            scenario_stream 0 30%float THESIMS).
  - vm_compute. reflexivity.
  - reflexivity.
Defined.

(** ** The frame rate *)

(** A loop run with multiplier 2 yields what the loop run with
    multiplier 1 yields, each keyframe moved from frame [f] to frame
    [2 * f + 1]; and it fails when and as that one fails. *)
Lemma keyframe_loop_doubled {V K : Type}
    (body : Z -> res (Z * float * V * Z)) (mk : Z -> float -> V -> K)
    (double : K -> K) :
  (forall f b v, double (mk f b v) = mk (2 * f + 1) b v) ->
  forall (count : nat) index frame_count,
    keyframe_loop body mk 2 count index frame_count
    = res_map (map double) (keyframe_loop body mk 1 count index frame_count).
Proof.
  intros Hd.
  induction count as [| count IH]; intros index frame_count;
    cbn [keyframe_loop]; [reflexivity |].
  destruct (body index) as [[[[delta_time bias] v] index'] | e];
    [| reflexivity].
  cbn [bind]. cbn beta iota zeta. rewrite IH.
  destruct (keyframe_loop body mk 1 count index' (frame_count + (delta_time + 1)))
    as [keyframes | e]; [| reflexivity].
  cbn [bind res_map map]. rewrite Hd. do 3 f_equal. lia.
Qed.

Lemma frame_count_multiplier_not_60 (fps : float) :
  (fps =? 60)%float = false -> frame_count_multiplier fps = 2.
Proof. intros H. unfold frame_count_multiplier. now rewrite H. Qed.

Ltac same_header :=
  repeat match goal with
    | |- bind ?c _ = res_map _ (bind ?c _) =>
        destruct c as [? | ?]; cbn [bind res_map]; [| reflexivity]
    | |- (let '(_, _) := ?p in _) = _ => destruct p
    end.

(** X3.  The frame rate acts on the frame numbers only, and every rate
    other than 60 acts alike: a channel decoded at such a rate is the
    channel decoded at 60 with each keyframe moved from frame [f] to
    frame [2 * f + 1], bias and value unchanged; and it fails when and
    as the decoding at 60 fails. *)
Theorem frame_rate_doubles_frames {ext : Externals} (fps : float) :
  (fps =? 60)%float = false ->
  (forall s index gt,
      decompress_quaternion_keyframes s index fps gt
      = res_map (map double_quaternion_frame)
          (decompress_quaternion_keyframes s index 60 gt))
  /\ (forall s index,
         decompress_quaternion_1_dof_keyframes s index fps
         = res_map (map double_quaternion_frame)
             (decompress_quaternion_1_dof_keyframes s index 60))
  /\ (forall s index gt,
         decompress_vector_keyframes s index fps gt
         = res_map (map double_vector_frame)
             (decompress_vector_keyframes s index 60 gt)).
Proof.
  intros Hfps. apply frame_count_multiplier_not_60 in Hfps.
  assert (H60 : frame_count_multiplier 60 = 1) by reflexivity.
  split; [| split].
  - intros s index gt. unfold decompress_quaternion_keyframes.
    cbv zeta. same_header.
    rewrite Hfps, H60, !quaternion_keyframes_loop.
    apply keyframe_loop_doubled. reflexivity.
  - intros s index. unfold decompress_quaternion_1_dof_keyframes.
    cbv zeta. same_header.
    rewrite Hfps, H60, !quaternion_1_dof_keyframes_loop.
    apply keyframe_loop_doubled. reflexivity.
  - intros s index gt.
    unfold decompress_vector_keyframes.
    cbv zeta. same_header.
    rewrite Hfps, H60, !vector_keyframes_loop.
    apply keyframe_loop_doubled. reflexivity.
Qed.

Lemma frame_rate_doubles_frames_witness :
  decompress_quaternion_keyframes scenario_stream 0 30 THESIMS
  = res_map (map double_quaternion_frame)
      (decompress_quaternion_keyframes scenario_stream 0 60 THESIMS)
  /\ decompress_quaternion_keyframes scenario_stream 0 30 THESIMS
     = Ok [QuaternionKeyframe.make 1 0
             (normalized (mathutils_Quaternion [0; 1; 0; 0]%float));
           QuaternionKeyframe.make 9 0
             (normalized (mathutils_Quaternion [0; 1; 0; 0]%float))].
Proof.
  split.
  - apply (proj1 (frame_rate_doubles_frames (ext := concrete_externals)
                    30%float eq_refl)).
  - vm_compute. reflexivity.
Defined.

(** ** The newer layout of the full-quaternion decoder *)

(** X4.  On the newer layout (THESIMS2PETS, THESIMS2CASTAWAY and
    THESIMS3) one reserved bit lies between the bias and the three
    stored components of every keyframe, and the quaternion passed to
    normalization is (implicit, stored0, stored1, stored2), where
    implicit = sqrt(max(0, 1 - (stored1^2 + stored2^2))), negated when
    the negate bit is set and the difference is positive: the first
    stored component does not enter the implicit one. *)
Theorem newer_layout_quaternion (s : BitArray.t) (index : Z) (fps : float)
    (gt : GameType) (keyframes : list QuaternionKeyframe.t) :
  in_pets_castaway_sims3 gt = true ->
  decompress_quaternion_keyframes s index fps gt = Ok keyframes ->
  exists count dt bb q qs,
    BitArray.get_bits_unsigned s (- index) 20 = Ok count
    /\ BitArray.get_bits_unsigned s (- index + 20) 5 = Ok dt
    /\ BitArray.get_bits_unsigned s (- index + 25) 5 = Ok bb
    /\ BitArray.get_bits_unsigned s (- index + 30) 5 = Ok q
    /\ BitArray.signed_bits_to_float_scaler q = Ok qs
    /\ length keyframes = Z.to_nat count
    /\ forall k keyframe,
         nth_error keyframes k = Some keyframe ->
         newer_layout_keyframe s index dt bb q qs k keyframe.
Proof.
  intros Hgt H.
  apply decompress_quaternion_keyframes_Ok in H.
  destruct H as (count & dt & bb & q & bs & qs & Hc & Hdt & Hbb & Hq & Hbs
                 & Hqs & Hloop).
  exists count, dt, bb, q, qs. do 5 (split; [assumption |]). split.
  - destruct (keyframe_loop_frames _ quaternion_of QuaternionKeyframe.frame
                _ s dt (quaternion_stride gt dt bb q) (fun _ _ _ => eq_refl)
                (quaternion_keyframe_delta s gt dt bb bs q qs) _ _ _ _ Hloop)
      as (_ & _ & Hlen & _).
    exact Hlen.
  - intros k keyframe Hk.
    destruct (keyframe_loop_nth _ quaternion_of _ s dt
                (quaternion_stride gt dt bb q)
                (quaternion_keyframe_delta s gt dt bb bs q qs)
                _ _ _ _ _ _ Hloop Hk)
      as (d & b & quat & f & Hbody & ->).
    apply (quaternion_keyframe_newer _ _ _ _ _ _ _ _ _ _ _ _ Hgt) in Hbody.
    destruct Hbody as (v0 & v1 & v2 & negate & H0 & H1 & H2 & Hn & Hquat).
    cbn zeta in Hquat. subst quat.
    unfold newer_layout_keyframe, newer_quaternion, quaternion_stride in *.
    rewrite Hgt in *.
    exists v0, v1, v2, negate. cbn zeta.
    replace (dt + bb + 1 + 3 * q + 1 + 0) with (dt + bb + 1 + 3 * q + 1)
      in * by lia.
    repeat split; assumption.
Qed.

Lemma newer_layout_quaternion_witness :
  in_pets_castaway_sims3 THESIMS3 = true
  /\ decompress_quaternion_keyframes newer_stream 0 60 THESIMS3
     = Ok [QuaternionKeyframe.make 0 0
             (normalized
                (mathutils_Quaternion (newer_quaternion 1 0 0 false)))]
  /\ exists count dt bb q qs,
       BitArray.get_bits_unsigned newer_stream (- 0) 20 = Ok count
       /\ BitArray.get_bits_unsigned newer_stream (- 0 + 20) 5 = Ok dt
       /\ BitArray.get_bits_unsigned newer_stream (- 0 + 25) 5 = Ok bb
       /\ BitArray.get_bits_unsigned newer_stream (- 0 + 30) 5 = Ok q
       /\ BitArray.signed_bits_to_float_scaler q = Ok qs
       /\ length
            [QuaternionKeyframe.make 0 0
               (normalized
                  (mathutils_Quaternion (newer_quaternion 1 0 0 false)))]
          = Z.to_nat count
       /\ forall k keyframe,
            nth_error
              [QuaternionKeyframe.make 0 0
                 (normalized
                    (mathutils_Quaternion (newer_quaternion 1 0 0 false)))]
              k = Some keyframe ->
            newer_layout_keyframe newer_stream 0 dt bb q qs k keyframe.
Proof.
  split; [reflexivity |].
  split; [vm_compute; reflexivity |].
  apply (newer_layout_quaternion newer_stream 0 60 THESIMS3);
    [reflexivity | vm_compute; reflexivity].
Defined.

(** ** Widths whose scaler divides by zero *)

Lemma bias_scale_of_Raise (bb : Z) (e : exn) :
  bias_scale_of bb = Raise e -> e = ZeroDivisionError.
Proof.
  unfold bias_scale_of, BitArray.signed_bits_to_float_scaler, BitArray.one_over.
  destruct (bb =? 0); [discriminate |].
  destruct (_ =? 0)%float; [| discriminate]. congruence.
Qed.

(** X5.  A channel whose bias width is 1 does not decode, nor does a
    full-quaternion channel whose component width is 1 or a vector
    channel whose component width is 0: once the header fields are
    read, the scaler [1.0 / (2^(width-1) - 1)] of the signed fields, or
    [1.0 / (2^width - 1)] of the unsigned ones, divides by zero and the
    decoder raises [ZeroDivisionError]. *)
Theorem zero_division_widths_are_refused {ext : Externals} :
  (forall s index fps gt count dt bb q,
      BitArray.get_bits_unsigned s (- index) 20 = Ok count ->
      BitArray.get_bits_unsigned s (- index + 20) 5 = Ok dt ->
      BitArray.get_bits_unsigned s (- index + 25) 5 = Ok bb ->
      BitArray.get_bits_unsigned s (- index + 30) 5 = Ok q ->
      bb = 1 \/ q = 1 ->
      decompress_quaternion_keyframes s index fps gt = Raise ZeroDivisionError)
  /\ (forall s index fps x y z count dt,
         BitArray.get_float s (- index) = Ok x ->
         BitArray.get_float s (- index + 32) = Ok y ->
         BitArray.get_float s (- index + 64) = Ok z ->
         BitArray.get_bits_unsigned s (- index + 96) 20 = Ok count ->
         BitArray.get_bits_unsigned s (- index + 116) 5 = Ok dt ->
         BitArray.get_bits_unsigned s (- index + 121) 5 = Ok 1 ->
         decompress_quaternion_1_dof_keyframes s index fps
         = Raise ZeroDivisionError)
  /\ (forall s index fps gt count dt bb vb,
         BitArray.get_bits_unsigned s (- index) 20 = Ok count ->
         BitArray.get_bits_unsigned s (- index + 20) 5 = Ok dt ->
         BitArray.get_bits_unsigned s (- index + 25) 5 = Ok bb ->
         BitArray.get_bits_unsigned s (- index + 30) 5 = Ok vb ->
         bb = 1 \/ vb = 0 ->
         decompress_vector_keyframes s index fps gt = Raise ZeroDivisionError).
Proof.
  split; [| split].
  - intros s index fps gt count dt bb q Hc Hdt Hbb Hq Hw.
    unfold decompress_quaternion_keyframes. cbv zeta.
    replace (- index + 20 + 5) with (- index + 25) by lia.
    replace (- index + 25 + 5) with (- index + 30) by lia.
    rewrite Hc. cbn [bind]. rewrite Hdt. cbn [bind]. rewrite Hbb. cbn [bind].
    destruct (bias_scale_of bb) as [bs | e] eqn:E; cbn [bind].
    + rewrite Hq. cbn [bind]. destruct Hw as [-> | ->].
      * vm_compute in E. discriminate E.
      * reflexivity.
    + apply bias_scale_of_Raise in E. now subst e.
  - intros s index fps x y z count dt Hx Hy Hz Hc Hdt Hbb.
    unfold decompress_quaternion_1_dof_keyframes. cbv zeta.
    replace (- index + 32 + 32) with (- index + 64) by lia.
    replace (- index + 64 + 32) with (- index + 96) by lia.
    replace (- index + 96 + 20) with (- index + 116) by lia.
    replace (- index + 116 + 5) with (- index + 121) by lia.
    rewrite Hx. cbn [bind]. rewrite Hy. cbn [bind]. rewrite Hz. cbn [bind].
    rewrite Hc. cbn [bind]. rewrite Hdt. cbn [bind]. rewrite Hbb. cbn [bind].
    reflexivity.
  - intros s index fps gt count dt bb vb Hc Hdt Hbb Hvb Hw.
    unfold decompress_vector_keyframes. cbv zeta.
    replace (- index + 20 + 5) with (- index + 25) by lia.
    replace (- index + 25 + 5) with (- index + 30) by lia.
    rewrite Hc. cbn [bind]. rewrite Hdt. cbn [bind]. rewrite Hbb. cbn [bind].
    destruct (bias_scale_of bb) as [bs | e] eqn:E; cbn [bind].
    + rewrite Hvb. cbn [bind]. destruct Hw as [-> | ->].
      * vm_compute in E. discriminate E.
      * reflexivity.
    + apply bias_scale_of_Raise in E. now subst e.
Qed.

Lemma zero_division_widths_are_refused_witness :
  decompress_vector_keyframes
    (pack [(1, 20); (0, 5); (0, 5); (0, 5);
           (0x3F800000, 32); (0, 32); (0x3F800000, 32); (0, 32);
           (0x3F800000, 32); (0, 32)])
    0 60 THESIMS
  = Raise ZeroDivisionError.
Proof.
  apply (proj2 (proj2 (zero_division_widths_are_refused
                         (ext := concrete_externals)))
           _ 0 60%float THESIMS 1 0 0 0);
    first [vm_compute; reflexivity | right; reflexivity].
Defined.

(** ** The bias of the full-quaternion and of the vector decoder *)

Lemma quaternion_keyframe_bias (s : BitArray.t) (gt : GameType)
    (dt bb : Z) (bs : float) (q : Z) (qs : float)
    (index delta_time : Z) (bias : float) (quat : list float) (index' : Z) :
  quaternion_keyframe s gt dt bb bs q qs index
  = Ok (delta_time, bias, quat, index') ->
  read_bias_signed_guarded s bs bb (index + dt) = Ok bias.
Proof.
  unfold quaternion_keyframe. intros H. inv_bind H. inv_bind H.
  destruct (in_pets_castaway_sims3 gt); cbn beta iota zeta in H;
    inv_bind H; destruct a1 as [quat' index1]; cbn beta iota zeta in H;
    inv_bind H; injection H as _ <- _ _; reflexivity.
Qed.

Lemma vector_keyframe_bias (s : BitArray.t) (gt : GameType)
    (dt bb : Z) (bs : float) (vb : Z) (scale offset : list float)
    (index delta_time : Z) (bias : float) (vector : list float) (index' : Z) :
  vector_keyframe s gt dt bb bs vb scale offset index
  = Ok (delta_time, bias, vector, index') ->
  read_bias_unsigned_guarded s bs bb (index + dt) = Ok bias.
Proof.
  unfold vector_keyframe. intros H. inv_bind H. inv_bind H.
  cbn beta iota zeta in H. inv_bind H. destruct a1 as [vector' index1].
  cbn beta iota zeta in H. injection H as _ <- _ _. reflexivity.
Qed.

(** X6.  In the full-quaternion and in the vector decoder the bias of
    keyframe [k] lies behind the delta time of the keyframe.  With a
    bias width of 0 it is 0.0 and no bit is read; otherwise it is the
    field of that width times [signed_bits_to_float_scaler] of the
    width, where the full-quaternion decoder reads the field signed and
    the vector decoder reads it unsigned. *)
Theorem full_decoder_bias :
  (forall s index fps gt keyframes,
      decompress_quaternion_keyframes s index fps gt = Ok keyframes ->
      exists dt bb q,
        BitArray.get_bits_unsigned s (- index + 20) 5 = Ok dt
        /\ BitArray.get_bits_unsigned s (- index + 25) 5 = Ok bb
        /\ BitArray.get_bits_unsigned s (- index + 30) 5 = Ok q
        /\ forall k keyframe,
             nth_error keyframes k = Some keyframe ->
             (bb = 0 -> QuaternionKeyframe.bias keyframe = 0%float)
             /\ (0 < bb ->
                 exists bs v,
                   BitArray.signed_bits_to_float_scaler bb = Ok bs
                   /\ BitArray.get_bits_signed s
                        (- index + 35
                         + Z.of_nat k * quaternion_stride gt dt bb q + dt) bb
                      = Ok v
                   /\ QuaternionKeyframe.bias keyframe
                      = (bs * float_of_Z v)%float))
  /\ (forall s index fps gt keyframes,
         decompress_vector_keyframes s index fps gt = Ok keyframes ->
         exists dt bb vb,
           BitArray.get_bits_unsigned s (- index + 20) 5 = Ok dt
           /\ BitArray.get_bits_unsigned s (- index + 25) 5 = Ok bb
           /\ BitArray.get_bits_unsigned s (- index + 30) 5 = Ok vb
           /\ forall k keyframe,
                nth_error keyframes k = Some keyframe ->
                (bb = 0 -> VectorKeyframe.bias keyframe = 0%float)
                /\ (0 < bb ->
                    exists bs u,
                      BitArray.signed_bits_to_float_scaler bb = Ok bs
                      /\ BitArray.get_bits_unsigned s
                           (- index + 227
                            + Z.of_nat k * vector_stride gt dt bb vb + dt) bb
                         = Ok u
                      /\ VectorKeyframe.bias keyframe
                         = (bs * float_of_Z u)%float)).
Proof.
  split.
  - intros s index fps gt keyframes H.
    apply decompress_quaternion_keyframes_Ok in H.
    destruct H as (count & dt & bb & q & bs & qs & _ & Hdt & Hbb & Hq & Hbs
                   & _ & Hloop).
    exists dt, bb, q. do 3 (split; [assumption |]).
    intros k keyframe Hk.
    destruct (keyframe_loop_nth _ quaternion_of _ s dt
                (quaternion_stride gt dt bb q)
                (quaternion_keyframe_delta s gt dt bb bs q qs)
                _ _ _ _ _ _ Hloop Hk)
      as (d & b & quat & f & Hbody & ->).
    apply quaternion_keyframe_bias in Hbody.
    unfold quaternion_of. cbn [QuaternionKeyframe.bias].
    unfold read_bias_signed_guarded in Hbody. split.
    + intros ->. cbn in Hbody. now injection Hbody as <-.
    + intros Hpos. apply Z.ltb_lt in Hpos. rewrite Hpos in Hbody.
      inv_bind Hbody. injection Hbody as <-.
      unfold bias_scale_of in Hbs.
      apply Z.ltb_lt in Hpos.
      destruct (bb =? 0) eqn:E0; [apply Z.eqb_eq in E0; lia |].
      exists bs, a. repeat split; assumption.
  - intros s index fps gt keyframes H.
    apply decompress_vector_keyframes_Ok in H.
    destruct H as (count & dt & bb & vb & bs & vs & scale & offset & _ & Hdt
                   & Hbb & Hvb & Hbs & _ & _ & Hloop).
    exists dt, bb, vb. do 3 (split; [assumption |]).
    intros k keyframe Hk.
    destruct (keyframe_loop_nth _ vector_of _ s dt
                (vector_stride gt dt bb vb)
                (vector_keyframe_delta s gt dt bb bs vb scale offset)
                _ _ _ _ _ _ Hloop Hk)
      as (d & b & vector & f & Hbody & ->).
    apply vector_keyframe_bias in Hbody.
    unfold vector_of. cbn [VectorKeyframe.bias].
    unfold read_bias_unsigned_guarded in Hbody. split.
    + intros ->. cbn in Hbody. now injection Hbody as <-.
    + intros Hpos. apply Z.ltb_lt in Hpos. rewrite Hpos in Hbody.
      inv_bind Hbody. injection Hbody as <-.
      unfold bias_scale_of in Hbs.
      apply Z.ltb_lt in Hpos.
      destruct (bb =? 0) eqn:E0; [apply Z.eqb_eq in E0; lia |].
      exists bs, a. repeat split; assumption.
Qed.

Lemma full_decoder_bias_witness :
  exists keyframes,
    decompress_vector_keyframes vector_stream 0 60 THESIMS = Ok keyframes
    /\ exists dt bb vb,
         BitArray.get_bits_unsigned vector_stream (- 0 + 20) 5 = Ok dt
         /\ BitArray.get_bits_unsigned vector_stream (- 0 + 25) 5 = Ok bb
         /\ BitArray.get_bits_unsigned vector_stream (- 0 + 30) 5 = Ok vb
         /\ forall k keyframe,
              nth_error keyframes k = Some keyframe ->
              (bb = 0 -> VectorKeyframe.bias keyframe = 0%float)
              /\ (0 < bb ->
                  exists bs u,
                    BitArray.signed_bits_to_float_scaler bb = Ok bs
                    /\ BitArray.get_bits_unsigned vector_stream
                         (- 0 + 227
                          + Z.of_nat k * vector_stride THESIMS dt bb vb + dt)
                         bb
                       = Ok u
                    /\ VectorKeyframe.bias keyframe
                       = (bs * float_of_Z u)%float).
Proof.
  eexists. split; [vm_compute; reflexivity |].
  apply (proj2 full_decoder_bias vector_stream 0 60%float THESIMS).
  vm_compute. reflexivity.
Defined.

(** ** Constant channels at the end of the static table *)

Lemma static_item_in (static_data : list float) (i : Z) :
  0 <= i < Z.of_nat (length static_data) ->
  static_item static_data i = Ok (item static_data (Z.to_nat i)).
Proof.
  intros Hi. unfold static_item, item.
  rewrite (nth_error_nth' static_data 0%float) by lia. reflexivity.
Qed.

Lemma static_item_out (static_data : list float) (i : Z) :
  Z.of_nat (length static_data) <= i ->
  static_item static_data i = Raise IndexError.
Proof.
  intros Hi. unfold static_item.
  destruct (nth_error static_data (Z.to_nat i)) eqn:E; [| reflexivity].
  assert (nth_error static_data (Z.to_nat i) <> None) by congruence.
  apply nth_error_Some in H. lia.
Qed.

Lemma slice_3 (l : list float) :
  forall n : nat,
    (n + 3 <= length l)%nat ->
    firstn 3 (skipn n l) = [item l n; item l (S n); item l (S (S n))].
Proof.
  unfold item. induction l as [| a l IH]; intros n Hn; cbn [length] in Hn.
  - lia.
  - destruct n as [| n].
    + destruct l as [| b [| c l]]; cbn [length] in Hn; try lia. reflexivity.
    + cbn [skipn nth]. apply IH. lia.
Qed.

Lemma slice_2 (l : list float) :
  forall n : nat,
    length l = (n + 2)%nat ->
    firstn 3 (skipn n l) = [item l n; item l (S n)].
Proof.
  unfold item. induction l as [| a l IH]; intros n Hn; cbn [length] in Hn.
  - lia.
  - destruct n as [| n].
    + destruct l as [| b [| c l]]; cbn [length] in Hn; try lia. reflexivity.
    + cbn [skipn nth]. apply IH. lia.
Qed.

(** X7.  A constant rotation (index above 0) reads the four floats
    [static_data[index .. index + 3]] by position: when the table ends
    before [index + 3] the resolution, and with it [read_bone], raises
    [IndexError].  A constant scale or location takes the slice
    [static_data[index : index + 3]], which does not fail at the end of
    the table: three floats when the table holds them, and the two that
    are left when the table ends one float early. *)
Theorem constant_channels_at_table_end {ext : Externals}
    (gt : GameType) (static_data : list float) (s : BitArray.t) (fps : float)
    (index : Z) :
  0 < index ->
  (index + 3 < Z.of_nat (length static_data) ->
   resolve_rotation gt static_data s fps index
   = Ok [QuaternionKeyframe.make 0 1
           (mathutils_Quaternion
              [item static_data (Z.to_nat (index + 3));
               item static_data (Z.to_nat index);
               item static_data (Z.to_nat (index + 1));
               item static_data (Z.to_nat (index + 2))])])
  /\ (Z.of_nat (length static_data) <= index + 3 ->
      resolve_rotation gt static_data s fps index = Raise IndexError
      /\ forall content pos e scale_index location_index,
           read_i content e pos = Ok (index, pos + 4) ->
           read_i content e (pos + 4) = Ok (scale_index, pos + 8) ->
           read_i content e (pos + 8) = Ok (location_index, pos + 12) ->
           read_bone content pos e gt static_data s fps = Raise IndexError)
  /\ (forall default,
         index + 3 <= Z.of_nat (length static_data) ->
         resolve_vector default gt static_data s fps index
         = Ok [VectorKeyframe.make 0 1
                 (mathutils_Vector
                    [item static_data (Z.to_nat index);
                     item static_data (Z.to_nat (index + 1));
                     item static_data (Z.to_nat (index + 2))])])
  /\ (forall default,
         Z.of_nat (length static_data) = index + 2 ->
         resolve_vector default gt static_data s fps index
         = Ok [VectorKeyframe.make 0 1
                 (mathutils_Vector
                    [item static_data (Z.to_nat index);
                     item static_data (Z.to_nat (index + 1))])]).
Proof.
  intros Hpos.
  assert (Hltb : (0 <? index) = true) by (apply Z.ltb_lt; exact Hpos).
  assert (Hrot : Z.of_nat (length static_data) <= index + 3 ->
                 resolve_rotation gt static_data s fps index
                 = Raise IndexError).
  { intros Hlen. unfold resolve_rotation. rewrite Hltb.
    rewrite static_item_out by lia. reflexivity. }
  split; [| split; [| split]].
  - intros Hlen. unfold resolve_rotation. rewrite Hltb.
    rewrite !static_item_in by lia. reflexivity.
  - intros Hlen. split; [exact (Hrot Hlen) |].
    intros content pos e scale_index location_index Hr Hs Hl.
    unfold read_bone. rewrite Hr. cbn [bind]. cbv beta iota zeta.
    rewrite Hs. cbn [bind]. cbv beta iota zeta.
    rewrite Hl. cbn [bind]. cbv beta iota zeta.
    rewrite (Hrot Hlen). reflexivity.
  - intros default Hlen. unfold resolve_vector. rewrite Hltb.
    rewrite slice_3 by lia.
    replace (Z.to_nat (index + 1)) with (S (Z.to_nat index)) by lia.
    replace (Z.to_nat (index + 2)) with (S (S (Z.to_nat index))) by lia.
    reflexivity.
  - intros default Hlen. unfold resolve_vector. rewrite Hltb.
    rewrite slice_2 by lia.
    replace (Z.to_nat (index + 1)) with (S (Z.to_nat index)) by lia.
    reflexivity.
Qed.

Lemma constant_channels_at_table_end_witness :
  resolve_rotation (ext := concrete_externals) THESIMS [0; 1; 2; 3]%float
    scenario_stream 60 1
  = Raise IndexError
  /\ resolve_vector [1; 1; 1]%float THESIMS [0; 1; 2; 3]%float
       scenario_stream 60 2
     = Ok [VectorKeyframe.make 0 1 (mathutils_Vector [2; 3]%float)].
Proof.
  split.
  - apply (proj1 (proj2 (constant_channels_at_table_end
                           (ext := concrete_externals) THESIMS
                           [0; 1; 2; 3]%float scenario_stream 60%float 1
                           ltac:(lia)))).
    simpl. lia.
  - apply (proj2 (proj2 (proj2 (constant_channels_at_table_end
                                  (ext := concrete_externals) THESIMS
                                  [0; 1; 2; 3]%float scenario_stream
                                  60%float 2 ltac:(lia))))
             [1; 1; 1]%float).
    reflexivity.
Defined.

(** ** The channels of a file that reads *)

Lemma keyframe_loop_well_formed {V K : Type}
    (body : Z -> res (Z * float * V * Z)) (mk : Z -> float -> V -> K)
    (frame_of : K -> Z) (s : BitArray.t) (m width stride : Z)
    (count : nat) (index : Z) (keyframes : list K) :
  (forall f b v, frame_of (mk f b v) = f) ->
  (forall index delta_time bias v index',
      body index = Ok (delta_time, bias, v, index') ->
      BitArray.get_bits_unsigned s index width = Ok delta_time
      /\ index' = index + stride) ->
  0 < m ->
  keyframe_loop body mk m count index 0 = Ok keyframes ->
  frames_well_formed (map frame_of keyframes).
Proof.
  intros Hmk Hbody Hm H. split.
  - exact (keyframe_loop_sorted body mk frame_of m s width stride Hmk Hbody
             count index 0 keyframes Hm H).
  - destruct (keyframe_loop_frame_bounds body mk frame_of s m width stride
                count index keyframes Hmk Hbody H) as [_ Hb].
    apply Forall_forall. intros f Hf.
    apply In_nth_error in Hf. destruct Hf as [k Hk].
    rewrite nth_error_map in Hk.
    destruct (nth_error keyframes k) as [keyframe |] eqn:E; [| discriminate].
    injection Hk as <-.
    destruct (Hb _ _ E) as [Hlow _]. specialize (Hlow Hm). nia.
Qed.

Lemma single_frame_well_formed : frames_well_formed [0].
Proof.
  split.
  - constructor; [constructor | constructor].
  - constructor; [lia | constructor].
Qed.

Lemma decompress_quaternion_keyframes_well_formed (s : BitArray.t)
    (index : Z) (fps : float) (gt : GameType)
    (keyframes : list QuaternionKeyframe.t) :
  decompress_quaternion_keyframes s index fps gt = Ok keyframes ->
  frames_well_formed (map QuaternionKeyframe.frame keyframes).
Proof.
  intros H. apply decompress_quaternion_keyframes_Ok in H.
  destruct H as (count & dt & bb & q & bs & qs & _ & _ & _ & _ & _ & _
                 & Hloop).
  exact (keyframe_loop_well_formed _ quaternion_of QuaternionKeyframe.frame
           s _ dt _ _ _ _ (fun _ _ _ => eq_refl)
           (quaternion_keyframe_delta s gt dt bb bs q qs)
           (frame_count_multiplier_pos fps) Hloop).
Qed.

Lemma decompress_quaternion_1_dof_keyframes_well_formed {ext : Externals}
    (s : BitArray.t) (index : Z) (fps : float)
    (keyframes : list QuaternionKeyframe.t) :
  decompress_quaternion_1_dof_keyframes s index fps = Ok keyframes ->
  frames_well_formed (map QuaternionKeyframe.frame keyframes).
Proof.
  intros H. apply decompress_quaternion_1_dof_keyframes_Ok in H.
  destruct H as (x & y & z & count & dt & bb & e & bs & es & eo & _ & _
                 & _ & _ & _ & _ & _ & _ & _ & Hloop).
  cbn zeta in Hloop.
  exact (keyframe_loop_well_formed _ quaternion_of QuaternionKeyframe.frame
           s _ dt (dt + bb + (if e =? 0 then 32 else e)) _ _ _
           (fun _ _ _ => eq_refl)
           (fun i d b v i' Hb =>
              let H' := quaternion_1_dof_keyframe_Ok _ _ _ _ _ _ _ _ _ _
                          _ _ _ _ _ Hb in
              conj (proj1 H') (proj1 (proj2 H')))
           (frame_count_multiplier_pos fps) Hloop).
Qed.

Lemma decompress_vector_keyframes_well_formed (s : BitArray.t)
    (index : Z) (fps : float) (gt : GameType)
    (keyframes : list VectorKeyframe.t) :
  decompress_vector_keyframes s index fps gt = Ok keyframes ->
  frames_well_formed (map VectorKeyframe.frame keyframes).
Proof.
  intros H. apply decompress_vector_keyframes_Ok in H.
  destruct H as (count & dt & bb & vb & bs & vs & scale & offset & _ & _
                 & _ & _ & _ & _ & _ & Hloop).
  exact (keyframe_loop_well_formed _ vector_of VectorKeyframe.frame s
           _ dt _ _ _ _ (fun _ _ _ => eq_refl)
           (vector_keyframe_delta s gt dt bb bs vb _ _)
           (frame_count_multiplier_pos fps) Hloop).
Qed.

Lemma resolve_rotation_well_formed {ext : Externals} (gt : GameType)
    (static_data : list float) (s : BitArray.t) (fps : float) (ri : Z)
    (keyframes : list QuaternionKeyframe.t) :
  resolve_rotation gt static_data s fps ri = Ok keyframes ->
  frames_well_formed (map QuaternionKeyframe.frame keyframes).
Proof.
  intros H. apply resolve_rotation_Ok in H.
  destruct H as (H0 & Hpos & Hneg).
  destruct (Z.lt_trichotomy ri 0) as [Hlt | [-> | Hgt]].
  - specialize (Hneg Hlt). destruct (in_pets_castaway_sims3 gt).
    + destruct Hneg as ([|] & _ & Hd).
      * now apply decompress_quaternion_1_dof_keyframes_well_formed in Hd.
      * now apply decompress_quaternion_keyframes_well_formed in Hd.
    + now apply decompress_quaternion_keyframes_well_formed in Hneg.
  - rewrite (H0 eq_refl). exact single_frame_well_formed.
  - destruct (Hpos ltac:(lia)) as (w & x & y & z & _ & _ & _ & _ & ->).
    exact single_frame_well_formed.
Qed.

Lemma resolve_vector_well_formed (default : list float)
    (gt : GameType) (static_data : list float) (s : BitArray.t) (fps : float)
    (index : Z) (keyframes : list VectorKeyframe.t) :
  resolve_vector default gt static_data s fps index = Ok keyframes ->
  frames_well_formed (map VectorKeyframe.frame keyframes).
Proof.
  unfold resolve_vector. intros H.
  destruct (0 <? index); [| destruct (index <? 0)].
  - inv_bind H. injection H as <-. exact single_frame_well_formed.
  - now apply decompress_vector_keyframes_well_formed in H.
  - injection H as <-. exact single_frame_well_formed.
Qed.

Lemma read_bone_well_formed {ext : Externals} (content : list Byte.byte)
    (pos : Z) (e : Endianness) (gt : GameType) (static_data : list float)
    (s : BitArray.t) (fps : float) (bone : Bone) (pos' : Z) :
  read_bone content pos e gt static_data s fps = Ok (bone, pos') ->
  bone_well_formed bone.
Proof.
  unfold read_bone. intros H. inv_ok H.
  apply Ok_pair_inv in H. destruct H as [<- _].
  unfold bone_well_formed.
  cbn [rotation_keyframes scale_keyframes location_keyframes].
  repeat match goal with
    | E : resolve_rotation _ _ _ _ _ = Ok _ |- _ =>
        apply resolve_rotation_well_formed in E
    | E : resolve_vector _ _ _ _ _ _ = Ok _ |- _ =>
        apply resolve_vector_well_formed in E
    end.
  split; [assumption | split; assumption].
Qed.

Lemma read_bones_well_formed {ext : Externals} (content : list Byte.byte)
    (e : Endianness) (gt : GameType) (static_data : list float)
    (s : BitArray.t) (fps : float) (count : nat) :
  forall pos bones pos',
    read_bones content e gt static_data s fps count pos = Ok (bones, pos') ->
    length bones = count /\ Forall bone_well_formed bones.
Proof.
  induction count as [| count IH]; intros pos bones pos' H;
    cbn [read_bones] in H.
  - apply Ok_pair_inv in H. destruct H as [<- _]. split; constructor.
  - inv_ok H. apply Ok_pair_inv in H. destruct H as [<- _].
    apply read_bone_well_formed in E. apply IH in E0.
    destruct E0 as [Hlen HF]. split; [simpl; congruence |].
    constructor; assumption.
Qed.

Lemma read_animation_bones {ext : Externals} (content : list Byte.byte)
    (pos : Z) (e : Endianness) (gt : GameType) (a : Animation) (pos' : Z) :
  read_animation content pos e gt = Ok (a, pos') ->
  exists static_data s fps count p p',
    read_bones content e gt static_data s fps count p = Ok (bones a, p').
Proof.
  unfold read_animation. intros H. inv_ok H.
  match type of H with
  | (if negb (length ?b =? 4)%nat then _ else _) = _ =>
      destruct (length b =? 4)%nat; cbn [negb] in H; [| discriminate H]
  end.
  apply Ok_pair_inv in H. destruct H as [<- _]. cbn [bones].
  match goal with
  | E : read_bones _ _ _ ?sd ?s ?fps ?n ?p = Ok (_, ?p') |- _ =>
      exists sd, s, fps, n, p, p'; exact E
  end.
Qed.

(** X8.  In an animation that [read_file] returns, every channel of
    every bone, whether default, constant or decoded from the stream,
    by whichever decoder, has frame numbers that strictly increase and
    of which none is negative. *)
Theorem read_file_channels_well_formed {ext : Externals}
    (file : option (list Byte.byte)) (gt : GameType) (e : Endianness)
    (a : Animation) :
  read_file file gt e = Ok a -> Forall bone_well_formed (bones a).
Proof.
  intros H. apply read_file_Ok in H. destruct H as (content & _ & H).
  apply read_animation_bones in H.
  destruct H as (static_data & s & fps & count & p & p' & H).
  now apply read_bones_well_formed in H.
Qed.

Lemma read_file_channels_well_formed_witness :
  exists a,
    read_file (ext := concrete_externals) (Some sims_file) THESIMS LittleEndian
    = Ok a
    /\ Forall bone_well_formed (bones a).
Proof.
  eexists. split; [vm_compute; reflexivity |].
  apply (read_file_channels_well_formed (ext := concrete_externals)
           (Some sims_file) THESIMS LittleEndian).
  vm_compute. reflexivity.
Defined.

(** ** Bytes behind the end of a file *)

(** A read that lies within the file does not see what is appended to
    the file. *)
Lemma file_read_app (content more : list Byte.byte) (pos n : Z) :
  0 <= pos -> 0 <= n -> pos + n <= Z.of_nat (length content) ->
  file_read (content ++ more) pos n = file_read content pos n.
Proof.
  intros Hpos Hn Hend.
  rewrite <- (file_read_trunc (content ++ more) pos n (length content)).
  - rewrite firstn_app, firstn_all, Nat.sub_diag. cbn [firstn].
    rewrite app_nil_r. reflexivity.
  - exact Hpos.
  - rewrite length_app. lia.
  - pose proof (file_read_snd_le (content ++ more) pos n Hn). lia.
Qed.

Lemma file_read_snd_eq (content : list Byte.byte) (pos n : Z) :
  0 <= pos -> 0 <= n ->
  snd (file_read content pos n)
  = pos + Z.min n (Z.max 0 (Z.of_nat (length content) - pos)).
Proof.
  intros Hpos Hn. unfold file_read. cbn [snd].
  rewrite length_firstn, length_skipn. lia.
Qed.

(** A read that ends before the end of the file is complete. *)
Lemma file_read_snd_full (content : list Byte.byte) (pos n : Z) :
  0 <= pos -> 0 <= n ->
  snd (file_read content pos n) < Z.of_nat (length content) ->
  snd (file_read content pos n) = pos + n.
Proof.
  intros Hpos Hn. rewrite (file_read_snd_eq content pos n Hpos Hn). lia.
Qed.

Lemma full_byte_in_file (content : list Byte.byte) (p0 : Z) :
  length (fst (file_read content p0 1)) = 1%nat ->
  p0 + 1 <= Z.of_nat (length content).
Proof.
  unfold file_read. cbn [fst]. rewrite length_firstn, length_skipn.
  change (Z.to_nat 1) with 1%nat. lia.
Qed.

Lemma read_I_ext (content more : list Byte.byte) (e : Endianness)
    (pos v pos' : Z) :
  read_I content e pos = Ok (v, pos') -> 0 <= pos ->
  read_I (content ++ more) e pos = Ok (v, pos').
Proof.
  intros H Hpos. pose proof (read_I_pos _ _ _ _ _ H) as [_ Hb].
  apply full_block_in_file in Hb.
  unfold read_I in *. rewrite file_read_app by lia. exact H.
Qed.

Lemma read_i_ext (content more : list Byte.byte) (e : Endianness)
    (pos v pos' : Z) :
  read_i content e pos = Ok (v, pos') -> 0 <= pos ->
  read_i (content ++ more) e pos = Ok (v, pos').
Proof.
  intros H Hpos. pose proof (read_i_pos _ _ _ _ _ H) as [_ Hb].
  apply full_block_in_file in Hb.
  unfold read_i in *. rewrite file_read_app by lia. exact H.
Qed.

Lemma read_f_ext (content more : list Byte.byte) (e : Endianness)
    (pos : Z) (v : float) (pos' : Z) :
  read_f content e pos = Ok (v, pos') -> 0 <= pos ->
  read_f (content ++ more) e pos = Ok (v, pos').
Proof.
  intros H Hpos. pose proof (read_f_pos _ _ _ _ _ H) as [_ Hb].
  apply full_block_in_file in Hb.
  unfold read_f in *. rewrite file_read_app by lia. exact H.
Qed.

Lemma read_B_ext (content more : list Byte.byte) (e : Endianness)
    (pos v pos' : Z) :
  read_B content e pos = Ok (v, pos') -> 0 <= pos ->
  read_B (content ++ more) e pos = Ok (v, pos').
Proof.
  intros H Hpos. pose proof (read_B_pos _ _ _ _ _ H) as [_ Hb].
  apply full_byte_in_file in Hb.
  unfold read_B in *. rewrite file_read_app by lia. exact H.
Qed.

Lemma read_floats_ext (content more : list Byte.byte) (e : Endianness)
    (count : nat) :
  forall pos fs pos',
    read_floats content e count pos = Ok (fs, pos') -> 0 <= pos ->
    read_floats (content ++ more) e count pos = Ok (fs, pos').
Proof.
  induction count as [| count IH]; intros pos fs pos' H Hpos;
    cbn [read_floats] in *; [exact H |].
  inv_ok H. apply Ok_pair_inv in H. destruct H as [<- <-].
  pose proof (read_f_pos _ _ _ _ _ E) as [Hz _].
  rewrite (read_f_ext _ more _ _ _ _ E) by lia. cbn [bind].
  rewrite (IH _ _ _ E0) by lia. reflexivity.
Qed.

Lemma read_words_ext (content more : list Byte.byte) (e : Endianness)
    (count : nat) :
  forall pos ws pos',
    read_words content e count pos = Ok (ws, pos') -> 0 <= pos ->
    read_words (content ++ more) e count pos = Ok (ws, pos').
Proof.
  induction count as [| count IH]; intros pos ws pos' H Hpos;
    cbn [read_words] in *; [exact H |].
  inv_ok H. apply Ok_pair_inv in H. destruct H as [<- <-].
  pose proof (read_I_pos _ _ _ _ _ E) as [Hz _].
  rewrite (read_I_ext _ more _ _ _ _ E) by lia. cbn [bind].
  rewrite (IH _ _ _ E0) by lia. reflexivity.
Qed.

(** A bone record that lies within the file takes [bone_size] bytes. *)
Lemma read_bone_ext {ext : Externals} (content more : list Byte.byte)
    (pos : Z) (e : Endianness) (gt : GameType) (static_data : list float)
    (s : BitArray.t) (fps : float) (bone : Bone) (pos' : Z) :
  read_bone content pos e gt static_data s fps = Ok (bone, pos') ->
  0 <= pos -> pos + bone_size gt <= Z.of_nat (length content) ->
  read_bone (content ++ more) pos e gt static_data s fps = Ok (bone, pos')
  /\ pos' = pos + bone_size gt.
Proof.
  intros H Hpos Hend. unfold read_bone in *. inv_ok H.
  apply Ok_pair_inv in H. destruct H as [<- <-].
  pose proof (read_i_pos _ _ _ _ _ E) as [Hz _].
  pose proof (read_i_pos _ _ _ _ _ E0) as [Hz0 _].
  pose proof (read_i_pos _ _ _ _ _ E1) as [Hz1 _].
  rewrite (read_i_ext _ more _ _ _ _ E) by lia. cbn [bind].
  rewrite (read_i_ext _ more _ _ _ _ E0) by lia. cbn [bind].
  rewrite (read_i_ext _ more _ _ _ _ E1) by lia. cbn [bind].
  rewrite E2, E3, E4. cbn [bind].
  destruct gt; cbn [bone_padding bone_size] in *;
    try (split; [reflexivity | lia]);
    (rewrite file_read_app by lia;
     split; [reflexivity | rewrite file_read_snd_eq by lia; lia]).
Qed.

Lemma read_bones_ext {ext : Externals} (content more : list Byte.byte)
    (e : Endianness) (gt : GameType) (static_data : list float)
    (s : BitArray.t) (fps : float) (count : nat) :
  forall pos bones pos',
    read_bones content e gt static_data s fps count pos = Ok (bones, pos') ->
    0 <= pos ->
    pos + Z.of_nat count * bone_size gt <= Z.of_nat (length content) ->
    read_bones (content ++ more) e gt static_data s fps count pos
    = Ok (bones, pos').
Proof.
  induction count as [| count IH]; intros pos bones pos' H Hpos Hend;
    cbn [read_bones] in *; [exact H |].
  inv_ok H. apply Ok_pair_inv in H. destruct H as [<- <-].
  assert (0 < bone_size gt) by (destruct gt; cbn; lia).
  destruct (read_bone_ext content more _ _ _ _ _ _ _ _ E Hpos ltac:(nia))
    as [Hb Hp].
  rewrite Hb. cbn [bind]. rewrite (IH _ _ _ E0) by nia. reflexivity.
Qed.

Lemma read_sounds_ext {ext : Externals} (content more : list Byte.byte)
    (count : nat) :
  reader_extends ext ->
  forall pos pos',
    read_sounds content count pos = Ok pos' -> 0 <= pos ->
    read_sounds (content ++ more) count pos = Ok pos' /\ pos <= pos'.
Proof.
  intros Hext.
  induction count as [| count IH]; intros pos pos' H Hpos;
    cbn [read_sounds] in *.
  - injection H as <-. split; [reflexivity | lia].
  - inv_ok H. pose proof (file_read_snd_ge content pos 8) as Hge.
    pose proof (Hext _ _ _ _ E ltac:(lia)) as [Hm Hmore].
    rewrite (file_read_snd_eq content pos 8) in Hm by lia.
    rewrite file_read_app by lia.
    rewrite Hmore. cbn [bind].
    destruct (IH _ _ H ltac:(lia)) as [IH1 IH2].
    rewrite IH1. split; [reflexivity | lia].
Qed.

Ltac ext_facts Hext E :=
  lazymatch type of E with
  | read_I _ _ _ = Ok (_, _) =>
      pose proof (proj1 (read_I_pos _ _ _ _ _ E));
      pose proof (read_I_nonneg _ _ _ _ _ E);
      pose proof (proj1 (full_block_in_file _ _
                           (proj2 (read_I_pos _ _ _ _ _ E))))
  | read_f _ _ _ = Ok (_, _) =>
      pose proof (proj1 (read_f_pos _ _ _ _ _ E));
      pose proof (proj1 (full_block_in_file _ _
                           (proj2 (read_f_pos _ _ _ _ _ E))))
  | read_B _ _ _ = Ok (_, _) =>
      pose proof (proj1 (read_B_pos _ _ _ _ _ E));
      pose proof (full_byte_in_file _ _ (proj2 (read_B_pos _ _ _ _ _ E)))
  | read_floats _ _ _ _ = Ok (_, _) =>
      pose proof (read_floats_pos _ _ _ _ _ _ E)
  | read_words _ _ _ _ = Ok (_, _) =>
      pose proof (read_words_pos _ _ _ _ _ _ E)
  | read_bones _ _ _ _ _ _ _ _ = Ok (_, _) =>
      let Hn := fresh "Hn" in
      pose proof (proj1 (read_bones_well_formed _ _ _ _ _ _ _ _ _ _ E)) as Hn
  | read_sounds _ _ _ = Ok _ =>
      pose proof (fun h => proj2 (read_sounds_ext _ [] _ Hext _ _ E h))
  | read_null_terminated_string _ _ = Ok (_, _) =>
      pose proof (fun h => proj1 (Hext _ _ _ _ E h))
  | _ => idtac
  end.

Ltac inv_ext Hext H :=
  cbv beta iota zeta in H;
  lazymatch type of H with
  | bind ?c _ = Ok _ =>
      let a := fresh "a" in
      let E := fresh "E" in
      destruct c as [a |] eqn:E;
      [ cbn [bind] in H;
        lazymatch type of a with
        | prod _ _ => destruct a as [? ?]
        | _ => idtac
        end;
        inv_ext Hext E; inv_ext Hext H
      | discriminate H ]
  | (let '(_, _) := ?p in _) = _ =>
      first [ is_var p; destruct p
            | let E := fresh "E" in destruct p eqn:E ];
      inv_ext Hext H
  | _ => ext_facts Hext H
  end.

Ltac skip_facts_full :=
  repeat match goal with
    | _ : context [snd (file_read ?c ?p ?n)] |- _ =>
        lazymatch goal with
        | _ : snd (file_read c p n) = p + n |- _ => fail
        | _ =>
            pose proof (file_read_snd_full c p n ltac:(lia) ltac:(lia)
                          ltac:(lia))
        end
    end.

Ltac ext_step Hext more :=
  first
    [ match goal with
      | |- context [file_read (?c ++ more) ?p ?n] =>
          rewrite (file_read_app c more p n) by lia
      end
    | match goal with
      | E : read_I ?c ?e ?p = Ok _ |- context [read_I (?c ++ more) ?e ?p] =>
          rewrite (read_I_ext c more e p _ _ E) by lia
      | E : read_f ?c ?e ?p = Ok _ |- context [read_f (?c ++ more) ?e ?p] =>
          rewrite (read_f_ext c more e p _ _ E) by lia
      | E : read_B ?c ?e ?p = Ok _ |- context [read_B (?c ++ more) ?e ?p] =>
          rewrite (read_B_ext c more e p _ _ E) by lia
      | E : read_floats ?c ?e ?n ?p = Ok _
        |- context [read_floats (?c ++ more) ?e ?n ?p] =>
          rewrite (read_floats_ext c more e n p _ _ E) by lia
      | E : read_words ?c ?e ?n ?p = Ok _
        |- context [read_words (?c ++ more) ?e ?n ?p] =>
          rewrite (read_words_ext c more e n p _ _ E) by lia
      | E : read_bones ?c ?e ?gt ?sd ?s ?fps ?n ?p = Ok _
        |- context [read_bones (?c ++ more) ?e ?gt ?sd ?s ?fps ?n ?p] =>
          rewrite (read_bones_ext c more e gt sd s fps n p _ _ E)
            by (cbn [bone_size]; lia)
      | E : read_sounds ?c ?n ?p = Ok _
        |- context [read_sounds (?c ++ more) ?n ?p] =>
          rewrite (proj1 (read_sounds_ext c more n Hext p _ E ltac:(lia)))
      | E : read_null_terminated_string ?c ?p = Ok _
        |- context [read_null_terminated_string (?c ++ more) ?p] =>
          rewrite (proj2 (Hext c p _ _ E ltac:(lia)) more)
      end ];
  cbn [bind]; cbv beta iota zeta.

Ltac ext_case more :=
  match goal with
  | Hext : reader_extends _, H : _ = Ok (_, _) |- _ = Ok (_, _) =>
      inv_ext Hext H;
      match type of H with
      | (if negb (length ?b =? 4)%nat then _ else _) = _ =>
          let Hlen := fresh "Hlen" in
          assert (Hlen : length b = 4%nat)
            by (destruct (length b =? 4)%nat eqn:Hlen;
                [ now apply Nat.eqb_eq | discriminate H ]);
          match goal with
          | E : file_read ?content ?p 4 = (b, _) |- _ =>
              let Hfull := fresh "Hfull" in
              pose proof (full_block_in_file content p) as Hfull;
              rewrite E in Hfull; cbn [fst] in Hfull;
              specialize (Hfull Hlen);
              skip_facts; skip_facts_full;
              repeat ext_step Hext more;
              rewrite E; cbv beta iota zeta; exact H
          end
      end
  end.

(** What [read_animation] returns depends on the bytes it consumes
    only: bytes appended to the file change nothing. *)
Lemma read_animation_ext {ext : Externals} (content more : list Byte.byte)
    (e : Endianness) (gt : GameType) (a : Animation) (pos' : Z) :
  reader_extends ext ->
  read_animation content 0 e gt = Ok (a, pos') ->
  read_animation (content ++ more) 0 e gt = Ok (a, pos').
Proof.
  intros Hext H.
  unfold read_animation in H |- *.
  destruct gt;
    cbv beta iota zeta delta [bone_size in_pets_castaway_sims3] in H |- *.
  - ext_case more.
  - ext_case more.
  - ext_case more.
  - ext_case more.
  - ext_case more.
  - ext_case more.
  - ext_case more.
Qed.

Lemma until_zero_app (bytes more : list Byte.byte) :
  forall found,
    until_zero bytes = Some found ->
    until_zero (bytes ++ more) = Some found
    /\ (length found + 1 <= length bytes)%nat.
Proof.
  induction bytes as [| b bytes IH]; intros found H; cbn in H;
    [discriminate H |].
  cbn [app until_zero length].
  destruct (byte_value b =? 0).
  - injection H as <-. split; [reflexivity | simpl; lia].
  - destruct (until_zero bytes) as [found' |] eqn:E; [| discriminate H].
    cbn in H. injection H as <-.
    destruct (IH found' eq_refl) as [-> Hlen]. split; [reflexivity |].
    cbn [length]. lia.
Qed.

Lemma concrete_reader_extends : reader_extends concrete_externals.
Proof.
  intros content pos s pos'. cbn. unfold read_until_zero.
  destruct (until_zero (skipn (Z.to_nat pos) content)) as [found |] eqn:E;
    intros H Hpos; [| discriminate H].
  apply Ok_pair_inv in H. destruct H as [<- <-].
  pose proof (proj2 (until_zero_app _ [] _ E)) as Hlen.
  rewrite length_skipn in Hlen.
  split; [lia |]. intros more.
  rewrite skipn_app.
  replace (Z.to_nat pos - length content)%nat with 0%nat by lia.
  cbn [skipn].
  rewrite (proj1 (until_zero_app _ more _ E)). reflexivity.
Qed.

(** X9.  What [read_animation] returns depends on the bytes it
    consumes only, so bytes appended to a file that reads change
    nothing of what it returns, and [read_file] refuses the longer file
    with [FileReadError]: no file that reads is a proper prefix of
    another one.  This holds as soon as the external string reader
    stays within the file and reads the same when bytes are appended. *)
Theorem appended_bytes_are_refused {ext : Externals}
    (content more : list Byte.byte) (gt : GameType) (e : Endianness)
    (a : Animation) :
  reader_extends ext ->
  read_file (Some content) gt e = Ok a ->
  read_animation (content ++ more) 0 e gt
  = Ok (a, Z.of_nat (length content))
  /\ (more <> [] ->
      read_file (Some (content ++ more)) gt e = Raise FileReadError).
Proof.
  intros Hext H.
  destruct (read_file_Ok _ _ _ _ H) as (content' & Hc & Ha).
  injection Hc as <-.
  pose proof (read_animation_ext content more e gt a _ Hext Ha) as Hm.
  split; [exact Hm |]. intros Hne.
  unfold read_file. rewrite Hm. cbn [bind].
  rewrite byte_left; [reflexivity |].
  rewrite length_app. destruct more; [congruence | cbn [length]; lia].
Qed.

Lemma appended_bytes_are_refused_witness :
  exists a,
    read_file (ext := concrete_externals) (Some sims_file) THESIMS LittleEndian
    = Ok a
    /\ read_animation (ext := concrete_externals) (sims_file ++ [Byte.x01]) 0
         LittleEndian THESIMS
       = Ok (a, Z.of_nat (length sims_file))
    /\ ([Byte.x01] <> [] ->
        read_file (ext := concrete_externals)
          (Some (sims_file ++ [Byte.x01])) THESIMS LittleEndian
        = Raise FileReadError).
Proof.
  eexists. split; [vm_compute; reflexivity |].
  apply (appended_bytes_are_refused (ext := concrete_externals) sims_file
           [Byte.x01] THESIMS LittleEndian _ concrete_reader_extends).
  vm_compute. reflexivity.
Defined.

(** ** The size of a file that reads *)




(** ** The layout of a file that reads *)











(** ** The angle of the 1-DOF decoder *)

(** X12.  In the 1-DOF decoder the angle width is the 5-bit field
    behind the bias width.  A width field of 0 stands for 32: there is
    no scale and no offset in the header, the keyframes start at bit
    131 of the channel and every angle is the raw float of its
    keyframe.  Any other width [e] has a float scale and a float offset
    in the header, the keyframes start at bit 195, and every angle is
    [offset + (scale * unsigned_bits_to_float_scaler(e)) * field].  The
    rotation is the normalized quaternion of the half angle about the
    axis that the three floats at the start of the channel give. *)
Theorem one_dof_angle_header {ext : Externals} (s : BitArray.t) (index : Z)
    (fps : float) (keyframes : list QuaternionKeyframe.t) :
  decompress_quaternion_1_dof_keyframes s index fps = Ok keyframes ->
  exists x y z dt bb e,
    BitArray.get_float s (- index) = Ok x
    /\ BitArray.get_float s (- index + 32) = Ok y
    /\ BitArray.get_float s (- index + 64) = Ok z
    /\ BitArray.get_bits_unsigned s (- index + 116) 5 = Ok dt
    /\ BitArray.get_bits_unsigned s (- index + 121) 5 = Ok bb
    /\ BitArray.get_bits_unsigned s (- index + 126) 5 = Ok e
    /\ (e = 0 ->
        forall k keyframe,
          nth_error keyframes k = Some keyframe ->
          exists element,
            BitArray.get_float s
              (- index + 131 + Z.of_nat k * (dt + bb + 32) + dt + bb)
            = Ok element
            /\ half_angle_rotation x y z element keyframe)
    /\ (e <> 0 ->
        exists us sf eo,
          BitArray.unsigned_bits_to_float_scaler e = Ok us
          /\ BitArray.get_float s (- index + 131) = Ok sf
          /\ BitArray.get_float s (- index + 163) = Ok eo
          /\ forall k keyframe,
               nth_error keyframes k = Some keyframe ->
               exists u,
                 BitArray.get_bits_unsigned s
                   (- index + 195 + Z.of_nat k * (dt + bb + e) + dt + bb) e
                 = Ok u
                 /\ half_angle_rotation x y z
                      (eo + (sf * us) * float_of_Z u)%float keyframe).
Proof.
  intros H.
  apply decompress_quaternion_1_dof_keyframes_Ok in H.
  destruct H as (x & y & z & count & dt & bb & e & bs & es & eo & Hc & Hdt
                 & Hbb & He & Hbs & Hx & Hy & Hz & Hes & Hloop).
  exists x, y, z, dt, bb, e. do 6 (split; [assumption |]).
  cbn zeta in Hes, Hloop.
  pose proof (get_bits_unsigned_range _ _ _ _ He) as [_ Her].
  change (2 ^ 5) with 32 in Her.
  set (eb := if e =? 0 then 32 else e) in *.
  assert (Hdelta : forall i d b v i',
             quaternion_1_dof_keyframe s x y z dt bb bs eb es eo i
             = Ok (d, b, v, i') ->
             BitArray.get_bits_unsigned s i dt = Ok d
             /\ i' = i + (dt + bb + eb)).
  { intros i d b v i' Hb. apply quaternion_1_dof_keyframe_Ok in Hb.
    destruct Hb as (Hd & Hi & _). split; assumption. }
  assert (Hkey : forall k keyframe,
             nth_error keyframes k = Some keyframe ->
             exists element,
               (if eb =? 32 then
                  BitArray.get_float s
                    (- index + 131 + (if eb =? 32 then 0 else 64)
                     + Z.of_nat k * (dt + bb + eb) + dt + bb)
                  = Ok element
                else exists u,
                    BitArray.get_bits_unsigned s
                      (- index + 131 + (if eb =? 32 then 0 else 64)
                       + Z.of_nat k * (dt + bb + eb) + dt + bb) eb
                    = Ok u
                    /\ element = (eo + (es * float_of_Z u))%float)
               /\ half_angle_rotation x y z element keyframe).
  { intros k keyframe Hk.
    destruct (keyframe_loop_nth _ quaternion_of _ s dt (dt + bb + eb) Hdelta
                _ _ _ _ _ _ Hloop Hk)
      as (d & b & quat & f & Hbody & ->).
    apply quaternion_1_dof_keyframe_fields in Hbody.
    destruct Hbody as (v & element & sn & w & _ & _ & Hel & Hsin & Hcos & ->).
    exists element. split; [exact Hel |].
    exists sn, w. repeat split; assumption. }
  split.
  - intros ->. subst eb. cbn in Hkey.
    intros k keyframe Hk. destruct (Hkey k keyframe Hk) as (element & Hel & Hr).
    exists element. split; [| exact Hr].
    replace (- index + 131 + Z.of_nat k * (dt + bb + 32) + dt + bb)
      with (- index + 131 + 0 + Z.of_nat k * (dt + bb + 32) + dt + bb) by lia.
    exact Hel.
  - intros Hne.
    assert (Heb : eb = e)
      by (subst eb; destruct (e =? 0) eqn:E0;
          [apply Z.eqb_eq in E0; lia | reflexivity]).
    rewrite Heb in *. clear Heb eb.
    assert (H32 : (e =? 32) = false) by (apply Z.eqb_neq; lia).
    rewrite H32 in Hes. destruct Hes as (us & sf & Hus & Hsf & -> & Heo).
    exists us, sf, eo. do 3 (split; [assumption |]).
    intros k keyframe Hk. destruct (Hkey k keyframe Hk) as (element & Hel & Hr).
    rewrite H32 in Hel. destruct Hel as (u & Hu & ->).
    exists u. split; [| exact Hr].
    replace (- index + 195 + Z.of_nat k * (dt + bb + e) + dt + bb)
      with (- index + 131 + 64 + Z.of_nat k * (dt + bb + e) + dt + bb) by lia.
    exact Hu.
Qed.

Lemma one_dof_angle_header_witness :
  exists keyframes,
    decompress_quaternion_1_dof_keyframes (ext := concrete_externals)
      one_dof_stream 0 30
    = Ok keyframes
    /\ exists x y z dt bb e,
         BitArray.get_float one_dof_stream (- 0) = Ok x
         /\ BitArray.get_float one_dof_stream (- 0 + 32) = Ok y
         /\ BitArray.get_float one_dof_stream (- 0 + 64) = Ok z
         /\ BitArray.get_bits_unsigned one_dof_stream (- 0 + 116) 5 = Ok dt
         /\ BitArray.get_bits_unsigned one_dof_stream (- 0 + 121) 5 = Ok bb
         /\ BitArray.get_bits_unsigned one_dof_stream (- 0 + 126) 5 = Ok e
         /\ (e = 0 ->
             forall k keyframe,
               nth_error keyframes k = Some keyframe ->
               exists element,
                 BitArray.get_float one_dof_stream
                   (- 0 + 131 + Z.of_nat k * (dt + bb + 32) + dt + bb)
                 = Ok element
                 /\ half_angle_rotation (ext := concrete_externals) x y z
                      element keyframe)
         /\ (e <> 0 ->
             exists us sf eo,
               BitArray.unsigned_bits_to_float_scaler e = Ok us
               /\ BitArray.get_float one_dof_stream (- 0 + 131) = Ok sf
               /\ BitArray.get_float one_dof_stream (- 0 + 163) = Ok eo
               /\ forall k keyframe,
                    nth_error keyframes k = Some keyframe ->
                    exists u,
                      BitArray.get_bits_unsigned one_dof_stream
                        (- 0 + 195 + Z.of_nat k * (dt + bb + e) + dt + bb) e
                      = Ok u
                      /\ half_angle_rotation (ext := concrete_externals)
                           x y z (eo + (sf * us) * float_of_Z u)%float
                           keyframe).
Proof.
  eexists. split; [vm_compute; reflexivity |].
  apply (one_dof_angle_header (ext := concrete_externals) one_dof_stream 0
           30%float).
  vm_compute. reflexivity.
Defined.
